(** * World water levels: Monte Carlo engine, scenario resolver, geoid
      texture and flood compositor

    A shallow embedding of the JavaScript modules

    - [simulation.js]         (Monte Carlo sea level rise engine, impact
                               texts and population estimates),
    - [projections.js]        (scenario / year to temperature),
    - [geoid.js]              (EGM96 grid to two-channel texture),
    - [floodVisualization.js] (module state, the material objects, the
                               animation loops and the two GLSL shaders),
    - [locations.js]          (the coastal locations),
    - [ui.js]                 (seeds, displayed level, contributor shares,
                               histogram bins and the compare button),

    followed by the properties proved about them.

    Numbers.  A JavaScript number is a binary64 double.  The engine, the
    geoid codec and the shaders are read over exact rationals ([Q]): every
    double is a rational, and [+], [-], [*], [/] are taken without rounding.
    The scenario resolver is written once over an arithmetic interface and
    run both over [Q] and over binary64 (Rocq's primitive floats), so that
    the values it computes can be read off to the last bit.  The bins of
    the histogram are computed in binary64 only: there the rounding
    decides whether a sample is counted.

    Objects.  A [Material] is an object with identity: the globe may hold
    the object [floodMaterial] refers to, or one that an earlier
    [initFloodVisualization] created.  The state records which.

    Host functions.  [Math.pow], [Math.sqrt], [Math.log], [Math.cos] and
    [Math.PI] are parameters ([MathLib]); [Math.random] is the ambient
    source of draws, threaded as explicit state; [Date.now] is an argument. *)

From Stdlib Require Import ZArith QArith Qround Qabs Qminmax.
From Stdlib Require Import List String Bool Lia Lqa.
From Stdlib Require Import Sorted Permutation Morphisms.
From Stdlib Require Floats Uint63.
Import ListNotations.

Set Implicit Arguments.

(* ================================================================== *)
(** ** The JavaScript fragment the modules rely on *)
(* ================================================================== *)

Module Js.

(** The result of reading a number-valued slot: a number, [NaN], or
    [undefined] (an absent array element or property). *)
Inductive value (num : Type) : Type :=
| Num (x : num)
| NaN
| Undefined.
Arguments Num {num} x.
Arguments NaN {num}.
Arguments Undefined {num}.

(** What a function call ends with. *)
Inductive exn : Type :=
| Error (message : string)
| TypeError (message : string).

Inductive completion (A : Type) : Type :=
| Return (a : A)
| Throw (e : exn).
Arguments Return {A} a.
Arguments Throw {A} e.

(** An object literal used as a table: its own properties, in insertion
    order (the order of [Object.keys] and [Object.entries] for keys that
    are not array indices). *)
Definition object (V : Type) : Type := list (string * V).

Fixpoint own {V} (o : object V) (key : string) : option V :=
  match o with
  | [] => None
  | (k, v) :: rest => if String.eqb k key then Some v else own rest key
  end.

(** [o[key] = v]: overwrite in place, or append a new property. *)
Fixpoint assign {V} (o : object V) (key : string) (v : V) : object V :=
  match o with
  | [] => [(key, v)]
  | (k, w) :: rest =>
      if String.eqb k key then (k, v) :: rest
      else (k, w) :: assign rest key v
  end.

Definition keys {V} (o : object V) : list string := map fst o.
Definition entries {V} (o : object V) : list (string * V) := o.

(** Properties every object literal inherits from [Object.prototype].
    All of them are truthy (functions, or the prototype itself). *)
Definition Object_prototype : list string :=
  [ "constructor"; "__proto__"; "hasOwnProperty"; "isPrototypeOf";
    "propertyIsEnumerable"; "toLocaleString"; "toString"; "valueOf";
    "__defineGetter__"; "__defineSetter__";
    "__lookupGetter__"; "__lookupSetter__" ]%string.

(** The property read [o[key]] on an object literal: an own property, a
    member inherited from [Object.prototype], or [undefined]. *)
Inductive slot (V : Type) : Type :=
| Own (v : V)
| Inherited (key : string)
| Missing.
Arguments Own {V} v.
Arguments Inherited {V} key.
Arguments Missing {V}.

Definition read {V} (o : object V) (key : string) : slot V :=
  match own o key with
  | Some v => Own v
  | None =>
      if existsb (String.eqb key) Object_prototype then Inherited key
      else Missing
  end.

(** [a[i]] for an array and an integer-valued index. *)
Definition index {A} (a : list A) (i : Z) : option A :=
  if (i <? 0)%Z then None else nth_error a (Z.to_nat i).

(** [Array.prototype.sort(compare)].  The standard leaves the algorithm
    to the engine but requires a stable sort; for a consistent comparator
    every stable sort returns the same array.  [before a b] says that
    [compare(a, b) <= 0]. *)
Section Sort.
Variable A : Type.
Variable before : A -> A -> bool.

Fixpoint insert (x : A) (l : list A) : list A :=
  match l with
  | [] => [x]
  | y :: rest => if before x y then x :: y :: rest else y :: insert x rest
  end.

Definition sort (l : list A) : list A := fold_right insert [] l.
End Sort.

End Js.

(* ================================================================== *)
(** ** simulation.js *)
(* ================================================================== *)

Module Simulation.
Import Js.
Local Open Scope Q_scope.

(** The host's [Math] object, as far as the engine uses it. *)
Record MathLib : Type := {
  pow : Q -> Q -> Q;
  sqrt : Q -> Q;
  log : Q -> Q;
  cos : Q -> Q;
  PI : Q
}.

(** [Math.random]: a hidden stream of draws in [0,1) and the position of
    the next one.  Nothing in the module seeds or resets it. *)
Record Source : Type := { draws : nat -> Q; cursor : nat }.

Definition Rand (A : Type) : Type := Source -> A * Source.
Definition ret {A} (a : A) : Rand A := fun s => (a, s).
Definition bind {A B} (m : Rand A) (k : A -> Rand B) : Rand B :=
  fun s => let (a, s') := m s in k a s'.

Declare Scope rand_scope.
Delimit Scope rand_scope with rand.
Notation "x <- m ;; k" := (bind m (fun x => k))
  (at level 61, m at next level, right associativity) : rand_scope.
Local Open Scope rand_scope.

Definition random : Rand Q :=
  fun s => (draws s (cursor s), {| draws := draws s; cursor := S (cursor s) |}).

Record Contributor : Type := {
  name : string;
  meanPerDeg : Q;
  stdPerDeg : Q;
  nonLinearExponent : Q
}.

Definition CONTRIBUTORS : object Contributor :=
  [ ("thermalExpansion"%string,
      {| name := "Thermal Expansion"; meanPerDeg := 0.12;
         stdPerDeg := 0.04; nonLinearExponent := 1.0 |});
    ("glaciers"%string,
      {| name := "Mountain Glaciers"; meanPerDeg := 0.10;
         stdPerDeg := 0.03; nonLinearExponent := 0.9 |});
    ("greenland"%string,
      {| name := "Greenland Ice Sheet"; meanPerDeg := 0.06;
         stdPerDeg := 0.04; nonLinearExponent := 1.4 |});
    ("antarctic"%string,
      {| name := "Antarctic Ice Sheet"; meanPerDeg := 0.05;
         stdPerDeg := 0.08; nonLinearExponent := 1.8 |});
    ("landWater"%string,
      {| name := "Land Water Storage"; meanPerDeg := 0.01;
         stdPerDeg := 0.01; nonLinearExponent := 1.0 |}) ].

Record StatSummary : Type := {
  mean : value Q;
  median : value Q;
  p5 : value Q;
  p95 : value Q;
  min : value Q;
  max : value Q
}.

(** [{ name: CONTRIBUTORS[key].name, ...computeStats(sorted) }]: the
    property [name] is the field [contributor], the spread summary the
    field [summary]. *)
Record ContributorStat : Type := {
  contributor : string;
  summary : StatSummary
}.

Record SimulationResult : Type := {
  tempIncrease : Q;
  iterations : Z;
  results : list Q;
  stats : StatSummary;
  contributorStats : object ContributorStat
}.

Record Iteration : Type := { total : Q; breakdown : object Q }.

(** [Math.max(0, val)] *)
Definition clampPositive (val : Q) : Q := Qmax 0 val.

(** The comparator [(a, b) => a - b] puts [a] first when [a - b <= 0]. *)
Definition ascending (a b : Q) : bool := Qle_bool (a - b) 0.

(** [sorted[i]] *)
Definition element (sorted : list Q) (i : Z) : value Q :=
  match index sorted i with
  | Some x => Num x
  | None => Undefined
  end.

(** [sum / n] for an array length [n]; [0 / 0] is [NaN]. *)
Definition average (sum : Q) (n : Z) : value Q :=
  if (n =? 0)%Z then NaN else Num (sum / inject_Z n).

Definition computeStats (sorted : list Q) : StatSummary :=
  let n := Z.of_nat (List.length sorted) in
  let sum := fold_left Qplus sorted 0 in
  {| mean := average sum n;
     median := element sorted (Qfloor (inject_Z n * 0.5));
     p5 := element sorted (Qfloor (inject_Z n * 0.05));
     p95 := element sorted (Qfloor (inject_Z n * 0.95));
     min := element sorted 0;
     max := element sorted (n - 1) |}.

(** [contributorTotals[key].push(value)].  Both objects carry the keys of
    [CONTRIBUTORS], so the array is always there; on a missing key, where
    JavaScript would throw, the object is returned as it is. *)
Definition push (contributorTotals : object (list Q)) (key : string) (v : Q)
  : object (list Q) :=
  match own contributorTotals key with
  | Some arr => assign contributorTotals key (arr ++ [v])
  | None => contributorTotals
  end.

Fixpoint pushAll (breakdownEntries : list (string * Q))
    (contributorTotals : object (list Q)) : object (list Q) :=
  match breakdownEntries with
  | [] => contributorTotals
  | (key, v) :: rest => pushAll rest (push contributorTotals key v)
  end.

Definition contributorName (key : string) : string :=
  match own CONTRIBUTORS key with
  | Some c => name c
  | None => ""
  end.

Fixpoint summarize (totals : list (string * list Q))
    (contributorStats : object ContributorStat) : object ContributorStat :=
  match totals with
  | [] => contributorStats
  | (key, values) :: rest =>
      let sorted := sort ascending values in
      summarize rest
        (assign contributorStats key
           {| contributor := contributorName key;
              summary := computeStats sorted |})
  end.

Definition zeroStats : StatSummary :=
  {| mean := Num 0; median := Num 0; p5 := Num 0; p95 := Num 0;
     min := Num 0; max := Num 0 |}.

Section Engine.
Variable Math : MathLib.

(** Box-Muller transform on two draws of [Math.random]. *)
Definition sampleNormal (mean stdDev : Q) : Rand Q :=
  u1 <- random ;;
  u2 <- random ;;
  let z := sqrt Math (-2 * log Math u1) * cos Math (2 * PI Math * u2) in
  ret (mean + z * stdDev).

Fixpoint contribute (contributors : list (string * Contributor))
    (tempIncrease : Q) (breakdown : object Q) (total : Q) : Rand Iteration :=
  match contributors with
  | [] => ret {| total := total; breakdown := breakdown |}
  | (key, contributor) :: rest =>
      let scaledTemp := pow Math tempIncrease (nonLinearExponent contributor) in
      let mean := meanPerDeg contributor * scaledTemp in
      let std := stdPerDeg contributor * sqrt Math tempIncrease in
      sample <- sampleNormal mean std ;;
      let value := clampPositive sample in
      contribute rest tempIncrease (assign breakdown key value) (total + value)
  end.

Definition singleIteration (tempIncrease : Q) : Rand Iteration :=
  contribute (entries CONTRIBUTORS) tempIncrease [] 0.

(** The loop [for (let i = 0; i < iterations; i++)], [count] rounds to go. *)
Fixpoint iterate (count : nat) (tempIncrease : Q) (results : list Q)
    (contributorTotals : object (list Q)) : Rand (list Q * object (list Q)) :=
  match count with
  | O => ret (results, contributorTotals)
  | S count' =>
      it <- singleIteration tempIncrease ;;
      iterate count' tempIncrease (results ++ [total it])
        (pushAll (entries (breakdown it)) contributorTotals)
  end.

(** [runSimulation(tempIncrease, iterations = 1000)]; [None] is an
    omitted second argument. *)
Definition runSimulation (tempIncrease : Q) (iterationsArg : option Z)
  : Rand SimulationResult :=
  let iterations := match iterationsArg with Some n => n | None => 1000%Z end in
  if Qle_bool tempIncrease 0 then
    ret {| tempIncrease := 0; iterations := 0; results := [];
           stats := zeroStats; contributorStats := [] |}
  else
    let contributorTotals :=
      map (fun key => (key, @nil Q)) (keys CONTRIBUTORS) in
    rc <- iterate (Z.to_nat iterations) tempIncrease [] contributorTotals ;;
    let results := sort ascending (fst rc) in
    let stats := computeStats results in
    let contributorStats := summarize (entries (snd rc)) [] in
    ret {| tempIncrease := tempIncrease; iterations := iterations;
           results := results; stats := stats;
           contributorStats := contributorStats |}.

(** A call [runSimulation(tempIncrease, iterations, seed)]: the function
    declares two parameters, so a third argument is bound to nothing. *)
Definition runSimulationSeeded (tempIncrease : Q) (iterations : Z) (seed : Z)
  : Rand SimulationResult :=
  runSimulation tempIncrease (Some iterations).
End Engine.

End Simulation.


(* ================================================================== *)
(** ** projections.js *)
(* ================================================================== *)

Module Projections.
Import Js.

(** The arithmetic of the resolver.  [lit q] is the number a decimal
    literal with exact value [q] denotes. *)
Class Arith (num : Type) : Type := {
  add : num -> num -> num;
  sub : num -> num -> num;
  mul : num -> num -> num;
  div : num -> num -> num;
  leb : num -> num -> bool;
  eqb : num -> num -> bool;
  lit : Q -> num
}.

(** Exact rationals. *)
#[export] Instance Exact : Arith Q := {
  add := Qplus; sub := Qminus; mul := Qmult; div := Qdiv;
  leb := Qle_bool; eqb := Qeq_bool; lit := fun q => q
}.

(** An integer below 2^53 in magnitude, as a double. *)
Definition floatOfZ (z : Z) : PrimFloat.float :=
  if (z <? 0)%Z then PrimFloat.opp (PrimFloat.of_uint63 (Uint63.of_Z (- z)))
  else PrimFloat.of_uint63 (Uint63.of_Z z).

(** IEEE 754 binary64, round to nearest even.  Numerator and denominator
    of a literal are exact doubles, and the correctly rounded quotient is
    the double nearest to the literal's value. *)
#[export] Instance Binary64 : Arith PrimFloat.float := {
  add := PrimFloat.add; sub := PrimFloat.sub;
  mul := PrimFloat.mul; div := PrimFloat.div;
  leb := PrimFloat.leb; eqb := PrimFloat.eqb;
  lit := fun q => PrimFloat.div (floatOfZ (Qnum q)) (floatOfZ (Zpos (Qden q)))
}.

Section Resolver.
Context {num : Type} {arith : Arith num}.

(** [temperaturesByYear] has the canonical integer keys "2030", "2050",
    "2100"; a key is kept as the integer it spells. *)
Record Scenario : Type := {
  id : string;
  label : string;
  description : string;
  temperaturesByYear : list (Z * num)
}.

Definition PROJECTION_YEARS : list Z := [2030; 2050; 2100]%Z.

Definition SCENARIO_DATA : object Scenario :=
  [ ("ssp126"%string,
      {| id := "ssp126"; label := "SSP1-2.6";
         description := "Strong mitigation, lower warming pathway";
         temperaturesByYear :=
           [ (2030%Z, lit 1.5%Q); (2050%Z, lit 1.8%Q); (2100%Z, lit 2.0%Q) ] |});
    ("ssp245"%string,
      {| id := "ssp245"; label := "SSP2-4.5";
         description := "Intermediate emissions pathway";
         temperaturesByYear :=
           [ (2030%Z, lit 1.6%Q); (2050%Z, lit 2.2%Q); (2100%Z, lit 2.9%Q) ] |});
    ("ssp585"%string,
      {| id := "ssp585"; label := "SSP5-8.5";
         description := "High emissions, high warming pathway";
         temperaturesByYear :=
           [ (2030%Z, lit 1.8%Q); (2050%Z, lit 2.7%Q); (2100%Z, lit 4.4%Q) ] |}) ].

Definition getScenarioPresets : list Scenario := map snd SCENARIO_DATA.

(** [SCENARIO_DATA[id] || null].  An own or inherited member is truthy, so
    [|| null] only replaces [undefined]; [Missing] stands for [null]. *)
Definition getScenarioById (id : string) : slot Scenario :=
  read SCENARIO_DATA id.

(** [Number(y)] for a key. *)
Definition Number (key : Z) : num := lit (inject_Z key).

(** [table[year]] for a number [year]: the property whose key is the
    string of [year], that is the key numerically equal to it. *)
Fixpoint at_year (table : list (Z * num)) (year : num) : value num :=
  match table with
  | [] => Undefined
  | (key, t) :: rest => if eqb (Number key) year then Num t else at_year rest year
  end.

(** [table[y]] where [y] was itself read from an array. *)
Definition at_element (table : list (Z * num)) (y : option num) : value num :=
  match y with
  | Some year => at_year table year
  | None => Undefined
  end.

(** A binary operator on operands that may be [undefined]. *)
Definition lift2 (op : num -> num -> num) (a b : value num) : value num :=
  match a, b with
  | Num x, Num y => Num (op x y)
  | _, _ => NaN
  end.

(** The interpolation loop over [years[i]], [years[i + 1]]. *)
Fixpoint interpolate (table : list (Z * num)) (year : num) (years : list num)
    (otherwise : value num) : value num :=
  match years with
  | [] => otherwise
  | y0 :: rest =>
      match rest with
      | [] => otherwise
      | y1 :: _ =>
          if leb y0 year && leb year y1 then
            let t0 := at_year table y0 in
            let t1 := at_year table y1 in
            let alpha := div (sub year y0) (sub y1 y0) in
            lift2 add t0 (lift2 mul (lift2 sub t1 t0) (Num alpha))
          else interpolate table year rest otherwise
      end
  end.

Definition getProjectedTemp (scenarioId : string) (year : num)
  : completion (value num) :=
  match getScenarioById scenarioId with
  | Missing =>
      Throw (Error (String.append "Unknown scenario id: " scenarioId))
  | Inherited _ =>
      (* [Object.keys(scenario.temperaturesByYear)] on [undefined] *)
      Throw (TypeError "Cannot convert undefined or null to object")
  | Own scenario =>
      let table := temperaturesByYear scenario in
      let years := sort leb (map (fun kv => Number (fst kv)) table) in
      match at_year table year with
      | Num t => Return (Num t)
      | _ =>
          let first := index years 0 in
          let last := index years (Z.of_nat (List.length years) - 1) in
          if match first with Some y => leb year y | None => false end
          then Return (at_element table first)
          else if match last with Some y => leb y year | None => false end
          then Return (at_element table last)
          else Return (interpolate table year years (at_element table first))
      end
  end.

End Resolver.

End Projections.

(* ================================================================== *)
(** ** geoid.js *)
(* ================================================================== *)

Module Geoid.
Local Open Scope Q_scope.

Definition ROWS : Z := 721.
Definition COLS : Z := 1440.

Definition GEOID_MIN : Q := -107.0.
Definition GEOID_MAX : Q := 86.0.
Definition GEOID_RANGE : Q := GEOID_MAX - GEOID_MIN.

(** [Math.round]: the nearest integer, halves upwards. *)
Definition Math_round (x : Q) : Z := Qfloor (x + 0.5).

(** One RGBA pixel of the canvas, each channel a byte. *)
Record Pixel : Type := { R : Z; G : Z; B : Z; A : Z }.

(** The body of the inner loop from [valueM] on. *)
Definition encode (valueM : Q) : Pixel :=
  let normalized := (valueM - GEOID_MIN) / GEOID_RANGE in
  let clamped := Qmax 0 (Qmin 1 normalized) in
  let encoded := Math_round (clamped * 65535) in
  let hi := Z.land (Z.shiftr encoded 8) 255 in
  let lo := Z.land encoded 255 in
  {| R := hi; G := lo; B := 0; A := 255 |}.

(** [view.getInt16(byteOffset, false)]: big-endian, two's complement. *)
Definition getInt16 (buffer : list Z) (byteOffset : Z) : Z :=
  let hi := nth (Z.to_nat byteOffset) buffer 0%Z in
  let lo := nth (Z.to_nat (byteOffset + 1)) buffer 0%Z in
  let u := (hi * 256 + lo)%Z in
  if (u <? 32768)%Z then u else (u - 65536)%Z.

(** The pixel written at ([row], [col]); column [COLS] repeats column 0. *)
Definition pixelAt (buffer : list Z) (row col : Z) : Pixel :=
  let col' := if (col <? COLS)%Z then col else 0%Z in
  let srcCol := ((col' + 720) mod COLS)%Z in
  let byteOffset := ((row * COLS + srcCol) * 2)%Z in
  let valueCm := getInt16 buffer byteOffset in
  let valueM := inject_Z valueCm / 100.0 in
  encode valueM.

(** The canvas, or [null] when the file has the wrong size. *)
Definition loadGeoidTexture (buffer : list Z) : option (Z -> Z -> Pixel) :=
  if (Z.of_nat (List.length buffer) =? ROWS * COLS * 2)%Z
  then Some (pixelAt buffer)
  else None.

End Geoid.


(* ================================================================== *)
(** ** floodVisualization.js *)
(* ================================================================== *)

Module FloodVisualization.
Import Js.
Local Open Scope Q_scope.

(** *** The GLSL side *)

(** A texel as the sampler returns it: every channel in [0,1]. *)
Record Texel : Type := { r : Q; g : Q; b : Q; a : Q }.

(** [texture(geoidTexture, vec2(u, v))] *)
Definition Sampler : Type := Q -> Q -> Texel.

(** The texel of a canvas pixel, read without filtering. *)
Definition texel (p : Geoid.Pixel) : Texel :=
  {| r := inject_Z (Geoid.R p) / 255; g := inject_Z (Geoid.G p) / 255;
     b := inject_Z (Geoid.B p) / 255; a := inject_Z (Geoid.A p) / 255 |}.

Module GeoidUniforms.
Record t : Type := {
  seaLevelRise : Q;
  comparisonSLR : Q;
  waterAlpha : Q;
  geoidTexture : Sampler;
  geoidMin : Q;
  geoidRange : Q
}.
End GeoidUniforms.

Module FallbackUniforms.
Record t : Type := {
  floodLevel : Q;
  waterAlpha : Q;
  comparisonLevel : Q
}.
End FallbackUniforms.

Record czm_materialInput : Type := {
  waterMask : Q;
  height : Q;
  st : Q * Q
}.

Record czm_material : Type := { diffuse : Q * Q * Q; alpha : Q }.

(** Cesium's [czm_getDefaultMaterial], for the two fields the shaders set. *)
Definition czm_getDefaultMaterial (materialInput : czm_materialInput)
  : czm_material :=
  {| diffuse := (0, 0, 0); alpha := 1.0 |}.

Definition gt (x y : Q) : bool := negb (Qle_bool x y).
Definition lt (x y : Q) : bool := negb (Qle_bool y x).
Definition ge (x y : Q) : bool := Qle_bool y x.
Definition ne (x y : Q) : bool := negb (Qeq_bool x y).

(** GLSL [clamp] and [smoothstep]. *)
Definition clamp (x lo hi : Q) : Q := Qmin (Qmax x lo) hi.

Definition smoothstep (edge0 edge1 x : Q) : Q :=
  let t := clamp ((x - edge0) / (edge1 - edge0)) 0 1 in
  t * t * (3 - 2 * t).

Definition floodColor : Q * Q * Q := (1.0, 0.65, 0.0).
Definition comparisonColor : Q * Q * Q := (1.0, 0.3, 0.1).

(** Lines 49-51 of the geoid shader: the undulation of a fragment. *)
Definition geoidUndulation (u : GeoidUniforms.t) (materialInput : czm_materialInput)
  : Q :=
  let geoidSample :=
    GeoidUniforms.geoidTexture u (fst (st materialInput)) (snd (st materialInput)) in
  let encoded :=
    r geoidSample * (255.0 * 256.0 / 65535.0) + g geoidSample * (255.0 / 65535.0) in
  encoded * GeoidUniforms.geoidRange u + GeoidUniforms.geoidMin u.

Definition FLOOD_SHADER_GEOID (u : GeoidUniforms.t)
    (materialInput : czm_materialInput) : czm_material :=
  let material := czm_getDefaultMaterial materialInput in
  let material := {| diffuse := diffuse material; alpha := 0.0 |} in
  if gt (waterMask materialInput) 0.5 then material
  else
    let h := height materialInput in
    let floodSurface := geoidUndulation u materialInput + GeoidUniforms.seaLevelRise u in
    let edgeSoftness := 0.35 in
    let floodMask :=
      if gt (GeoidUniforms.seaLevelRise u) 0.0
      then 1.0 - smoothstep (floodSurface - edgeSoftness) (floodSurface + edgeSoftness) h
      else 0.0 in
    let material :=
      if gt floodMask 0.001
      then {| diffuse := floodColor; alpha := GeoidUniforms.waterAlpha u * floodMask |}
      else material in
    if gt (GeoidUniforms.comparisonSLR u) 0.0 then
      let compSurface := geoidUndulation u materialInput + GeoidUniforms.comparisonSLR u in
      let lower := Qmin floodSurface compSurface in
      let upper := Qmax floodSurface compSurface in
      if ge h lower && lt h upper
      then {| diffuse := comparisonColor; alpha := 0.5 |}
      else material
    else material.

Definition FLOOD_SHADER_FALLBACK (u : FallbackUniforms.t)
    (materialInput : czm_materialInput) : czm_material :=
  let material := czm_getDefaultMaterial materialInput in
  let material := {| diffuse := diffuse material; alpha := 0.0 |} in
  if gt (waterMask materialInput) 0.5 then material
  else
    let h := height materialInput in
    let edgeSoftness := 0.35 in
    let floodLevel := FallbackUniforms.floodLevel u in
    let comparisonLevel := FallbackUniforms.comparisonLevel u in
    let floodMask :=
      if gt floodLevel 0.0
      then 1.0 - smoothstep (floodLevel - edgeSoftness) (floodLevel + edgeSoftness) h
      else 0.0 in
    let material :=
      if gt floodMask 0.001
      then {| diffuse := floodColor; alpha := FallbackUniforms.waterAlpha u * floodMask |}
      else material in
    if ne comparisonLevel 0.0 then
      let lower := Qmin floodLevel comparisonLevel in
      let upper := Qmax floodLevel comparisonLevel in
      if ge h lower && lt h upper
      then {| diffuse := comparisonColor; alpha := 0.5 |}
      else material
    else material.

(** *** The JavaScript side *)

(** [new Material({ fabric: { type, uniforms, source } })] *)
Inductive Material : Type :=
| FloodGeoid (uniforms : GeoidUniforms.t)
| FloodFallback (uniforms : FallbackUniforms.t).

(** What the globe draws for a fragment with this material. *)
Definition czm_getMaterial (m : Material) : czm_materialInput -> czm_material :=
  match m with
  | FloodGeoid u => FLOOD_SHADER_GEOID u
  | FloodFallback u => FLOOD_SHADER_FALLBACK u
  end.

Record Snapshot : Type := {
  seaLevelRise : Q;
  simulationResult : option Simulation.SimulationResult;
  timestamp : Z
}.

(** What [viewer.scene.globe.material] refers to.  The module never reads
    it and assigns it [undefined] or [floodMaterial] only, and
    [initFloodVisualization] makes [floodMaterial] refer to a new object
    without assigning it.  So the globe has no material, or the very object
    [floodMaterial] refers to (a later write to a uniform is then seen by
    the globe), or an object of an earlier [initFloodVisualization]: no
    variable refers to that one any more, so its uniforms stay as they
    were. *)
Inductive GlobeMaterial : Type :=
| NoMaterial
| TheFloodMaterial
| EarlierMaterial (m : Material).

(** The module's variables, the places of the viewer it writes, and the
    window's animation frame callbacks.  All calls are taken to pass the
    same viewer.  [animationFrame] is [null] or the handle of the last
    request; [frameCallbacks] are the handles of the pending callbacks,
    each of them [animate], in the order of the requests; [frameHandle] is
    the last handle the window gave out (handles start at 1). *)
Record State : Type := {
  floodMaterial : option Material;
  previousSnapshot : option Snapshot;
  currentSnapshot : option Snapshot;
  waterAlpha : Q;
  targetAlpha : Q;
  alphaAnimating : bool;
  useGeoidTexture : bool;
  globeMaterial : GlobeMaterial;
  renderRequests : nat;
  animationFrame : option nat;
  frameCallbacks : list nat;
  frameHandle : nat
}.

Definition initial : State :=
  {| floodMaterial := None; previousSnapshot := None; currentSnapshot := None;
     waterAlpha := 0; targetAlpha := 0; alphaAnimating := false;
     useGeoidTexture := false; globeMaterial := NoMaterial;
     renderRequests := 0;
     animationFrame := None; frameCallbacks := []; frameHandle := 0 |}.

(** The material the globe draws with, if it has one. *)
Definition drawn (s : State) : option Material :=
  match globeMaterial s with
  | NoMaterial => None
  | TheFloodMaterial => floodMaterial s
  | EarlierMaterial m => Some m
  end.

(** Writes to [floodMaterial.uniforms].  [useGeoidTexture] and the kind of
    the material are set together by [initFloodVisualization], so a write
    always finds its uniform. *)
Definition write_waterAlpha (x : Q) (m : Material) : Material :=
  match m with
  | FloodGeoid u =>
      FloodGeoid
        {| GeoidUniforms.seaLevelRise := GeoidUniforms.seaLevelRise u;
           GeoidUniforms.comparisonSLR := GeoidUniforms.comparisonSLR u;
           GeoidUniforms.waterAlpha := x;
           GeoidUniforms.geoidTexture := GeoidUniforms.geoidTexture u;
           GeoidUniforms.geoidMin := GeoidUniforms.geoidMin u;
           GeoidUniforms.geoidRange := GeoidUniforms.geoidRange u |}
  | FloodFallback u =>
      FloodFallback
        {| FallbackUniforms.floodLevel := FallbackUniforms.floodLevel u;
           FallbackUniforms.waterAlpha := x;
           FallbackUniforms.comparisonLevel := FallbackUniforms.comparisonLevel u |}
  end.

Definition write_seaLevelRise (x : Q) (m : Material) : Material :=
  match m with
  | FloodGeoid u =>
      FloodGeoid
        {| GeoidUniforms.seaLevelRise := x;
           GeoidUniforms.comparisonSLR := GeoidUniforms.comparisonSLR u;
           GeoidUniforms.waterAlpha := GeoidUniforms.waterAlpha u;
           GeoidUniforms.geoidTexture := GeoidUniforms.geoidTexture u;
           GeoidUniforms.geoidMin := GeoidUniforms.geoidMin u;
           GeoidUniforms.geoidRange := GeoidUniforms.geoidRange u |}
  | FloodFallback _ => m
  end.

Definition write_comparisonSLR (x : Q) (m : Material) : Material :=
  match m with
  | FloodGeoid u =>
      FloodGeoid
        {| GeoidUniforms.seaLevelRise := GeoidUniforms.seaLevelRise u;
           GeoidUniforms.comparisonSLR := x;
           GeoidUniforms.waterAlpha := GeoidUniforms.waterAlpha u;
           GeoidUniforms.geoidTexture := GeoidUniforms.geoidTexture u;
           GeoidUniforms.geoidMin := GeoidUniforms.geoidMin u;
           GeoidUniforms.geoidRange := GeoidUniforms.geoidRange u |}
  | FloodFallback _ => m
  end.

Definition write_floodLevel (x : Q) (m : Material) : Material :=
  match m with
  | FloodGeoid _ => m
  | FloodFallback u =>
      FloodFallback
        {| FallbackUniforms.floodLevel := x;
           FallbackUniforms.waterAlpha := FallbackUniforms.waterAlpha u;
           FallbackUniforms.comparisonLevel := FallbackUniforms.comparisonLevel u |}
  end.

Definition write_comparisonLevel (x : Q) (m : Material) : Material :=
  match m with
  | FloodGeoid _ => m
  | FloodFallback u =>
      FloodFallback
        {| FallbackUniforms.floodLevel := FallbackUniforms.floodLevel u;
           FallbackUniforms.waterAlpha := FallbackUniforms.waterAlpha u;
           FallbackUniforms.comparisonLevel := x |}
  end.

(** The comparison uniform of the shader in use. *)
Definition write_comparison (geoid : bool) (x : Q) (m : Material) : Material :=
  if geoid then write_comparisonSLR x m else write_comparisonLevel x m.

(** The body of [animate] before it re-arms itself.  It reads the module
    variable [floodMaterial], whichever call of [initFloodVisualization]
    started the loop. *)
Definition fade (s : State) : State :=
  match alphaAnimating s, floodMaterial s with
  | true, Some m =>
      let diff := targetAlpha s - waterAlpha s in
      if gt (Qabs diff) 0.005 then
        let waterAlpha' := waterAlpha s + diff * 0.08 in
        {| floodMaterial := Some (write_waterAlpha waterAlpha' m);
           previousSnapshot := previousSnapshot s;
           currentSnapshot := currentSnapshot s;
           waterAlpha := waterAlpha'; targetAlpha := targetAlpha s;
           alphaAnimating := true; useGeoidTexture := useGeoidTexture s;
           globeMaterial := globeMaterial s;
           renderRequests := S (renderRequests s);
           animationFrame := animationFrame s;
           frameCallbacks := frameCallbacks s;
           frameHandle := frameHandle s |}
      else
        {| floodMaterial := Some (write_waterAlpha (targetAlpha s) m);
           previousSnapshot := previousSnapshot s;
           currentSnapshot := currentSnapshot s;
           waterAlpha := targetAlpha s; targetAlpha := targetAlpha s;
           alphaAnimating := false; useGeoidTexture := useGeoidTexture s;
           globeMaterial :=
             if Qeq_bool (targetAlpha s) 0 then NoMaterial else globeMaterial s;
           renderRequests := renderRequests s;
           animationFrame := animationFrame s;
           frameCallbacks := frameCallbacks s;
           frameHandle := frameHandle s |}
  | _, _ => s
  end.

(** One run of [animate]: the fade step, then
    [animationFrame = requestAnimationFrame(animate)], which queues the
    callback once more under a new handle. *)
Definition animate (s : State) : State :=
  let s := fade s in
  let handle := S (frameHandle s) in
  {| floodMaterial := floodMaterial s;
     previousSnapshot := previousSnapshot s;
     currentSnapshot := currentSnapshot s;
     waterAlpha := waterAlpha s; targetAlpha := targetAlpha s;
     alphaAnimating := alphaAnimating s;
     useGeoidTexture := useGeoidTexture s;
     globeMaterial := globeMaterial s; renderRequests := renderRequests s;
     animationFrame := Some handle;
     frameCallbacks := frameCallbacks s ++ [handle];
     frameHandle := handle |}.

(** [viewer.scene.globe.depthTestAgainstTerrain], which the module only
    sets, is left out.  The function gives [floodMaterial] a new object
    and does not assign [viewer.scene.globe.material]: a globe that had
    the old object keeps it.  [startAlphaAnimation] starts one more loop
    of [animate], whatever loops are running. *)
Definition initFloodVisualization (geoidCanvas : option Sampler) (s : State)
  : State :=
  let material :=
    match geoidCanvas with
    | Some canvas =>
        FloodGeoid
          {| GeoidUniforms.seaLevelRise := 0.0;
             GeoidUniforms.comparisonSLR := 0.0;
             GeoidUniforms.waterAlpha := 0.0;
             GeoidUniforms.geoidTexture := canvas;
             GeoidUniforms.geoidMin := Geoid.GEOID_MIN;
             GeoidUniforms.geoidRange := Geoid.GEOID_RANGE |}
    | None =>
        FloodFallback
          {| FallbackUniforms.floodLevel := 0.0;
             FallbackUniforms.waterAlpha := 0.0;
             FallbackUniforms.comparisonLevel := 0.0 |}
    end in
  (* [startAlphaAnimation(viewer)] calls [animate()] once, at once *)
  animate
  {| floodMaterial := Some material;
     previousSnapshot := previousSnapshot s;
     currentSnapshot := currentSnapshot s;
     waterAlpha := waterAlpha s; targetAlpha := targetAlpha s;
     alphaAnimating := alphaAnimating s;
     useGeoidTexture := match geoidCanvas with Some _ => true | None => false end;
     globeMaterial :=
       match globeMaterial s, floodMaterial s with
       | TheFloodMaterial, Some old => EarlierMaterial old
       | TheFloodMaterial, None => NoMaterial
       | kept, _ => kept
       end;
     renderRequests := renderRequests s;
     animationFrame := animationFrame s;
     frameCallbacks := frameCallbacks s;
     frameHandle := frameHandle s |}.

Definition clearFlood (s : State) : State :=
  {| floodMaterial :=
       match floodMaterial s with
       | Some m => Some (write_comparison (useGeoidTexture s) 0.0 (write_waterAlpha 0.0 m))
       | None => None
       end;
     previousSnapshot := currentSnapshot s;
     currentSnapshot := None;
     waterAlpha := 0; targetAlpha := 0; alphaAnimating := false;
     useGeoidTexture := useGeoidTexture s;
     globeMaterial := NoMaterial;
     renderRequests := S (renderRequests s);
     animationFrame := animationFrame s;
     frameCallbacks := frameCallbacks s;
     frameHandle := frameHandle s |}.

(** The first statement of [setFloodLevel]: the snapshot bookkeeping.
    [now] is the value of [Date.now()]. *)
Definition record (seaLevelRise : Q)
    (simulationResult : option Simulation.SimulationResult) (now : Z)
    (s : State) : State :=
  {| floodMaterial := floodMaterial s;
     previousSnapshot :=
       match currentSnapshot s with
       | Some c => Some c
       | None => previousSnapshot s
       end;
     currentSnapshot :=
       Some {| seaLevelRise := seaLevelRise;
               simulationResult := simulationResult;
               timestamp := now |};
     waterAlpha := waterAlpha s; targetAlpha := targetAlpha s;
     alphaAnimating := alphaAnimating s;
     useGeoidTexture := useGeoidTexture s;
     globeMaterial := globeMaterial s; renderRequests := renderRequests s;
     animationFrame := animationFrame s;
     frameCallbacks := frameCallbacks s;
     frameHandle := frameHandle s |}.

(** [setFloodLevel(viewer, seaLevelRise, simulationResult, recordSnapshot)].
    With [floodMaterial] still [null] the first uniform write throws, after
    the snapshots have been updated. *)
Definition setFloodLevel (seaLevelRise : Q)
    (simulationResult : option Simulation.SimulationResult)
    (recordSnapshot : bool) (now : Z) (s : State) : State * option exn :=
  let s := if recordSnapshot then record seaLevelRise simulationResult now s else s in
  if Qle_bool seaLevelRise 0 then (clearFlood s, None)
  else
    match floodMaterial s with
    | None => (s, Some (TypeError "Cannot read properties of null"))
    | Some m =>
        let m :=
          if useGeoidTexture s
          then write_comparisonSLR 0.0 (write_seaLevelRise seaLevelRise m)
          else write_comparisonLevel 0.0 (write_floodLevel seaLevelRise m) in
        ({| floodMaterial := Some (write_waterAlpha 0 m);
            previousSnapshot := previousSnapshot s;
            currentSnapshot := currentSnapshot s;
            waterAlpha := 0; targetAlpha := 0.55; alphaAnimating := true;
            useGeoidTexture := useGeoidTexture s;
            globeMaterial := TheFloodMaterial;
            renderRequests := renderRequests s;
            animationFrame := animationFrame s;
            frameCallbacks := frameCallbacks s;
            frameHandle := frameHandle s |}, None)
    end.

Definition showComparison (s : State) : State * bool :=
  match previousSnapshot s, currentSnapshot s, floodMaterial s with
  | Some previous, Some _, Some m =>
      ({| floodMaterial :=
            Some (write_comparison (useGeoidTexture s) (seaLevelRise previous) m);
          previousSnapshot := previousSnapshot s;
          currentSnapshot := currentSnapshot s;
          waterAlpha := waterAlpha s; targetAlpha := targetAlpha s;
          alphaAnimating := alphaAnimating s;
          useGeoidTexture := useGeoidTexture s;
          globeMaterial := globeMaterial s;
          renderRequests := S (renderRequests s);
          animationFrame := animationFrame s;
          frameCallbacks := frameCallbacks s;
          frameHandle := frameHandle s |}, true)
  | _, _, _ => (s, false)
  end.

Definition hideComparison (s : State) : State :=
  match floodMaterial s with
  | Some m =>
      {| floodMaterial := Some (write_comparison (useGeoidTexture s) 0.0 m);
         previousSnapshot := previousSnapshot s;
         currentSnapshot := currentSnapshot s;
         waterAlpha := waterAlpha s; targetAlpha := targetAlpha s;
         alphaAnimating := alphaAnimating s;
         useGeoidTexture := useGeoidTexture s;
         globeMaterial := globeMaterial s;
         renderRequests := S (renderRequests s);
         animationFrame := animationFrame s;
         frameCallbacks := frameCallbacks s;
         frameHandle := frameHandle s |}
  | None => s
  end.

Record ComparisonDelta : Type := {
  currentSLR : Q;
  previousSLR : Q;
  delta : Q;
  currentTemp : Q;
  previousTemp : Q
}.

(** [snapshot.simulationResult?.tempIncrease ?? 0] *)
Definition tempOf (snapshot : Snapshot) : Q :=
  match simulationResult snapshot with
  | Some result => Simulation.tempIncrease result
  | None => 0
  end.

Definition getComparisonDelta (s : State) : option ComparisonDelta :=
  match currentSnapshot s, previousSnapshot s with
  | Some current, Some previous =>
      Some {| currentSLR := seaLevelRise current;
              previousSLR := seaLevelRise previous;
              delta := seaLevelRise current - seaLevelRise previous;
              currentTemp := tempOf current;
              previousTemp := tempOf previous |}
  | _, _ => None
  end.

Definition hasPreviousSnapshot (s : State) : bool :=
  match previousSnapshot s with Some _ => true | None => false end.

(** [cancelAnimationFrame(handle)]: the callback of that handle, if it is
    pending, will not run. *)
Definition cancelAnimationFrame (handle : nat) (callbacks : list nat)
  : list nat :=
  filter (fun h => negb (Nat.eqb h handle)) callbacks.

(** [animationFrame] keeps the handle: only the last request is cancelled,
    and the loops of other calls of [initFloodVisualization] go on. *)
Definition destroyFloodVisualization (s : State) : State :=
  {| floodMaterial := floodMaterial s;
     previousSnapshot := previousSnapshot s;
     currentSnapshot := currentSnapshot s;
     waterAlpha := waterAlpha s; targetAlpha := targetAlpha s;
     alphaAnimating := alphaAnimating s;
     useGeoidTexture := useGeoidTexture s;
     globeMaterial := NoMaterial; renderRequests := renderRequests s;
     animationFrame := animationFrame s;
     frameCallbacks :=
       match animationFrame s with
       | Some handle => cancelAnimationFrame handle (frameCallbacks s)
       | None => frameCallbacks s
       end;
     frameHandle := frameHandle s |}.

(** The window runs the animation frame callbacks: those pending when the
    frame starts, in the order of their requests; what they request runs
    in the next frame. *)
Definition frame (s : State) : State :=
  fold_left (fun s _ => animate s) (frameCallbacks s)
    {| floodMaterial := floodMaterial s;
       previousSnapshot := previousSnapshot s;
       currentSnapshot := currentSnapshot s;
       waterAlpha := waterAlpha s; targetAlpha := targetAlpha s;
       alphaAnimating := alphaAnimating s;
       useGeoidTexture := useGeoidTexture s;
       globeMaterial := globeMaterial s; renderRequests := renderRequests s;
       animationFrame := animationFrame s;
       frameCallbacks := [];
       frameHandle := frameHandle s |}.

(** The calls a client can make, together with the window running a
    frame, and the states they lead to. *)
Inductive call : Type :=
| Init (geoidCanvas : option Sampler)
| Frame
| SetFloodLevel (seaLevelRise : Q)
    (simulationResult : option Simulation.SimulationResult)
    (recordSnapshot : bool) (now : Z)
| ClearFlood
| ShowComparison
| HideComparison
| Destroy.

Definition step (s : State) (c : call) : State :=
  match c with
  | Init geoidCanvas => initFloodVisualization geoidCanvas s
  | Frame => frame s
  | SetFloodLevel slr result rec now => fst (setFloodLevel slr result rec now s)
  | ClearFlood => clearFlood s
  | ShowComparison => fst (showComparison s)
  | HideComparison => hideComparison s
  | Destroy => destroyFloodVisualization s
  end.

Definition run (calls : list call) : State := fold_left step calls initial.

Definition reachable (s : State) : Prop := exists calls, run calls = s.

(** A fragment is drawn as part of the comparison band when the shader
    gives it the comparison colour. *)
Definition inComparisonBand (m : Material) (materialInput : czm_materialInput)
  : bool :=
  let '(x, y, z) := diffuse (czm_getMaterial m materialInput) in
  let '(x', y', z') := comparisonColor in
  Qeq_bool x x' && Qeq_bool y y' && Qeq_bool z z'.

End FloodVisualization.


(* ================================================================== *)
(** ** simulation.js: the impact helpers *)
(* ================================================================== *)

Module Impact.
Import Js.
Local Open Scope Q_scope.

(** [x < c] for an argument that may be [NaN] or [undefined]: a comparison
    with either is false. *)
Definition below (x : value Q) (c : Q) : bool :=
  match x with
  | Num q => negb (Qle_bool c q)
  | _ => false
  end.

Definition getImpactDescription (slrMeters : value Q) : string :=
  if below slrMeters 0.1 then "Minimal visible change"
  else if below slrMeters 0.3 then "Minor coastal flooding during storms"
  else if below slrMeters 0.5
  then "Significant coastal erosion, regular tidal flooding"
  else if below slrMeters 1.0
  then "Major coastal city flooding, island nations at risk"
  else if below slrMeters 2.0
  then "Catastrophic: many coastal cities partially submerged"
  else if below slrMeters 5.0
  then "Extreme: massive land loss, hundreds of millions displaced"
  else "Civilization-altering: major population centers underwater".

(** The estimators, on a number of metres. *)
Definition POPULATION_AT_RISK : object (Q -> Z) :=
  [ ("bangladesh"%string, fun slr => Geoid.Math_round (slr * 20000000));
    ("srilanka"%string, fun slr => Geoid.Math_round (slr * 2000000));
    ("maldives"%string,
      fun slr =>
        Z.min 520000
          (Geoid.Math_round
             (if negb (Qle_bool slr 0.5) then 520000 else slr * 1040000)));
    ("netherlands"%string, fun slr => Geoid.Math_round (slr * 4000000));
    ("nyc"%string, fun slr => Geoid.Math_round (slr * 800000));
    ("mumbai"%string, fun slr => Geoid.Math_round (slr * 3000000));
    ("shanghai"%string, fun slr => Geoid.Math_round (slr * 5000000)) ].

End Impact.

(* ================================================================== *)
(** ** locations.js *)
(* ================================================================== *)

Module Locations.
Import Js.
Local Open Scope Q_scope.

Record Location : Type := {
  id : string;
  name : string;
  description : string;
  longitude : Q;
  latitude : Q;
  height : Q;
  pitch : Q;
  heading : Q;
  avgElevation : Q;
  population : Z;
  coastalPopulation : Z;
  geoidUndulation : Q
}.

Definition LOCATIONS : list Location :=
  [ {| id := "bangladesh"; name := "🇧🇩 Bangladesh";
       description := "Low-lying delta, one of the most vulnerable nations";
       longitude := 90.35; latitude := 23.0; height := 150000;
       pitch := -30; heading := 0; avgElevation := 5;
       population := 170000000; coastalPopulation := 40000000;
       geoidUndulation := -45 |};
    {| id := "srilanka"; name := "🇱🇰 Sri Lanka";
       description := "Island nation with extensive low-lying coastal areas";
       longitude := 80.77; latitude := 7.87; height := 200000;
       pitch := -35; heading := 0; avgElevation := 15;
       population := 22000000; coastalPopulation := 5000000;
       geoidUndulation := -90 |};
    {| id := "maldives"; name := "🇲🇻 Maldives";
       description := "Average elevation ~1.5m — existential threat";
       longitude := 73.22; latitude := 3.20; height := 100000;
       pitch := -40; heading := 0; avgElevation := 1.5;
       population := 520000; coastalPopulation := 520000;
       geoidUndulation := -100 |};
    {| id := "netherlands"; name := "🇳🇱 Netherlands";
       description := "~26% below sea level, protected by extensive dike systems";
       longitude := 4.90; latitude := 52.10; height := 200000;
       pitch := -30; heading := 0; avgElevation := -2;
       population := 17500000; coastalPopulation := 9000000;
       geoidUndulation := 46 |};
    {| id := "nyc"; name := "🇺🇸 New York City";
       description := "Low-lying boroughs, major infrastructure at risk";
       longitude := -74.00; latitude := 40.71; height := 80000;
       pitch := -25; heading := 0; avgElevation := 10;
       population := 8300000; coastalPopulation := 3000000;
       geoidUndulation := -33 |};
    {| id := "mumbai"; name := "🇮🇳 Mumbai";
       description := "Built on reclaimed land, western coast extremely low";
       longitude := 72.88; latitude := 19.07; height := 100000;
       pitch := -30; heading := 0; avgElevation := 8;
       population := 20000000; coastalPopulation := 10000000;
       geoidUndulation := -75 |};
    {| id := "shanghai"; name := "🇨🇳 Shanghai";
       description := "Yangtze River delta, vast low-lying urban area";
       longitude := 121.47; latitude := 31.23; height := 120000;
       pitch := -30; heading := 0; avgElevation := 4;
       population := 28000000; coastalPopulation := 15000000;
       geoidUndulation := -22 |} ].

(** [LOCATIONS.find((loc) => loc.id === id)]; [None] is [undefined]. *)
Definition getLocationById (id0 : string) : option Location :=
  find (fun loc => String.eqb (id loc) id0) LOCATIONS.

End Locations.

(* ================================================================== *)
(** ** ui.js: the computations behind the controls *)
(* ================================================================== *)

Module Ui.
Import Js.
Local Open Scope Q_scope.

Definition TEMP_LEVELS : list Q := [1; 2; 3; 5; 8; 10].
Definition TEMP_STEP : Q := 0.05.
Definition TEMP_MAX : Q := 10.
Definition TEMP_MIN : Q := 0.
Definition MONTE_CARLO_ITERATIONS : Z := 5000.
Definition MONTE_CARLO_BASE_SEED : Z := 1337.

Record MetricConfig : Type := { key : string; label : string }.

Definition FLOOD_METRICS : object MetricConfig :=
  [ ("median"%string, {| key := "median"; label := "Median (50th)" |});
    ("p95"%string, {| key := "p95"; label := "High-end (95th)" |}) ].

(** [result.stats[key]] for a string key. *)
Definition stat (stats : Simulation.StatSummary) (key : string) : value Q :=
  if String.eqb key "mean" then Simulation.mean stats
  else if String.eqb key "median" then Simulation.median stats
  else if String.eqb key "p5" then Simulation.p5 stats
  else if String.eqb key "p95" then Simulation.p95 stats
  else if String.eqb key "min" then Simulation.min stats
  else if String.eqb key "max" then Simulation.max stats
  else Undefined.

(** [getFloodLevelFromResult(result)], with the module variable
    [currentFloodMetric] as an argument.  A member inherited from
    [Object.prototype] is truthy and has no [key], and [stats[undefined]]
    is [undefined]. *)
Definition getFloodLevelFromResult (currentFloodMetric : string)
    (result : Simulation.SimulationResult) : value Q :=
  match read FLOOD_METRICS currentFloodMetric with
  | Own metricConfig => stat (Simulation.stats result) (key metricConfig)
  | Inherited _ => Undefined
  | Missing =>
      match own FLOOD_METRICS "median" with
      | Some metricConfig => stat (Simulation.stats result) (key metricConfig)
      | None => Undefined
      end
  end.

(** [(x) >>> 0] on an integer: its residue modulo 2^32. *)
Definition toUint32 (x : Z) : Z := (x mod 2 ^ 32)%Z.

Definition buildSeedForTemp (tempIncrease : Q) : Z :=
  toUint32 (MONTE_CARLO_BASE_SEED + Geoid.Math_round (tempIncrease * 1000)).

(** The simulation that the callback of [runAndVisualize] runs. *)
Definition simulate (Math : Simulation.MathLib) (tempIncrease : Q)
  : Simulation.Rand Simulation.SimulationResult :=
  Simulation.runSimulationSeeded Math tempIncrease MONTE_CARLO_ITERATIONS
    (buildSeedForTemp tempIncrease).

(** *** The shares of [updateStatsPanel] *)




(** *** The bins of [updateHistogram] *)

(** The samples are doubles here, and every operation rounds as binary64
    does: whether a sample gets a bin depends on the rounding of
    [data[0] * 100]. *)

Definition binCount : Z := 30.

(** The integer [(-1)^s * m]. *)
Definition signed (s : bool) (m : positive) : Z :=
  if s then Z.neg m else Z.pos m.

(** [Math.floor(x)]: the double [(-1)^s * m * 2^e] is an integer already
    when [e >= 0]; otherwise it is below [2^53] in magnitude, and so is
    its integer part.  Zeros, infinities and [NaN] are returned as they
    are. *)
Definition Math_floor (x : PrimFloat.float) : PrimFloat.float :=
  match FloatOps.Prim2SF x with
  | SpecFloat.S754_finite s m e =>
      if (e <? 0)%Z then Projections.floatOfZ (signed s m / 2 ^ (- e)) else x
  | _ => x
  end.

(** [Math.ceil(x)], which is [-Math.floor(-x)]. *)
Definition Math_ceil (x : PrimFloat.float) : PrimFloat.float :=
  PrimFloat.opp (Math_floor (PrimFloat.opp x)).

(** What [Math.floor] returns, read as the integer it is.  [-0] reads as
    [0]: as a property key both are ["0"]. *)
Inductive integral : Type :=
| Integer (z : Z)
| IntegerInfinity (negative : bool)
| IntegerNaN.

Definition floorOf (x : PrimFloat.float) : integral :=
  match FloatOps.Prim2SF x with
  | SpecFloat.S754_zero _ => Integer 0
  | SpecFloat.S754_infinity s => IntegerInfinity s
  | SpecFloat.S754_nan => IntegerNaN
  | SpecFloat.S754_finite s m e =>
      Integer (if (e <? 0)%Z then signed s m / 2 ^ (- e) else signed s m * 2 ^ e)
  end.

(** [Math.min(i, bound)] for an integer [bound]. *)
Definition atMost (i : integral) (bound : Z) : integral :=
  match i with
  | Integer z => Integer (Z.min z bound)
  | IntegerInfinity false => Integer bound
  | IntegerInfinity true => IntegerInfinity true
  | IntegerNaN => IntegerNaN
  end.

(** [Math.min(Math.floor((value - min) / binWidth), binCount - 1)] *)
Definition binIndex (min binWidth value : PrimFloat.float) : integral :=
  atMost (floorOf (PrimFloat.div (PrimFloat.sub value min) binWidth))
    (binCount - 1).

(** [bins[i]++] for an index inside the array. *)
Fixpoint increment (bins : list nat) (i : nat) : list nat :=
  match bins, i with
  | [], _ => []
  | count :: rest, O => S count :: rest
  | count :: rest, S i' => count :: increment rest i'
  end.

(** [bins[binIndex]++].  With [binIndex] a negative number, [NaN] or
    [-Infinity] the statement sets a property of that name on the array
    object and changes none of its elements; the index is never beyond
    [binCount - 1]. *)
Definition count (bins : list nat) (binIndex : integral) : list nat :=
  match binIndex with
  | Integer i => if (i <? 0)%Z then bins else increment bins (Z.to_nat i)
  | _ => bins
  end.

(** The left edge [min] of the histogram and the width [binWidth] of a
    bin, for a first sample [first] and a last sample [final]. *)
Definition edges (first final : PrimFloat.float)
  : PrimFloat.float * PrimFloat.float :=
  let min :=
    PrimFloat.div (Math_floor (PrimFloat.mul first (Projections.floatOfZ 100)))
      (Projections.floatOfZ 100) in
  let max :=
    PrimFloat.div (Math_ceil (PrimFloat.mul final (Projections.floatOfZ 100)))
      (Projections.floatOfZ 100) in
  let binWidth := PrimFloat.div (PrimFloat.sub max min) (Projections.floatOfZ binCount) in
  (min, binWidth).

(** The array [bins] of [updateHistogram] at the end of the loop over
    [data = result.results], which the function gets to for a result
    with a temperature other than 0.  With [data] empty, [min] and [max]
    are [NaN] and the loop body never runs. *)
Definition histogramBins (data : list PrimFloat.float) : list nat :=
  let bins := repeat 0%nat (Z.to_nat binCount) in
  match data with
  | [] => bins
  | first :: _ =>
      let (min, binWidth) := edges first (last data first) in
      fold_left (fun bins value => count bins (binIndex min binWidth value))
        data bins
  end.

(** *** The compare button *)

(** The closure variable [comparing] of [setupComparisonButton], and what
    the handlers write to the button and to [#comparisonStats] (the block
    of a delta, or the empty string, [None]). *)
Record CompareButton : Type := {
  comparing : bool;
  disabled : bool;
  textContent : string;
  active : bool;
  comparisonStats : option FloodVisualization.ComparisonDelta
}.

(** One run of the click handler of the compare button. *)
Definition compareClick (btn : CompareButton) (s : FloodVisualization.State)
  : CompareButton * FloodVisualization.State :=
  if comparing btn then
    ({| comparing := false; disabled := disabled btn;
        textContent := "Compare with Previous"; active := false;
        comparisonStats := None |},
     FloodVisualization.hideComparison s)
  else
    let (s', shown) := FloodVisualization.showComparison s in
    if shown then
      ({| comparing := true; disabled := disabled btn;
          textContent := "Hide Comparison"; active := true;
          comparisonStats :=
            match FloodVisualization.getComparisonDelta s' with
            | Some delta => Some delta
            | None => comparisonStats btn
            end |}, s')
    else (btn, s').

Definition updateCompareButton (btn : CompareButton)
    (s : FloodVisualization.State) : CompareButton :=
  {| comparing := comparing btn;
     disabled := negb (FloodVisualization.hasPreviousSnapshot s);
     textContent := "Compare with Previous"; active := false;
     comparisonStats := None |}.

(** [applySimulationResult(viewer, result, recordSnapshot)], as far as the
    flood module and the compare button go; the stats panel, the
    histogram and the info overlay it redraws in between are only
    written.  An exception of [setFloodLevel] ends the call.  A level
    that is not a number is outside what [State] holds ([None]). *)
Definition applySimulationResult (currentFloodMetric : string)
    (result : Simulation.SimulationResult) (recordSnapshot : bool) (now : Z)
    (btn : CompareButton) (s : FloodVisualization.State)
  : option (CompareButton * FloodVisualization.State * option exn) :=
  match getFloodLevelFromResult currentFloodMetric result with
  | Num floodLevelMeters =>
      let (s', thrown) :=
        FloodVisualization.setFloodLevel floodLevelMeters (Some result)
          recordSnapshot now s in
      match thrown with
      | Some e => Some (btn, s', Some e)
      | None => Some (updateCompareButton btn s', s', None)
      end
  | _ => None
  end.

End Ui.


(* ================================================================== *)
(** ** Vocabulary of the statements, and sample data *)
(* ================================================================== *)

Module Spec.
Import Js.
Local Open Scope Q_scope.

(** [floor(n * p)], the nearest-rank index of the fraction [p] in a sample
    of [n] elements. *)
Definition rank (n : nat) (p : Q) : nat :=
  Z.to_nat (Qfloor (inject_Z (Z.of_nat n) * p)).

Definition sum (l : list Q) : Q := fold_left Qplus l 0.

(** [a <= b] between two slots, both of which hold numbers. *)
Definition le (a b : value Q) : Prop :=
  match a, b with
  | Num x, Num y => x <= y
  | _, _ => False
  end.

(** Both slots hold the same number. *)
Definition same (a b : value Q) : Prop :=
  match a, b with
  | Num x, Num y => x == y
  | _, _ => False
  end.

(** JavaScript's [+] on two slots. *)
Definition plus (a b : value Q) : value Q :=
  match a, b with
  | Num x, Num y => Num (x + y)
  | _, _ => NaN
  end.

Definition ordered (s : Simulation.StatSummary) : Prop :=
  le (Simulation.min s) (Simulation.p5 s) /\
  le (Simulation.p5 s) (Simulation.median s) /\
  le (Simulation.median s) (Simulation.p95 s) /\
  le (Simulation.p95 s) (Simulation.max s).

(** The means of the per-contributor summaries, in the order of the object. *)
Definition contributorMeans (result : Simulation.SimulationResult)
  : list (value Q) :=
  map (fun e => Simulation.mean (Simulation.summary (snd e)))
      (Simulation.contributorStats result).

(** Two states of [Math.random] hand out the same next [count] draws. *)
Definition agree (s s' : Simulation.Source) (count : nat) : Prop :=
  forall i, (i < count)%nat ->
    Simulation.draws s (i + Simulation.cursor s)
    = Simulation.draws s' (i + Simulation.cursor s').

(** The source after [k] more draws. *)
Definition advance (s : Simulation.Source) (k : nat) : Simulation.Source :=
  {| Simulation.draws := Simulation.draws s;
     Simulation.cursor := k + Simulation.cursor s |}.

(** An object with the five keys of [CONTRIBUTORS], in their order. *)
Definition totals5 {V} (a1 a2 a3 a4 a5 : V) : object V :=
  [ ("thermalExpansion"%string, a1); ("glaciers"%string, a2);
    ("greenland"%string, a3); ("antarctic"%string, a4);
    ("landWater"%string, a5) ].

(** How many draws a run takes: two per contributor and iteration. *)
Definition drawsOf (tempIncrease : Q) (iterations : Z) : nat :=
  if Qle_bool tempIncrease 0 then 0%nat
  else (Z.to_nat iterations * 10)%nat.

(** The anchors of a scenario by ascending year. *)
Definition anchors (s : @Projections.Scenario Q) : list (Z * Q) :=
  sort (fun a b => Z.leb (fst a) (fst b)) (Projections.temperaturesByYear s).

(** [a] and [b] are neighbours in [l], in this order. *)
Definition adjacent {A} (l : list A) (a b : A) : Prop :=
  exists front back, l = front ++ a :: b :: back.

Definition registered : list string := ["ssp126"; "ssp245"; "ssp585"]%string.

(** The undulation the shader decodes from an encoded pixel. *)
Definition decode (p : Geoid.Pixel) : Q :=
  let t := FloodVisualization.texel p in
  (FloodVisualization.r t * (255.0 * 256.0 / 65535.0)
   + FloodVisualization.g t * (255.0 / 65535.0))
  * Geoid.GEOID_RANGE + Geoid.GEOID_MIN.

(** No entry of the array is negative. *)
Definition nonnegative (l : list Q) : Prop := Forall (fun x => 0 <= x) l.

(** The summary of an empty array: [0 / 0] and five absent elements. *)
Definition emptyStats : Simulation.StatSummary :=
  {| Simulation.mean := NaN; Simulation.median := Undefined;
     Simulation.p5 := Undefined; Simulation.p95 := Undefined;
     Simulation.min := Undefined; Simulation.max := Undefined |}.

(** The seven impact messages, from the mildest to the gravest. *)
Definition impactScale : list string :=
  [ "Minimal visible change";
    "Minor coastal flooding during storms";
    "Significant coastal erosion, regular tidal flooding";
    "Major coastal city flooding, island nations at risk";
    "Catastrophic: many coastal cities partially submerged";
    "Extreme: massive land loss, hundreds of millions displaced";
    "Civilization-altering: major population centers underwater" ]%string.

(** The place of a message on the scale (7 for a text that is not on it). *)
Fixpoint placeIn (scale : list string) (message : string) : nat :=
  match scale with
  | [] => 0%nat
  | m :: rest => if String.eqb m message then 0%nat else S (placeIn rest message)
  end.

Definition severity (message : string) : nat := placeIn impactScale message.

(** How far [year] is on the way from [y0] to [y1]. *)
Definition fraction (y0 y1 : Z) (year : Q) : Q :=
  (year - inject_Z y0) / (inject_Z y1 - inject_Z y0).

(** The warming pathway through three anchors: flat before the first and
    after the last, straight lines in between. *)
Definition pathway (ya yb yc : Z) (ta tb tc : Q) (year : Q) : Q :=
  if Qle_bool year (inject_Z ya) then ta
  else if Qle_bool (inject_Z yc) year then tc
  else if Qle_bool year (inject_Z yb)
  then ta + (tb - ta) * fraction ya yb year
  else tb + (tc - tb) * fraction yb yc year.

(** The 16-bit number a pixel carries in its red and green channels. *)
Definition code (p : Geoid.Pixel) : Z := (Geoid.R p * 256 + Geoid.G p)%Z.

(** The big-endian bytes of a signed 16-bit integer. *)
Definition int16Bytes (valueCm : Z) : list Z :=
  [ ((valueCm mod 65536) / 256)%Z; (valueCm mod 256)%Z ].

(** The uniforms of a material, whichever shader it carries. *)
Definition opacity (m : FloodVisualization.Material) : Q :=
  match m with
  | FloodVisualization.FloodGeoid u =>
      FloodVisualization.GeoidUniforms.waterAlpha u
  | FloodVisualization.FloodFallback u =>
      FloodVisualization.FallbackUniforms.waterAlpha u
  end.

Definition level (m : FloodVisualization.Material) : Q :=
  match m with
  | FloodVisualization.FloodGeoid u =>
      FloodVisualization.GeoidUniforms.seaLevelRise u
  | FloodVisualization.FloodFallback u =>
      FloodVisualization.FallbackUniforms.floodLevel u
  end.

Definition comparison (m : FloodVisualization.Material) : Q :=
  match m with
  | FloodVisualization.FloodGeoid u =>
      FloodVisualization.GeoidUniforms.comparisonSLR u
  | FloodVisualization.FloodFallback u =>
      FloodVisualization.FallbackUniforms.comparisonLevel u
  end.

Definition isGeoid (m : FloodVisualization.Material) : bool :=
  match m with
  | FloodVisualization.FloodGeoid _ => true
  | FloodVisualization.FloodFallback _ => false
  end.

(** What the two shaders have in common once a fragment is known to be
    land: the flood mask around [floodSurface], then the band between
    [floodSurface] and [compSurface].  [flooding] and [comparing] are the
    tests that guard the two steps. *)
Definition shade (waterAlpha h floodSurface : Q) (flooding comparing : bool)
    (compSurface : Q) : FloodVisualization.czm_material :=
  let material :=
    {| FloodVisualization.diffuse := (0, 0, 0);
       FloodVisualization.alpha := 0.0 |} in
  let edgeSoftness := 0.35 in
  let floodMask :=
    if flooding
    then 1.0 - FloodVisualization.smoothstep
                 (floodSurface - edgeSoftness) (floodSurface + edgeSoftness) h
    else 0.0 in
  let material :=
    if FloodVisualization.gt floodMask 0.001
    then {| FloodVisualization.diffuse := FloodVisualization.floodColor;
            FloodVisualization.alpha := waterAlpha * floodMask |}
    else material in
  if comparing then
    let lower := Qmin floodSurface compSurface in
    let upper := Qmax floodSurface compSurface in
    if FloodVisualization.ge h lower && FloodVisualization.lt h upper
    then {| FloodVisualization.diffuse := FloodVisualization.comparisonColor;
            FloodVisualization.alpha := 0.5 |}
    else material
  else material.

(** The same colour, and the same opacity as a number. *)
Definition sameMaterial (a b : FloodVisualization.czm_material) : Prop :=
  FloodVisualization.diffuse a = FloodVisualization.diffuse b
  /\ FloodVisualization.alpha a == FloodVisualization.alpha b.

(** The fragment at another height. *)
Definition atHeight (materialInput : FloodVisualization.czm_materialInput)
    (h : Q) : FloodVisualization.czm_materialInput :=
  {| FloodVisualization.waterMask := FloodVisualization.waterMask materialInput;
     FloodVisualization.height := h;
     FloodVisualization.st := FloodVisualization.st materialInput |}.

(** The uniforms of the fallback shader that carry the levels of [u]. *)
Definition fallbackOf (u : FloodVisualization.GeoidUniforms.t)
  : FloodVisualization.FallbackUniforms.t :=
  {| FloodVisualization.FallbackUniforms.floodLevel :=
       FloodVisualization.GeoidUniforms.seaLevelRise u;
     FloodVisualization.FallbackUniforms.waterAlpha :=
       FloodVisualization.GeoidUniforms.waterAlpha u;
     FloodVisualization.FallbackUniforms.comparisonLevel :=
       FloodVisualization.GeoidUniforms.comparisonSLR u |}.

(** The flood surface a material compares a fragment's height with. *)
Definition surface (m : FloodVisualization.Material)
    (materialInput : FloodVisualization.czm_materialInput) : Q :=
  match m with
  | FloodVisualization.FloodGeoid u =>
      FloodVisualization.geoidUndulation u materialInput
      + FloodVisualization.GeoidUniforms.seaLevelRise u
  | FloodVisualization.FloodFallback u =>
      FloodVisualization.FallbackUniforms.floodLevel u
  end.

(** The material of a fragment that the shaders leave alone. *)
Definition untouched : FloodVisualization.czm_material :=
  {| FloodVisualization.diffuse := (0, 0, 0);
     FloodVisualization.alpha := 0.0 |}.

(** What holds of the module's variables whatever calls were made. *)
Definition consistent (s : FloodVisualization.State) : Prop :=
  (0 <= FloodVisualization.waterAlpha s
   /\ FloodVisualization.waterAlpha s <= FloodVisualization.targetAlpha s)
  /\ (FloodVisualization.targetAlpha s = 0
      \/ FloodVisualization.targetAlpha s = 0.55)
  /\ (FloodVisualization.alphaAnimating s = true ->
      FloodVisualization.targetAlpha s = 0.55
      /\ FloodVisualization.floodMaterial s <> None)
  /\ (FloodVisualization.globeMaterial s <> FloodVisualization.NoMaterial ->
      FloodVisualization.targetAlpha s = 0.55
      /\ FloodVisualization.floodMaterial s <> None)
  /\ (FloodVisualization.floodMaterial s = None ->
      FloodVisualization.waterAlpha s = 0)
  /\ (forall m, FloodVisualization.floodMaterial s = Some m ->
        isGeoid m = FloodVisualization.useGeoidTexture s
        /\ (~ comparison m == 0 ->
            exists previous current,
              FloodVisualization.previousSnapshot s = Some previous
              /\ FloodVisualization.currentSnapshot s = Some current
              /\ comparison m = FloodVisualization.seaLevelRise previous)).

Definition isInit (c : FloodVisualization.call) : bool :=
  match c with
  | FloodVisualization.Init _ => true
  | _ => false
  end.

(** A session as [main.js] runs one: [initFloodVisualization] once, then
    the calls of the user interface and the frames of the browser. *)
Definition session (geoidCanvas : option FloodVisualization.Sampler)
    (calls : list FloodVisualization.call) : FloodVisualization.State :=
  FloodVisualization.run (FloodVisualization.Init geoidCanvas :: calls).

(** None of the calls is [initFloodVisualization]. *)
Definition withoutInit (calls : list FloodVisualization.call) : bool :=
  forallb (fun c => negb (isInit c)) calls.

(** The calls that put the comparison uniform back to zero. *)
Definition resetsComparison (c : FloodVisualization.call) : bool :=
  match c with
  | FloodVisualization.Init _ | FloodVisualization.SetFloodLevel _ _ _ _
  | FloodVisualization.ClearFlood | FloodVisualization.HideComparison => true
  | _ => false
  end.

(** The calls that assign [viewer.scene.globe.material] whenever they
    return. *)
Definition assignsGlobe (c : FloodVisualization.call) : bool :=
  match c with
  | FloodVisualization.SetFloodLevel _ _ _ _ | FloodVisualization.ClearFlood
  | FloodVisualization.Destroy => true
  | _ => false
  end.

(** How many of the calls are [initFloodVisualization]. *)
Definition inits (calls : list FloodVisualization.call) : nat :=
  List.length (filter isInit calls).

(** How many runs of [animate] are pending: the loops that are alive. *)
Definition loops (s : FloodVisualization.State) : nat :=
  List.length (FloodVisualization.frameCallbacks s).

(** The pending handles are all different, and none is beyond the last
    one the window gave out. *)
Definition freshHandles (s : FloodVisualization.State) : Prop :=
  NoDup (FloodVisualization.frameCallbacks s)
  /\ Forall (fun h => (h <= FloodVisualization.frameHandle s)%nat)
       (FloodVisualization.frameCallbacks s).

(** None of the calls is [destroyFloodVisualization]. *)
Definition withoutDestroy (calls : list FloodVisualization.call) : bool :=
  forallb
    (fun c =>
       match c with
       | FloodVisualization.Destroy => false
       | _ => true
       end)
    calls.

(** In a session the uniform [waterAlpha] follows the module variable,
    and a material attached to the globe is the one [floodMaterial] refers
    to and displays a positive level. *)
Definition synced (s : FloodVisualization.State) : Prop :=
  exists m,
    FloodVisualization.floodMaterial s = Some m
    /\ opacity m == FloodVisualization.waterAlpha s
    /\ (FloodVisualization.globeMaterial s <> FloodVisualization.NoMaterial ->
        FloodVisualization.globeMaterial s = FloodVisualization.TheFloodMaterial
        /\ 0 < level m).

(** [0.92 ^ n]: what is left of the way to the target after [n] steps of
    the fade. *)
Fixpoint decay (n : nat) : Q :=
  match n with
  | O => 1
  | S n' => decay n' * 0.92
  end.

(** The bin index that the loop of [updateHistogram] over [data] computes
    for [value]. *)
Definition binOf (data : list PrimFloat.float) (value : PrimFloat.float)
  : Ui.integral :=
  match data with
  | [] => Ui.IntegerNaN
  | first :: _ =>
      let (min, binWidth) := Ui.edges first (last data first) in
      Ui.binIndex min binWidth value
  end.

(** The sample gets a bin: its bin index is an index of the array. *)
Definition binned (data : list PrimFloat.float) (value : PrimFloat.float)
  : bool :=
  match binOf data value with
  | Ui.Integer i => (0 <=? i)%Z
  | _ => false
  end.

End Spec.

Module Sample.
Import Js.
Local Open Scope Q_scope.

(** A rational stand-in for the host's [Math]: low-order series, exact at
    [pow 1 y], [sqrt 1], [log 1] and [cos 0].  It only serves to run the
    engine on examples; every theorem about the engine holds for all
    [MathLib]. *)
Definition seriesMath : Simulation.MathLib :=
  {| Simulation.pow := fun x y => 1 + y * (x - 1);
     Simulation.sqrt := fun x => (1 + x) / 2;
     Simulation.log := fun x => (x - 1) - (x - 1) * (x - 1) / 2;
     Simulation.cos := fun x => 1 - x * x / 2;
     Simulation.PI := 355 / 113 |}.

(** Some state of [Math.random]. *)
Definition source : Simulation.Source :=
  {| Simulation.draws :=
       fun i => inject_Z (Z.of_nat ((i * 37 + 11) mod 100)) / 100;
     Simulation.cursor := 0 |}.


(** The double a decimal literal denotes. *)
Definition double (q : Q) : PrimFloat.float :=
  @Projections.lit _ Projections.Binary64 q.

(** A sampler that returns the pixel encoding a fixed undulation. *)
Definition flatCanvas (meters : Q) : FloodVisualization.Sampler :=
  fun _ _ => FloodVisualization.texel (Geoid.encode meters).

Definition landAt (h : Q) : FloodVisualization.czm_materialInput :=
  {| FloodVisualization.waterMask := 0;
     FloodVisualization.height := h;
     FloodVisualization.st := (0.5, 0.5) |}.

Definition oceanAt (h : Q) : FloodVisualization.czm_materialInput :=
  {| FloodVisualization.waterMask := 1;
     FloodVisualization.height := h;
     FloodVisualization.st := (0.5, 0.5) |}.

End Sample.

Module Tactics.
Local Open Scope Q_scope.

(** Turn the boolean tests among the hypotheses into (in)equations. *)
Ltac tests :=
  repeat match goal with
  | H : Qeq_bool _ _ = true |- _ => apply Qeq_bool_iff in H
  | H : Qeq_bool _ _ = false |- _ => apply Qeq_bool_neq in H
  | H : Qle_bool _ _ = true |- _ => apply Qle_bool_iff in H
  | H : Qle_bool ?a ?b = false |- _ =>
      assert (b < a)
        by (destruct (Qlt_le_dec b a) as [L | L];
            [exact L | apply Qle_bool_iff in L; congruence]);
      clear H
  end.

(** Decide the next comparison of the goal; drop the case the arithmetic
    rules out. *)
Ltac decide_test :=
  match goal with
  | |- context [Qeq_bool ?a ?b] => destruct (Qeq_bool a b) eqn:?
  | |- context [Qle_bool ?a ?b] => destruct (Qle_bool a b) eqn:?
  end; tests; cbn [andb]; try (exfalso; lra).

End Tactics.


(* ================================================================== *)
(** ** Sorting and summing *)
(* ================================================================== *)

Module SortFacts.
Import Js.
Local Open Scope Q_scope.

Lemma ascending_le (a b : Q) : Simulation.ascending a b = true <-> a <= b.
Proof.
  unfold Simulation.ascending. rewrite Qle_bool_iff. split; intro H; lra.
Qed.

Lemma ascending_gt (a b : Q) : Simulation.ascending a b = false -> b <= a.
Proof.
  intro H. destruct (Qlt_le_dec a b) as [Hlt | Hle]; [| exact Hle].
  assert (Simulation.ascending a b = true) by (apply ascending_le; lra).
  congruence.
Qed.

Section Generic.
Variable A : Type.
Variable before : A -> A -> bool.

Lemma insert_permutation (x : A) (l : list A) :
  Permutation (x :: l) (insert before x l).
Proof.
  induction l as [| y rest IH]; simpl.
  - apply Permutation_refl.
  - destruct (before x y).
    + apply Permutation_refl.
    + eapply perm_trans; [apply perm_swap |]. apply perm_skip. exact IH.
Qed.

Lemma sort_permutation (l : list A) : Permutation l (sort before l).
Proof.
  induction l as [| x rest IH]; simpl.
  - constructor.
  - eapply perm_trans; [| apply insert_permutation]. apply perm_skip. exact IH.
Qed.

Lemma sort_length (l : list A) : List.length (sort before l) = List.length l.
Proof. symmetry. apply Permutation_length, sort_permutation. Qed.
End Generic.

Lemma insert_sorted (x : Q) (l : list Q) :
  Sorted Qle l -> Sorted Qle (insert Simulation.ascending x l).
Proof.
  induction 1 as [| y rest Hs IH Hhd]; simpl.
  - repeat constructor.
  - destruct (Simulation.ascending x y) eqn:E.
    + constructor; [constructor; assumption |].
      constructor. now apply ascending_le.
    + constructor; [exact IH |].
      apply ascending_gt in E.
      destruct rest as [| z rest']; simpl.
      * constructor. exact E.
      * destruct (Simulation.ascending x z); constructor;
          [exact E | now inversion Hhd].
Qed.

Lemma sort_sorted (l : list Q) : Sorted Qle (sort Simulation.ascending l).
Proof.
  induction l as [| x rest IH]; simpl; [constructor | now apply insert_sorted].
Qed.

Lemma fold_plus_shift (l : list Q) (acc : Q) :
  fold_left Qplus l acc == acc + Spec.sum l.
Proof.
  unfold Spec.sum. revert acc.
  induction l as [| x rest IH]; intro acc; simpl.
  - lra.
  - rewrite IH. rewrite (IH (0 + x)). lra.
Qed.

Lemma sum_cons (x : Q) (l : list Q) : Spec.sum (x :: l) == x + Spec.sum l.
Proof. unfold Spec.sum at 1. simpl. rewrite fold_plus_shift. lra. Qed.

Lemma sum_app (l l' : list Q) : Spec.sum (l ++ l') == Spec.sum l + Spec.sum l'.
Proof.
  induction l as [| x rest IH]; simpl.
  - unfold Spec.sum at 2. simpl. lra.
  - rewrite !sum_cons, IH. lra.
Qed.

Lemma sum_permutation (l l' : list Q) :
  Permutation l l' -> Spec.sum l == Spec.sum l'.
Proof.
  induction 1 as [| x l l' _ IH | x y l | l l' l'' _ IH1 _ IH2].
  - reflexivity.
  - rewrite !sum_cons, IH. reflexivity.
  - rewrite !sum_cons. lra.
  - now rewrite IH1.
Qed.

Lemma sorted_nth_le (l : list Q) (i j : nat) (x y : Q) :
  Sorted Qle l -> (i <= j)%nat ->
  nth_error l i = Some x -> nth_error l j = Some y -> x <= y.
Proof.
  intro Hs. apply Sorted_StronglySorted in Hs;
    [| intros a b c; apply Qle_trans].
  revert i j. induction Hs as [| h rest Hs IH Hall]; intros i j Hij Hi Hj.
  - destruct i; discriminate.
  - destruct i as [| i'], j as [| j']; simpl in *.
    + injection Hi as <-. injection Hj as <-. apply Qle_refl.
    + injection Hi as <-. rewrite Forall_forall in Hall.
      apply Hall. eapply nth_error_In; eassumption.
    + lia.
    + eapply IH; [| eassumption | eassumption]. lia.
Qed.

End SortFacts.


(* ================================================================== *)
(** ** The statistics reducer *)
(* ================================================================== *)

Module StatsFacts.
Import Js.
Local Open Scope Q_scope.

(** A fraction below one never indexes past the end. *)
Lemma rank_floor_bounds (n : nat) (p : Q) :
  (1 <= n)%nat -> 0 <= p -> p < 1 ->
  (0 <= Qfloor (inject_Z (Z.of_nat n) * p) < Z.of_nat n)%Z.
Proof.
  intros Hn Hp0 Hp1.
  assert (Hpos : 0 < inject_Z (Z.of_nat n)).
  { change 0 with (inject_Z 0). rewrite <- Zlt_Qlt. lia. }
  split.
  - change 0%Z with (Qfloor 0). apply Qfloor_resp_le. nra.
  - rewrite Zlt_Qlt.
    eapply Qle_lt_trans; [apply Qfloor_le |]. nra.
Qed.

Lemma rank_monotone (n : nat) (p q : Q) :
  0 <= p -> p <= q -> (Spec.rank n p <= Spec.rank n q)%nat.
Proof.
  intros Hp Hpq. unfold Spec.rank.
  assert (Hpos : 0 <= inject_Z (Z.of_nat n)).
  { change 0 with (inject_Z 0). rewrite <- Zle_Qle. lia. }
  apply Z2Nat.inj_le.
  - change 0%Z with (Qfloor 0). apply Qfloor_resp_le. nra.
  - change 0%Z with (Qfloor 0). apply Qfloor_resp_le. nra.
  - apply Qfloor_resp_le. nra.
Qed.

Lemma rank_in_range (n : nat) (p : Q) :
  (1 <= n)%nat -> 0 <= p -> p < 1 -> (Spec.rank n p <= n - 1)%nat.
Proof.
  intros Hn Hp0 Hp1. unfold Spec.rank.
  pose proof (rank_floor_bounds Hn Hp0 Hp1). lia.
Qed.

(** A rank read is an in-range array read. *)
Lemma element_rank (sorted : list Q) (p : Q) :
  (1 <= List.length sorted)%nat -> 0 <= p -> p < 1 ->
  exists v,
    nth_error sorted (Spec.rank (List.length sorted) p) = Some v /\
    Simulation.element sorted
      (Qfloor (inject_Z (Z.of_nat (List.length sorted)) * p)) = Num v.
Proof.
  intros Hn Hp0 Hp1.
  pose proof (rank_floor_bounds Hn Hp0 Hp1) as [Hlo Hhi].
  unfold Simulation.element, index, Spec.rank.
  destruct (Z.ltb_spec (Qfloor (inject_Z (Z.of_nat (List.length sorted)) * p)) 0);
    [lia |].
  destruct (nth_error sorted
              (Z.to_nat (Qfloor (inject_Z (Z.of_nat (List.length sorted)) * p))))
    as [v |] eqn:E.
  - exists v. split; reflexivity.
  - apply nth_error_None in E. lia.
Qed.

Lemma element_at (sorted : list Q) (i : nat) :
  (i < List.length sorted)%nat ->
  exists v, nth_error sorted i = Some v /\
            Simulation.element sorted (Z.of_nat i) = Num v.
Proof.
  intro Hi. unfold Simulation.element, index.
  destruct (Z.ltb_spec (Z.of_nat i) 0); [lia |].
  rewrite Nat2Z.id.
  destruct (nth_error sorted i) as [v |] eqn:E.
  - exists v. split; reflexivity.
  - apply nth_error_None in E. lia.
Qed.

(** The ranks in closed form: integer divisions of the length. *)
Lemma rank_closed_forms (n : nat) :
  Spec.rank n 0.5 = (n / 2)%nat /\
  Spec.rank n 0.05 = (n / 20)%nat /\
  Spec.rank n 0.95 = (19 * n / 20)%nat.
Proof.
  unfold Spec.rank, Qfloor. cbv [Qmult inject_Z Qnum Qden].
  rewrite !Pos.mul_1_l. repeat split.
  - apply Nat2Z.inj.
    rewrite Nat2Z.inj_div, Z2Nat.id by (apply Z.div_pos; lia).
    change (Z.of_nat 2) with 2%Z.
    rewrite <- (Z.div_mul_cancel_r (Z.of_nat n) 2 5) by lia. reflexivity.
  - apply Nat2Z.inj.
    rewrite Nat2Z.inj_div, Z2Nat.id by (apply Z.div_pos; lia).
    change (Z.of_nat 20) with 20%Z.
    rewrite <- (Z.div_mul_cancel_r (Z.of_nat n) 20 5) by lia. reflexivity.
  - apply Nat2Z.inj.
    rewrite Nat2Z.inj_div, Nat2Z.inj_mul, Z2Nat.id by (apply Z.div_pos; lia).
    change (Z.of_nat 20) with 20%Z. change (Z.of_nat 19) with 19%Z.
    rewrite <- (Z.div_mul_cancel_r (19 * Z.of_nat n) 20 5) by lia.
    f_equal. lia.
Qed.

Lemma element_last (sorted : list Q) :
  (1 <= List.length sorted)%nat ->
  exists v, nth_error sorted (List.length sorted - 1) = Some v /\
            Simulation.element sorted (Z.of_nat (List.length sorted) - 1) = Num v.
Proof.
  intro Hn.
  destruct (@element_at sorted (List.length sorted - 1)) as [v [Hv He]]; [lia |].
  exists v. split; [exact Hv |].
  rewrite <- He. f_equal. lia.
Qed.

Lemma average_defined (total : Q) (n : nat) :
  (1 <= n)%nat ->
  Simulation.average total (Z.of_nat n) = Num (total / inject_Z (Z.of_nat n)).
Proof.
  intro Hn. unfold Simulation.average.
  destruct (Z.eqb_spec (Z.of_nat n) 0); [lia | reflexivity].
Qed.

(** The five array reads of [computeStats] on a non-empty array. *)
Lemma computeStats_reads (sorted : list Q) :
  (1 <= List.length sorted)%nat ->
  exists vmedian vp5 vp95 vmin vmax,
    (nth_error sorted (Spec.rank (List.length sorted) 0.5) = Some vmedian /\
     nth_error sorted (Spec.rank (List.length sorted) 0.05) = Some vp5 /\
     nth_error sorted (Spec.rank (List.length sorted) 0.95) = Some vp95 /\
     nth_error sorted 0 = Some vmin /\
     nth_error sorted (List.length sorted - 1) = Some vmax) /\
    (Simulation.median (Simulation.computeStats sorted) = Num vmedian /\
     Simulation.p5 (Simulation.computeStats sorted) = Num vp5 /\
     Simulation.p95 (Simulation.computeStats sorted) = Num vp95 /\
     Simulation.min (Simulation.computeStats sorted) = Num vmin /\
     Simulation.max (Simulation.computeStats sorted) = Num vmax).
Proof.
  intro Hn.
  destruct (@element_rank sorted 0.5 Hn) as [vmedian [Hmedian Emedian]]; [lra | lra |].
  destruct (@element_rank sorted 0.05 Hn) as [vp5 [Hp5 Ep5]]; [lra | lra |].
  destruct (@element_rank sorted 0.95 Hn) as [vp95 [Hp95 Ep95]]; [lra | lra |].
  destruct (@element_at sorted 0) as [vmin [Hmin Emin]]; [lia |].
  destruct (element_last sorted Hn) as [vmax [Hmax Emax]].
  exists vmedian, vp5, vp95, vmin, vmax.
  split; [repeat split; assumption |].
  unfold Simulation.computeStats. cbn [Simulation.median Simulation.p5
    Simulation.p95 Simulation.min Simulation.max].
  repeat split; assumption.
Qed.

Lemma summary_eta (s : Simulation.StatSummary) :
  s = {| Simulation.mean := Simulation.mean s;
         Simulation.median := Simulation.median s;
         Simulation.p5 := Simulation.p5 s;
         Simulation.p95 := Simulation.p95 s;
         Simulation.min := Simulation.min s;
         Simulation.max := Simulation.max s |}.
Proof. destruct s. reflexivity. Qed.

(** C3.  For a sample of [n >= 1] elements (sorted ascending by the
    caller), [computeStats] returns [mean = sum / n]; the median, p5 and
    p95 are the elements at the nearest ranks [floor(n * 0.5)],
    [floor(n * 0.05)] and [floor(n * 0.95)], so elements of the sample
    itself with no interpolation; [min] is the first and [max] the last
    element.  Every one of these reads is in range. *)
Theorem computeStats_nearest_rank (sorted : list Q) :
  (1 <= List.length sorted)%nat ->
  exists vmedian vp5 vp95 vmin vmax,
    nth_error sorted (Spec.rank (List.length sorted) 0.5) = Some vmedian /\
    nth_error sorted (Spec.rank (List.length sorted) 0.05) = Some vp5 /\
    nth_error sorted (Spec.rank (List.length sorted) 0.95) = Some vp95 /\
    nth_error sorted 0 = Some vmin /\
    nth_error sorted (List.length sorted - 1) = Some vmax /\
    Simulation.computeStats sorted =
      {| Simulation.mean :=
           Num (Spec.sum sorted / inject_Z (Z.of_nat (List.length sorted)));
         Simulation.median := Num vmedian;
         Simulation.p5 := Num vp5;
         Simulation.p95 := Num vp95;
         Simulation.min := Num vmin;
         Simulation.max := Num vmax |}.
Proof.
  intro Hn.
  destruct (computeStats_reads sorted Hn)
    as (vmedian & vp5 & vp95 & vmin & vmax
        & (Hmedian & Hp5 & Hp95 & Hmin & Hmax)
        & (Emedian & Ep5 & Ep95 & Emin & Emax)).
  exists vmedian, vp5, vp95, vmin, vmax.
  repeat (split; [assumption |]).
  rewrite (summary_eta (Simulation.computeStats sorted)).
  rewrite Emedian, Ep5, Ep95, Emin, Emax.
  f_equal. unfold Simulation.computeStats. cbn [Simulation.mean].
  apply (average_defined _ Hn).
Qed.

Lemma computeStats_nearest_rank_witness :
  exists vmedian vp5 vp95 vmin vmax,
    nth_error [1; 2; 4] (Spec.rank 3 0.5) = Some vmedian /\
    nth_error [1; 2; 4] (Spec.rank 3 0.05) = Some vp5 /\
    nth_error [1; 2; 4] (Spec.rank 3 0.95) = Some vp95 /\
    nth_error [1; 2; 4] 0 = Some vmin /\
    nth_error [1; 2; 4] 2 = Some vmax /\
    Simulation.computeStats [1; 2; 4] =
      {| Simulation.mean := Num (Spec.sum [1; 2; 4] / inject_Z 3);
         Simulation.median := Num vmedian;
         Simulation.p5 := Num vp5;
         Simulation.p95 := Num vp95;
         Simulation.min := Num vmin;
         Simulation.max := Num vmax |}.
Proof.
  apply (@computeStats_nearest_rank [1; 2; 4]). simpl. lia.
Defined.

(** Reads at increasing ranks of a sorted array come out in order. *)
Lemma ordered_of_sorted (sorted : list Q) :
  Sorted Qle sorted ->
  (1 <= List.length sorted)%nat ->
  Spec.ordered (Simulation.computeStats sorted).
Proof.
  intros Hs Hn.
  destruct (computeStats_reads sorted Hn)
    as (vmedian & vp5 & vp95 & vmin & vmax
        & (Hmedian & Hp5 & Hp95 & Hmin & Hmax)
        & (Emedian & Ep5 & Ep95 & Emin & Emax)).
  unfold Spec.ordered. rewrite Emedian, Ep5, Ep95, Emin, Emax.
  unfold Spec.le.
  assert (H5 : (Spec.rank (List.length sorted) 0.05
                <= Spec.rank (List.length sorted) 0.5)%nat)
    by (apply rank_monotone; lra).
  assert (H50 : (Spec.rank (List.length sorted) 0.5
                 <= Spec.rank (List.length sorted) 0.95)%nat)
    by (apply rank_monotone; lra).
  assert (H95 : (Spec.rank (List.length sorted) 0.95
                 <= List.length sorted - 1)%nat)
    by (apply rank_in_range; [exact Hn | lra | lra]).
  repeat split.
  - eapply (SortFacts.sorted_nth_le Hs); [| exact Hmin | exact Hp5]. lia.
  - eapply (SortFacts.sorted_nth_le Hs); [| exact Hp5 | exact Hmedian]. exact H5.
  - eapply (SortFacts.sorted_nth_le Hs); [| exact Hmedian | exact Hp95]. exact H50.
  - eapply (SortFacts.sorted_nth_le Hs); [| exact Hp95 | exact Hmax]. exact H95.
Qed.

(** C7.  The summary of a non-empty sample satisfies
    [min <= p5 <= median <= p95 <= max], all five being numbers: for every
    sample that is sorted ascending, and so for the array that
    [runSimulation] hands to [computeStats], the sample as sorted by
    [sort((a, b) => a - b)]. *)
Theorem computeStats_ordered (sample : list Q) :
  (1 <= List.length sample)%nat ->
  (Sorted Qle sample -> Spec.ordered (Simulation.computeStats sample))
  /\ Spec.ordered
       (Simulation.computeStats (sort Simulation.ascending sample)).
Proof.
  intro Hn. split.
  - intro Hs. now apply ordered_of_sorted.
  - apply ordered_of_sorted.
    + apply SortFacts.sort_sorted.
    + now rewrite SortFacts.sort_length.
Qed.

Lemma computeStats_ordered_witness :
  Spec.ordered (Simulation.computeStats [1; 2; 4])
  /\ Spec.ordered (Simulation.computeStats (sort Simulation.ascending [4; 1; 2])).
Proof.
  split.
  - refine (proj1 (@computeStats_ordered [1; 2; 4] _) _).
    + simpl. lia.
    + repeat constructor; unfold Qle; simpl; lia.
  - refine (proj2 (@computeStats_ordered [4; 1; 2] _)). simpl. lia.
Defined.

End StatsFacts.


(* ================================================================== *)
(** ** The simulation engine *)
(* ================================================================== *)

Module EngineFacts.
Import Js.
Local Open Scope Q_scope.

Section Engine.
Variable Math : Simulation.MathLib.

Lemma advance_advance (s : Simulation.Source) (j k : nat) :
  Spec.advance (Spec.advance s j) k = Spec.advance s (j + k).
Proof. unfold Spec.advance. simpl. f_equal. lia. Qed.

Lemma advance_zero (s : Simulation.Source) : Spec.advance s 0 = s.
Proof. destruct s. reflexivity. Qed.

(** One iteration: five clamped values under the keys of [CONTRIBUTORS],
    their left-to-right sum, and ten draws taken. *)
Lemma singleIteration_shape (t : Q) (s : Simulation.Source) :
  exists v1 v2 v3 v4 v5,
    Simulation.singleIteration Math t s =
      ({| Simulation.total := 0 + v1 + v2 + v3 + v4 + v5;
          Simulation.breakdown :=
            [ ("thermalExpansion"%string, v1); ("glaciers"%string, v2);
              ("greenland"%string, v3); ("antarctic"%string, v4);
              ("landWater"%string, v5) ] |},
       Spec.advance s 10).
Proof.
  unfold Simulation.singleIteration, Simulation.CONTRIBUTORS, entries.
  cbn -[Qplus Qmult Qopp Qmax Qminus Qdiv].
  unfold Simulation.ret, Spec.advance.
  do 5 eexists. reflexivity.
Qed.

Lemma pushAll_totals5 (v1 v2 v3 v4 v5 : Q) (a1 a2 a3 a4 a5 : list Q) :
  Simulation.pushAll
    [ ("thermalExpansion"%string, v1); ("glaciers"%string, v2);
      ("greenland"%string, v3); ("antarctic"%string, v4);
      ("landWater"%string, v5) ]
    (Spec.totals5 a1 a2 a3 a4 a5)
  = Spec.totals5 (a1 ++ [v1]) (a2 ++ [v2]) (a3 ++ [v3]) (a4 ++ [v4]) (a5 ++ [v5]).
Proof. reflexivity. Qed.

Lemma iterate_shape (count : nat) :
  forall (t : Q) (res a1 a2 a3 a4 a5 : list Q) (s : Simulation.Source),
  exists res' b1 b2 b3 b4 b5,
    Simulation.iterate Math count t res (Spec.totals5 a1 a2 a3 a4 a5) s =
      ((res ++ res',
        Spec.totals5 (a1 ++ b1) (a2 ++ b2) (a3 ++ b3) (a4 ++ b4) (a5 ++ b5)),
       Spec.advance s (count * 10)) /\
    (List.length res' = count /\ List.length b1 = count /\
     List.length b2 = count /\ List.length b3 = count /\
     List.length b4 = count /\ List.length b5 = count) /\
    Spec.sum res' ==
      Spec.sum b1 + Spec.sum b2 + Spec.sum b3 + Spec.sum b4 + Spec.sum b5.
Proof.
  induction count as [| count IH]; intros t res a1 a2 a3 a4 a5 s.
  - exists [], [], [], [], [], []. rewrite !app_nil_r.
    split; [| split; [repeat split | reflexivity]].
    simpl. unfold Simulation.ret. now rewrite advance_zero.
  - destruct (singleIteration_shape t s) as (v1 & v2 & v3 & v4 & v5 & Hit).
    cbn [Simulation.iterate]. unfold Simulation.bind at 1. rewrite Hit.
    cbn [Simulation.total Simulation.breakdown]. unfold entries.
    rewrite pushAll_totals5.
    destruct (IH t (res ++ [0 + v1 + v2 + v3 + v4 + v5])
                (a1 ++ [v1]) (a2 ++ [v2]) (a3 ++ [v3]) (a4 ++ [v4]) (a5 ++ [v5])
                (Spec.advance s 10))
      as (res' & b1 & b2 & b3 & b4 & b5 & Hrun & Hlen & Hsum).
    exists ((0 + v1 + v2 + v3 + v4 + v5) :: res'),
      (v1 :: b1), (v2 :: b2), (v3 :: b3), (v4 :: b4), (v5 :: b5).
    split; [| split].
    + rewrite Hrun, advance_advance, <- !app_assoc. reflexivity.
    + simpl. intuition lia.
    + rewrite !SortFacts.sum_cons, Hsum. lra.
Qed.


Lemma runSimulation_positive (t : Q) (n : Z) (s : Simulation.Source) :
  0 < t ->
  exists res b1 b2 b3 b4 b5,
    Simulation.runSimulation Math t (Some n) s =
      ({| Simulation.tempIncrease := t;
          Simulation.iterations := n;
          Simulation.results := sort Simulation.ascending res;
          Simulation.stats :=
            Simulation.computeStats (sort Simulation.ascending res);
          Simulation.contributorStats :=
            Simulation.summarize (Spec.totals5 b1 b2 b3 b4 b5) [] |},
       Spec.advance s (Z.to_nat n * 10)) /\
    (List.length res = Z.to_nat n /\ List.length b1 = Z.to_nat n /\
     List.length b2 = Z.to_nat n /\ List.length b3 = Z.to_nat n /\
     List.length b4 = Z.to_nat n /\ List.length b5 = Z.to_nat n) /\
    Spec.sum res ==
      Spec.sum b1 + Spec.sum b2 + Spec.sum b3 + Spec.sum b4 + Spec.sum b5.
Proof.
  intro Ht.
  destruct (iterate_shape (Z.to_nat n) t [] [] [] [] [] [] s)
    as (res & b1 & b2 & b3 & b4 & b5 & Hrun & Hlen & Hsum).
  exists res, b1, b2, b3, b4, b5. split; [| split; assumption].
  unfold Simulation.runSimulation.
  destruct (Qle_bool t 0) eqn:E; [apply Qle_bool_iff in E; lra |].
  change (map (fun key => (key, @nil Q)) (keys Simulation.CONTRIBUTORS))
    with (Spec.totals5 (@nil Q) [] [] [] []).
  unfold Simulation.bind. rewrite Hrun. reflexivity.
Qed.

Lemma runSimulation_degenerate (t : Q) (arg : option Z) (s : Simulation.Source) :
  t <= 0 ->
  Simulation.runSimulation Math t arg s =
    ({| Simulation.tempIncrease := 0; Simulation.iterations := 0;
        Simulation.results := []; Simulation.stats := Simulation.zeroStats;
        Simulation.contributorStats := [] |}, s).
Proof.
  intro Ht. unfold Simulation.runSimulation.
  destruct (Qle_bool t 0) eqn:E; [reflexivity |].
  apply Qle_bool_iff in Ht. congruence.
Qed.

Lemma sorted_mean (values : list Q) (count : nat) :
  List.length values = count -> (1 <= count)%nat ->
  exists m,
    Simulation.mean (Simulation.computeStats (sort Simulation.ascending values))
      = Num m /\
    m == Spec.sum values / inject_Z (Z.of_nat count).
Proof.
  intros Hlen Hcount.
  exists (Spec.sum (sort Simulation.ascending values)
          / inject_Z (Z.of_nat (List.length (sort Simulation.ascending values)))).
  split.
  - unfold Simulation.computeStats. cbn [Simulation.mean].
    apply StatsFacts.average_defined. rewrite SortFacts.sort_length. lia.
  - rewrite SortFacts.sort_length, Hlen.
    rewrite <- (SortFacts.sum_permutation (SortFacts.sort_permutation _ values)).
    reflexivity.
Qed.

Lemma summarize_totals5 (b1 b2 b3 b4 b5 : list Q) :
  Simulation.summarize (Spec.totals5 b1 b2 b3 b4 b5) [] =
    Spec.totals5
      {| Simulation.contributor := "Thermal Expansion";
         Simulation.summary :=
           Simulation.computeStats (sort Simulation.ascending b1) |}
      {| Simulation.contributor := "Mountain Glaciers";
         Simulation.summary :=
           Simulation.computeStats (sort Simulation.ascending b2) |}
      {| Simulation.contributor := "Greenland Ice Sheet";
         Simulation.summary :=
           Simulation.computeStats (sort Simulation.ascending b3) |}
      {| Simulation.contributor := "Antarctic Ice Sheet";
         Simulation.summary :=
           Simulation.computeStats (sort Simulation.ascending b4) |}
      {| Simulation.contributor := "Land Water Storage";
         Simulation.summary :=
           Simulation.computeStats (sort Simulation.ascending b5) |}.
Proof. reflexivity. Qed.

(** The run is a function of the draws it takes. *)
Lemma agree_advance (s s' : Simulation.Source) (j k : nat) :
  Spec.agree s s' (j + k) -> Spec.agree (Spec.advance s j) (Spec.advance s' j) k.
Proof.
  intros H i Hi. unfold Spec.advance. cbn [Simulation.draws Simulation.cursor].
  rewrite !Nat.add_assoc. apply H. lia.
Qed.

Lemma singleIteration_local (t : Q) (s s' : Simulation.Source) :
  Spec.agree s s' 10 ->
  fst (Simulation.singleIteration Math t s)
  = fst (Simulation.singleIteration Math t s').
Proof.
  intro H.
  pose proof (H 0%nat ltac:(lia)) as H0. pose proof (H 1%nat ltac:(lia)) as H1.
  pose proof (H 2%nat ltac:(lia)) as H2. pose proof (H 3%nat ltac:(lia)) as H3.
  pose proof (H 4%nat ltac:(lia)) as H4. pose proof (H 5%nat ltac:(lia)) as H5.
  pose proof (H 6%nat ltac:(lia)) as H6. pose proof (H 7%nat ltac:(lia)) as H7.
  pose proof (H 8%nat ltac:(lia)) as H8. pose proof (H 9%nat ltac:(lia)) as H9.
  cbn [Init.Nat.add] in *.
  unfold Simulation.singleIteration, Simulation.CONTRIBUTORS, entries.
  cbn -[Qplus Qmult Qopp Qmax Qminus Qdiv].
  unfold Simulation.ret. cbn [fst].
  now rewrite H0, H1, H2, H3, H4, H5, H6, H7, H8, H9.
Qed.

Lemma singleIteration_source (t : Q) (s : Simulation.Source) :
  snd (Simulation.singleIteration Math t s) = Spec.advance s 10.
Proof.
  destruct (singleIteration_shape t s) as (v1 & v2 & v3 & v4 & v5 & H).
  now rewrite H.
Qed.

Lemma iterate_local (count : nat) :
  forall (t : Q) (res : list Q) (totals : object (list Q))
         (s s' : Simulation.Source),
    Spec.agree s s' (count * 10) ->
    fst (Simulation.iterate Math count t res totals s)
    = fst (Simulation.iterate Math count t res totals s').
Proof.
  induction count as [| count IH]; intros t res totals s s' H.
  - reflexivity.
  - cbn [Simulation.iterate]. unfold Simulation.bind.
    assert (H10 : Spec.agree s s' 10) by (intros i Hi; apply H; lia).
    pose proof (singleIteration_local t H10) as E.
    pose proof (singleIteration_source t s) as Es.
    pose proof (singleIteration_source t s') as Es'.
    destruct (Simulation.singleIteration Math t s) as [it s1].
    destruct (Simulation.singleIteration Math t s') as [it' s1'].
    cbn [fst snd] in *. subst. apply IH.
    apply agree_advance. exact H.
Qed.

Lemma runSimulation_local (t : Q) (arg : option Z) (s s' : Simulation.Source) :
  Spec.agree s s'
    (Spec.drawsOf t (match arg with Some n => n | None => 1000%Z end)) ->
  fst (Simulation.runSimulation Math t arg s)
  = fst (Simulation.runSimulation Math t arg s').
Proof.
  unfold Spec.drawsOf, Simulation.runSimulation.
  destruct (Qle_bool t 0); [reflexivity |].
  intro H. unfold Simulation.bind.
  pose proof (@iterate_local _ t []
     (map (fun key => (key, @nil Q)) (keys Simulation.CONTRIBUTORS)) s s' H) as E.
  destruct (Simulation.iterate Math _ t [] _ s) as [rc s1].
  destruct (Simulation.iterate Math _ t [] _ s') as [rc' s1'].
  cbn [fst] in E. subst. reflexivity.
Qed.
(** Every summary of a sampling run is ordered. *)
Lemma runSimulation_summaries_ordered (t : Q) (n : Z) (s : Simulation.Source) :
  0 < t -> (1 <= n)%Z ->
  Spec.ordered
    (Simulation.stats (fst (Simulation.runSimulation Math t (Some n) s)))
  /\ Forall (fun e => Spec.ordered (Simulation.summary (snd e)))
       (Simulation.contributorStats
          (fst (Simulation.runSimulation Math t (Some n) s))).
Proof.
  intros Ht Hn.
  destruct (runSimulation_positive n s Ht)
    as (res & b1 & b2 & b3 & b4 & b5 & Hrun
        & (Lres & L1 & L2 & L3 & L4 & L5) & _).
  rewrite Hrun. cbn [fst Simulation.contributorStats Simulation.stats].
  rewrite summarize_totals5.
  assert (H : forall values, List.length values = Z.to_nat n ->
            Spec.ordered
              (Simulation.computeStats (sort Simulation.ascending values))).
  { intros values Hlen. apply StatsFacts.ordered_of_sorted.
    - apply SortFacts.sort_sorted.
    - rewrite SortFacts.sort_length. lia. }
  split; [now apply H |].
  unfold Spec.totals5. repeat constructor; cbn [snd Simulation.summary]; now apply H.
Qed.

(** C2, as the code has it.  For [tempIncrease <= 0], whatever the
    iteration count (given or defaulted) and whatever seed is passed along,
    [runSimulation] returns [tempIncrease = 0], [iterations = 0], no
    results, an all-zero summary of the total and an EMPTY
    [contributorStats] object, and leaves [Math.random] untouched. *)
Theorem runSimulation_nonpositive (t : Q) (arg : option Z) (n seed : Z)
    (s : Simulation.Source) :
  t <= 0 ->
  Simulation.runSimulation Math t arg s =
    ({| Simulation.tempIncrease := 0; Simulation.iterations := 0;
        Simulation.results := [];
        Simulation.stats :=
          {| Simulation.mean := Num 0; Simulation.median := Num 0;
             Simulation.p5 := Num 0; Simulation.p95 := Num 0;
             Simulation.min := Num 0; Simulation.max := Num 0 |};
        Simulation.contributorStats := [] |}, s)
  /\ Simulation.runSimulationSeeded Math t n seed s
     = Simulation.runSimulation Math t arg s.
Proof.
  intro Ht. split.
  - now rewrite runSimulation_degenerate.
  - unfold Simulation.runSimulationSeeded.
    now rewrite !runSimulation_degenerate.
Qed.

(** C1, what the code does instead.  The seed of a call is never read:
    any two seeds give the same run.  The result is a function of the
    draws the run takes from [Math.random], ten per iteration: two states
    of the generator that hand out the same draws give the same result.
    Every run moves the generator on by that many draws, so the next call
    with the same seed reads the draws that follow. *)
Theorem runSimulation_reads_ambient_source (t : Q) (n seed seed' : Z)
    (s : Simulation.Source) :
  Simulation.runSimulationSeeded Math t n seed s
  = Simulation.runSimulationSeeded Math t n seed' s
  /\ (forall s', Spec.agree s s' (Spec.drawsOf t n) ->
        fst (Simulation.runSimulationSeeded Math t n seed s)
        = fst (Simulation.runSimulationSeeded Math t n seed s'))
  /\ snd (Simulation.runSimulationSeeded Math t n seed s)
     = Spec.advance s (Spec.drawsOf t n).
Proof.
  split; [reflexivity |].
  split; [intros s' H; now apply (@runSimulation_local t (Some n)) |].
  unfold Simulation.runSimulationSeeded, Spec.drawsOf.
  destruct (Qle_bool t 0) eqn:E.
  - rewrite runSimulation_degenerate by (now apply Qle_bool_iff).
    simpl. now rewrite advance_zero.
  - assert (Ht : 0 < t).
    { destruct (Qlt_le_dec 0 t) as [H | H]; [exact H |].
      apply Qle_bool_iff in H. congruence. }
    destruct (runSimulation_positive n s Ht)
      as (res & b1 & b2 & b3 & b4 & b5 & Hrun & _).
    now rewrite Hrun.
Qed.

Lemma runSimulation_default (t : Q) (s : Simulation.Source) :
  Simulation.runSimulation Math t None s
  = Simulation.runSimulation Math t (Some 1000%Z) s.
Proof. reflexivity. Qed.

(** A run that reports at least one iteration has sampled. *)
Lemma iterations_positive (t : Q) (arg : option Z) (s : Simulation.Source) :
  (1 <= Simulation.iterations (fst (Simulation.runSimulation Math t arg s)))%Z ->
  0 < t /\
  exists n, (1 <= n)%Z /\
    Simulation.runSimulation Math t arg s
    = Simulation.runSimulation Math t (Some n) s.
Proof.
  intro H.
  destruct (Qlt_le_dec 0 t) as [Ht | Ht].
  - split; [exact Ht |].
    exists (match arg with Some n => n | None => 1000%Z end).
    destruct arg as [n |]; [| split; [lia | apply runSimulation_default]].
    split; [| reflexivity].
    destruct (runSimulation_positive n s Ht) as (? & ? & ? & ? & ? & ? & Hrun & _).
    now rewrite Hrun in H.
  - rewrite runSimulation_degenerate in H by exact Ht. simpl in H. lia.
Qed.

(** C8.  For every run that reports [iterations >= 1], the summaries in
    [contributorStats] are those of the five contributors, and their means
    add up (with JavaScript's [+], left to right from 0) to the mean of
    the totals: both sides are numbers, equal as rationals. *)
Theorem contributor_means_add_up (t : Q) (arg : option Z)
    (s : Simulation.Source) :
  (1 <= Simulation.iterations (fst (Simulation.runSimulation Math t arg s)))%Z ->
  keys (Simulation.contributorStats
          (fst (Simulation.runSimulation Math t arg s)))
    = keys Simulation.CONTRIBUTORS
  /\ Spec.same
       (fold_left Spec.plus
          (Spec.contributorMeans
             (fst (Simulation.runSimulation Math t arg s)))
          (Num 0))
       (Simulation.mean
          (Simulation.stats (fst (Simulation.runSimulation Math t arg s)))).
Proof.
  intro Hit.
  destruct (iterations_positive t arg s Hit) as (Ht & n & Hn & ->).
  destruct (runSimulation_positive n s Ht)
    as (res & b1 & b2 & b3 & b4 & b5 & Hrun
        & (Lres & L1 & L2 & L3 & L4 & L5) & Hsum).
  rewrite Hrun. cbn [fst Simulation.contributorStats Simulation.stats].
  rewrite summarize_totals5. split; [reflexivity |].
  assert (Hc : (1 <= Z.to_nat n)%nat) by lia.
  destruct (@sorted_mean res _ Lres Hc) as (m & Em & Hm).
  destruct (@sorted_mean b1 _ L1 Hc) as (m1 & E1 & H1).
  destruct (@sorted_mean b2 _ L2 Hc) as (m2 & E2 & H2).
  destruct (@sorted_mean b3 _ L3 Hc) as (m3 & E3 & H3).
  destruct (@sorted_mean b4 _ L4 Hc) as (m4 & E4 & H4).
  destruct (@sorted_mean b5 _ L5 Hc) as (m5 & E5 & H5).
  unfold Spec.contributorMeans, Spec.totals5.
  cbn [map snd Simulation.contributorStats Simulation.summary].
  rewrite Em, E1, E2, E3, E4, E5.
  cbn [fold_left Spec.plus Spec.same].
  rewrite Hm, H1, H2, H3, H4, H5, Hsum.
  unfold Qdiv. ring.
Qed.

End Engine.

Lemma runSimulation_nonpositive_witness :
  Simulation.runSimulation Sample.seriesMath 0 None Sample.source =
    ({| Simulation.tempIncrease := 0; Simulation.iterations := 0;
        Simulation.results := [];
        Simulation.stats :=
          {| Simulation.mean := Num 0; Simulation.median := Num 0;
             Simulation.p5 := Num 0; Simulation.p95 := Num 0;
             Simulation.min := Num 0; Simulation.max := Num 0 |};
        Simulation.contributorStats := [] |}, Sample.source)
  /\ Simulation.runSimulationSeeded Sample.seriesMath 0 5000 1337 Sample.source
     = Simulation.runSimulation Sample.seriesMath 0 None Sample.source.
Proof.
  apply (@runSimulation_nonpositive Sample.seriesMath 0 None 5000 1337 Sample.source).
  unfold Qle. simpl. lia.
Defined.

(** C2, as stated, fails: at [tempIncrease = 0] no contributor has a
    summary, all-zero or other; [contributorStats] is [{}]. *)
Lemma runSimulation_zero_has_no_contributor_summary :
  map (own (Simulation.contributorStats
              (fst (Simulation.runSimulationSeeded Sample.seriesMath 0 5000 1337
                      Sample.source))))
      (keys Simulation.CONTRIBUTORS)
  = [None; None; None; None; None].
Proof. vm_compute. reflexivity. Qed.

Lemma contributor_means_add_up_witness :
  keys (Simulation.contributorStats
          (fst (Simulation.runSimulation Sample.seriesMath 2 (Some 3%Z)
                  Sample.source)))
    = keys Simulation.CONTRIBUTORS
  /\ Spec.same
       (fold_left Spec.plus
          (Spec.contributorMeans
             (fst (Simulation.runSimulation Sample.seriesMath 2 (Some 3%Z)
                     Sample.source)))
          (Num 0))
       (Simulation.mean
          (Simulation.stats
             (fst (Simulation.runSimulation Sample.seriesMath 2 (Some 3%Z)
                     Sample.source)))).
Proof.
  apply (@contributor_means_add_up Sample.seriesMath 2 (Some 3%Z) Sample.source).
  vm_compute. discriminate.
Defined.

(** Two calls in a row with the same temperature, count and seed, on the
    stand-in [Math]: the sorted totals differ. *)
Example runSimulation_same_seed_twice :
  let first := Simulation.runSimulationSeeded Sample.seriesMath 1 1 1337 Sample.source in
  let second := Simulation.runSimulationSeeded Sample.seriesMath 1 1 1337 (snd first) in
  Simulation.cursor (snd first) = 10%nat /\
  Simulation.cursor (snd second) = 20%nat /\
  match Simulation.results (fst first), Simulation.results (fst second) with
  | [x], [y] => Qeq_bool x y
  | _, _ => true
  end = false.
Proof. vm_compute. repeat split. Qed.

End EngineFacts.


(* ================================================================== *)
(** ** The scenario resolver *)
(* ================================================================== *)

Module ResolverFacts.
Import Js Projections Tactics.
Local Open Scope Q_scope.

Lemma inject_Z_lt (a b : Z) : (a < b)%Z -> inject_Z a < inject_Z b.
Proof. intro H. now rewrite <- Zlt_Qlt. Qed.

Section ThreeAnchors.
Variables (ya yb yc : Z) (ta tb tc : Q).
Hypothesis Hab : (ya < yb)%Z.
Hypothesis Hbc : (yb < yc)%Z.

Local Abbreviation table := [(ya, ta); (yb, tb); (yc, tc)] (only parsing).

Lemma years_three :
  sort (@leb Q Exact) (map (fun kv => @Number Q Exact (fst kv)) table)
  = [inject_Z ya; inject_Z yb; inject_Z yc].
Proof.
  pose proof (inject_Z_lt Hab). pose proof (inject_Z_lt Hbc).
  cbv [sort map fold_right insert fst Number lit leb Exact].
  repeat decide_test. reflexivity.
Qed.

Variables (id : string) (s : @Scenario Q).
Hypothesis Hown : own (@SCENARIO_DATA Q Exact) id = Some s.
Hypothesis Htable : temperaturesByYear s = table.

Lemma resolve_three (year : Q) :
  @getProjectedTemp Q Exact id year =
    Return
      (match at_year table year with
       | Num t => Num t
       | _ =>
           if Qle_bool year (inject_Z ya) then Num ta
           else if Qle_bool (inject_Z yc) year then Num tc
           else if Qle_bool (inject_Z ya) year && Qle_bool year (inject_Z yb)
           then Num (ta + (tb - ta) * ((year - inject_Z ya) / (inject_Z yb - inject_Z ya)))
           else if Qle_bool (inject_Z yb) year && Qle_bool year (inject_Z yc)
           then Num (tb + (tc - tb) * ((year - inject_Z yb) / (inject_Z yc - inject_Z yb)))
           else Num ta
       end).
Proof.
  pose proof (inject_Z_lt Hab). pose proof (inject_Z_lt Hbc).
  unfold getProjectedTemp, getScenarioById, read.
  rewrite Hown, Htable, years_three.
  destruct (at_year table year) eqn:E; try reflexivity.
  all: cbv [index Z.ltb Z.compare nth_error Z.to_nat List.length Z.of_nat
            Pos.of_succ_nat Pos.succ Z.sub Z.add Z.opp Z.pos_sub
            Z.succ_double Z.pred_double Z.double Pos.pred_double
            Pos.to_nat Pos.iter_op Init.Nat.add].
  all: cbv [at_element interpolate at_year Number lit leb eqb add sub mul div lift2 Exact].
  all: rewrite !Qeq_bool_refl.
  all: repeat decide_test; try reflexivity.
Qed.


Lemma anchors_three : Spec.anchors s = table.
Proof.
  unfold Spec.anchors. rewrite Htable.
  cbv [sort fold_right insert fst].
  destruct (Z.leb_spec yb yc); [| lia].
  destruct (Z.leb_spec ya yb); [| lia].
  reflexivity.
Qed.

Lemma at_year_three (year : Q) :
  (year == inject_Z ya -> at_year table year = Num ta) /\
  (year == inject_Z yb -> at_year table year = Num tb) /\
  (year == inject_Z yc -> at_year table year = Num tc) /\
  (~ year == inject_Z ya -> ~ year == inject_Z yb -> ~ year == inject_Z yc ->
   at_year table year = Undefined).
Proof.
  pose proof (inject_Z_lt Hab). pose proof (inject_Z_lt Hbc).
  cbv [at_year Number lit eqb Exact].
  repeat split; intros; repeat decide_test; try reflexivity;
    exfalso; intuition lra.
Qed.

Lemma three_anchor_resolution (year : Q) :
  (forall y t, In (y, t) (Spec.anchors s) -> year == inject_Z y ->
     @getProjectedTemp Q Exact id year = Return (Num t))
  /\ (forall y t, hd_error (Spec.anchors s) = Some (y, t) -> year < inject_Z y ->
     @getProjectedTemp Q Exact id year = Return (Num t))
  /\ (forall front y t, Spec.anchors s = front ++ [(y, t)] -> inject_Z y < year ->
     @getProjectedTemp Q Exact id year = Return (Num t))
  /\ (forall y0 t0 y1 t1,
        Spec.adjacent (Spec.anchors s) (y0, t0) (y1, t1) ->
        inject_Z y0 < year -> year < inject_Z y1 ->
        exists v,
          @getProjectedTemp Q Exact id year = Return (Num v) /\
          v == t0 + (t1 - t0) * (year - inject_Z y0) / (inject_Z y1 - inject_Z y0)).
Proof.
  pose proof (inject_Z_lt Hab) as Qab. pose proof (inject_Z_lt Hbc) as Qbc.
  destruct (at_year_three year) as (Ea & Eb & Ec & En).
  rewrite anchors_three, (resolve_three year).
  repeat split.
  - intros y t [E | [E | [E | []]]] Hy; injection E as <- <-.
    + now rewrite (Ea Hy).
    + now rewrite (Eb Hy).
    + now rewrite (Ec Hy).
  - intros y t E Hy. injection E as <- <-.
    rewrite En by lra. repeat decide_test. reflexivity.
  - intros front y t E Hy.
    assert (E' : (y, t) = (yc, tc)).
    { destruct front as [| p1 [| p2 [| p3 [| p4 front]]]];
        cbn in E; try discriminate;
        injection E; intros; subst; try reflexivity;
        match goal with H : [] = _ ++ _ |- _ => destruct front; discriminate H
                      | _ => idtac end. }
    injection E' as -> ->.
    rewrite En by lra. repeat decide_test. reflexivity.
  - intros y0 t0 y1 t1 (front & back & E) Hlo Hhi.
    assert (E' : (y0, t0, (y1, t1)) = (ya, ta, (yb, tb))
                 \/ (y0, t0, (y1, t1)) = (yb, tb, (yc, tc))).
    { destruct front as [| p1 [| p2 [| p3 front]]]; cbn in E;
        injection E; intros; subst; auto;
        try discriminate;
        match goal with H : [] = _ ++ _ :: _ |- _ => destruct front; discriminate H end. }
    destruct E' as [E' | E']; injection E' as -> -> -> ->.
    + rewrite En by lra. repeat decide_test.
      eexists. split; [reflexivity |]. field. lra.
    + rewrite En by lra. repeat decide_test.
      eexists. split; [reflexivity |]. field. lra.
Qed.


Lemma three_anchor_number (year : Q) :
  exists v, @getProjectedTemp Q Exact id year = Return (Num v).
Proof.
  rewrite (resolve_three year).
  destruct (at_year table year); [eexists; reflexivity | |];
    repeat match goal with
           | |- context [if ?c then _ else _] => destruct c
           end; eexists; reflexivity.
Qed.

End ThreeAnchors.

(** The registered scenarios all have the anchors 2030 < 2050 < 2100. *)
Lemma registered_scenario (id : string) (s : @Scenario Q) :
  own (@SCENARIO_DATA Q Exact) id = Some s ->
  In id Spec.registered /\
  exists ta tb tc,
    temperaturesByYear s = [(2030%Z, ta); (2050%Z, tb); (2100%Z, tc)].
Proof.
  unfold SCENARIO_DATA, Spec.registered. cbn [own].
  destruct (String.eqb_spec "ssp126" id) as [<- |];
    [intro E; injection E as <-; split; [simpl; tauto | do 3 eexists; reflexivity] |].
  destruct (String.eqb_spec "ssp245" id) as [<- |];
    [intro E; injection E as <-; split; [simpl; tauto | do 3 eexists; reflexivity] |].
  destruct (String.eqb_spec "ssp585" id) as [<- |];
    [intro E; injection E as <-; split; [simpl; tauto | do 3 eexists; reflexivity] |].
  discriminate.
Qed.

Lemma registered_own (id : string) :
  In id Spec.registered -> exists s, own (@SCENARIO_DATA Q Exact) id = Some s.
Proof.
  intros [<- | [<- | [<- | []]]]; eexists; reflexivity.
Qed.

(** Over exact rationals, the call throws exactly for the ids that are not
    registered, and returns a number for every registered id and year. *)
Lemma getProjectedTemp_throws_iff (id : string) (year : Q) :
  (exists e, @getProjectedTemp Q Exact id year = Throw e)
  <-> ~ In id Spec.registered.
Proof.
  split.
  - intros [e He] Hin.
    destruct (@registered_own _ Hin) as [s Hs].
    destruct (@registered_scenario _ _ Hs) as (_ & ta & tb & tc & Ht).
    destruct (@three_anchor_number 2030 2050 2100 ta tb tc
                ltac:(lia) ltac:(lia) id s Hs Ht year) as [v Hv].
    congruence.
  - intro Hout. unfold getProjectedTemp, getScenarioById, read.
    destruct (own SCENARIO_DATA id) as [s |] eqn:E.
    + exfalso. apply Hout. now destruct (@registered_scenario _ _ E).
    + destruct (existsb (String.eqb id) Object_prototype); eexists; reflexivity.
Qed.

(** An id that is neither registered nor a member of [Object.prototype]
    gets the error of the guard. *)
Lemma getProjectedTemp_unknown (id : string) (year : Q) :
  ~ In id Spec.registered -> ~ In id Object_prototype ->
  @getProjectedTemp Q Exact id year =
    Throw (Error (String.append "Unknown scenario id: " id)).
Proof.
  intros Hout Hproto. unfold getProjectedTemp, getScenarioById, read.
  destruct (own SCENARIO_DATA id) as [s |] eqn:E.
  - exfalso. apply Hout. now destruct (@registered_scenario _ _ E).
  - destruct (existsb (String.eqb id) Object_prototype) eqn:X; [| reflexivity].
    exfalso. apply Hproto. apply existsb_exists in X.
    destruct X as (k & Hk & Ek). apply String.eqb_eq in Ek. now subst.
Qed.

(** C4.  For a registered scenario: a year equal to an anchor year
    returns that anchor's temperature as stored; a year before the
    earliest (after the latest) anchor returns the earliest (latest)
    anchor's temperature; a year strictly between neighbouring anchors
    [y0 < y1] returns [t0 + (t1 - t0) * (year - y0) / (y1 - y0)].  For
    ssp245 the years 2050, 2040 and 2200 give 2.2, 1.9 and 2.9.  All of
    this is over exact rationals.  In binary64 the code returns the
    doubles of the literals 2.2 and 2.9 for 2050 and 2200, and for 2040,
    bit for bit, the double that the expression
    [1.6 + (2.2 - 1.6) * (10 / 20)] evaluates to. *)
Theorem getProjectedTemp_resolution (id : string) (s : @Scenario Q) (year : Q) :
  own (@SCENARIO_DATA Q Exact) id = Some s ->
  ((forall y t, In (y, t) (Spec.anchors s) -> year == inject_Z y ->
      @getProjectedTemp Q Exact id year = Return (Num t))
   /\ (forall y t, hd_error (Spec.anchors s) = Some (y, t) -> year < inject_Z y ->
      @getProjectedTemp Q Exact id year = Return (Num t))
   /\ (forall front y t, Spec.anchors s = front ++ [(y, t)] -> inject_Z y < year ->
      @getProjectedTemp Q Exact id year = Return (Num t))
   /\ (forall y0 t0 y1 t1,
         Spec.adjacent (Spec.anchors s) (y0, t0) (y1, t1) ->
         inject_Z y0 < year -> year < inject_Z y1 ->
         exists v,
           @getProjectedTemp Q Exact id year = Return (Num v) /\
           v == t0 + (t1 - t0) * (year - inject_Z y0) / (inject_Z y1 - inject_Z y0)))
  /\ (@getProjectedTemp Q Exact "ssp245" 2050 = Return (Num 2.2)
      /\ (exists v, @getProjectedTemp Q Exact "ssp245" 2040 = Return (Num v)
                    /\ v == 1.9)
      /\ @getProjectedTemp Q Exact "ssp245" 2200 = Return (Num 2.9))
  /\ (@getProjectedTemp _ Binary64 "ssp245" (lit 2050) = Return (Num (lit 2.2))
      /\ @getProjectedTemp _ Binary64 "ssp245" (lit 2040)
         = Return
             (Num (@add _ Binary64 (lit 1.6)
                     (@mul _ Binary64
                        (@sub _ Binary64 (lit 2.2) (lit 1.6))
                        (@div _ Binary64 (lit 10) (lit 20)))))
      /\ @getProjectedTemp _ Binary64 "ssp245" (lit 2200) = Return (Num (lit 2.9))).
Proof.
  intro Hown.
  destruct (@registered_scenario _ _ Hown) as (_ & ta & tb & tc & Ht).
  split; [| split].
  - apply (@three_anchor_resolution 2030 2050 2100 ta tb tc
             ltac:(lia) ltac:(lia) id s Hown Ht year).
  - repeat split.
    exists (38000 # 20000). split; reflexivity.
  - repeat split; vm_compute; reflexivity.
Qed.

Lemma getProjectedTemp_resolution_witness :
  exists v,
    @getProjectedTemp Q Exact "ssp245" 2040 = Return (Num v) /\
    v == 1.6 + (2.2 - 1.6) * (2040 - inject_Z 2030) / (inject_Z 2050 - inject_Z 2030).
Proof.
  refine (proj2 (proj2 (proj2 (proj1
            (@getProjectedTemp_resolution "ssp245" _ 2040 eq_refl))))
          2030%Z 1.6 2050%Z 2.2 _ _ _).
  - exists [], [(2100%Z, 2.9)]. reflexivity.
  - reflexivity.
  - reflexivity.
Defined.

(** C9, at the failing input.  An id that names a member of
    [Object.prototype] passes the guard [if (!scenario)] and the call dies
    with a [TypeError] in [Object.keys], not with the error of the guard,
    whatever the arithmetic and the year; an id that names nothing gets
    the guard's error. *)
Theorem getProjectedTemp_inherited_member (num : Type) (arith : Arith num)
    (year : num) :
  @getProjectedTemp num arith "constructor" year
    = Throw (TypeError "Cannot convert undefined or null to object")
  /\ @getProjectedTemp num arith "toString" year
    = Throw (TypeError "Cannot convert undefined or null to object")
  /\ @getProjectedTemp num arith "__proto__" year
    = Throw (TypeError "Cannot convert undefined or null to object")
  /\ @getProjectedTemp num arith "unknown" year
    = Throw (Error "Unknown scenario id: unknown").
Proof. repeat split. Qed.

End ResolverFacts.


(* ================================================================== *)
(** ** The geoid texture *)
(* ================================================================== *)

Module GeoidFacts.
Local Open Scope Q_scope.

(** [Math.round] is within a half of its argument. *)
Lemma Math_round_near (x : Q) :
  x - 0.5 <= inject_Z (Geoid.Math_round x) /\ inject_Z (Geoid.Math_round x) <= x + 0.5.
Proof.
  unfold Geoid.Math_round. split.
  - pose proof (Qlt_floor (x + 0.5)) as H.
    rewrite inject_Z_plus in H. change (inject_Z 1) with 1 in H. lra.
  - apply Qfloor_le.
Qed.

Lemma Math_round_range (x : Q) (n : Z) :
  0 <= x -> x <= inject_Z n -> (0 <= Geoid.Math_round x <= n)%Z.
Proof.
  intros H0 Hn. unfold Geoid.Math_round. split.
  - change 0%Z with (Qfloor 0). apply Qfloor_resp_le. lra.
  - assert (H : (Qfloor (x + 0.5) < n + 1)%Z); [| lia].
    rewrite Zlt_Qlt. eapply Qle_lt_trans; [apply Qfloor_le |].
    rewrite inject_Z_plus. change (inject_Z 1) with 1. lra.
Qed.

(** The two bytes are the base-256 digits of a 16-bit value. *)
Lemma bytes_of_word (e : Z) :
  (0 <= e <= 65535)%Z ->
  (0 <= Z.land (Z.shiftr e 8) 255 <= 255 /\ 0 <= Z.land e 255 <= 255 /\
   Z.land (Z.shiftr e 8) 255 * 256 + Z.land e 255 = e)%Z.
Proof.
  intro He.
  replace (Z.land (Z.shiftr e 8) 255) with (e / 256)%Z.
  2:{ change 255%Z with (Z.ones 8).
      rewrite Z.land_ones, Z.shiftr_div_pow2 by (vm_compute; discriminate).
      change (2 ^ 8)%Z with 256%Z. symmetry. apply Z.mod_small.
      split; [apply Z.div_pos; lia | apply Z.div_lt_upper_bound; lia]. }
  replace (Z.land e 255) with (e mod 256)%Z.
  2:{ change 255%Z with (Z.ones 8).
      rewrite Z.land_ones by (vm_compute; discriminate). reflexivity. }
  pose proof (Z.mod_pos_bound e 256 ltac:(lia)).
  pose proof (Z.div_mod e 256 ltac:(lia)).
  assert (0 <= e / 256 < 256)%Z
    by (split; [apply Z.div_pos; lia | apply Z.div_lt_upper_bound; lia]).
  lia.
Qed.

Lemma clamp_unit (x : Q) : 0 <= x -> x <= 1 -> Qmax 0 (Qmin 1 x) == x.
Proof.
  intros H0 H1. rewrite (Q.min_r 1 x) by exact H1. now apply Q.max_r.
Qed.

(** What the shader decodes from the pixel of [v] is the rounded 16-bit
    code of [v], scaled back. *)
Lemma decode_encode (v : Q) :
  Geoid.GEOID_MIN <= v -> v <= Geoid.GEOID_MAX ->
  Spec.decode (Geoid.encode v)
  == inject_Z (Geoid.Math_round ((v - Geoid.GEOID_MIN) / Geoid.GEOID_RANGE * 65535))
     / 65535 * Geoid.GEOID_RANGE + Geoid.GEOID_MIN.
Proof.
  intros Hlo Hhi.
  assert (Hn0 : 0 <= (v - Geoid.GEOID_MIN) / Geoid.GEOID_RANGE).
  { unfold Geoid.GEOID_RANGE, Geoid.GEOID_MAX, Geoid.GEOID_MIN in *.
    apply Qle_shift_div_l; lra. }
  assert (Hn1 : (v - Geoid.GEOID_MIN) / Geoid.GEOID_RANGE <= 1).
  { unfold Geoid.GEOID_RANGE, Geoid.GEOID_MAX, Geoid.GEOID_MIN in *.
    apply Qle_shift_div_r; lra. }
  unfold Spec.decode, Geoid.encode, FloodVisualization.texel.
  cbn [FloodVisualization.r FloodVisualization.g Geoid.R Geoid.G].
  set (x := (v - Geoid.GEOID_MIN) / Geoid.GEOID_RANGE) in *.
  assert (Hc : Geoid.Math_round (Qmax 0 (Qmin 1 x) * 65535)
               = Geoid.Math_round (x * 65535)).
  { unfold Geoid.Math_round. apply Qfloor_comp.
    now rewrite (clamp_unit Hn0 Hn1). }
  rewrite Hc. set (e := Geoid.Math_round (x * 65535)).
  assert (He : (0 <= e <= 65535)%Z).
  { apply Math_round_range; [nra |]. change (inject_Z 65535) with 65535. nra. }
  destruct (bytes_of_word He) as (_ & _ & Hsplit).
  rewrite <- Hsplit at 3.
  rewrite inject_Z_plus, inject_Z_mult. change (inject_Z 256) with 256.
  field.
Qed.

(** The undulation the geoid shader computes for a fragment whose texel
    is the pixel [p], under the uniforms set by [initFloodVisualization]. *)
Lemma shader_decodes (u : FloodVisualization.GeoidUniforms.t)
    (materialInput : FloodVisualization.czm_materialInput) (p : Geoid.Pixel) :
  FloodVisualization.GeoidUniforms.geoidTexture u
    (fst (FloodVisualization.st materialInput))
    (snd (FloodVisualization.st materialInput))
    = FloodVisualization.texel p ->
  FloodVisualization.GeoidUniforms.geoidMin u = Geoid.GEOID_MIN ->
  FloodVisualization.GeoidUniforms.geoidRange u = Geoid.GEOID_RANGE ->
  FloodVisualization.geoidUndulation u materialInput = Spec.decode p.
Proof.
  intros Ht Hmin Hrange.
  unfold FloodVisualization.geoidUndulation, Spec.decode.
  now rewrite Ht, Hmin, Hrange.
Qed.

(** C10.  Take an undulation [v] in metres with [-107 <= v <= 86], encode
    it as [loadGeoidTexture] does (R the high and G the low byte of
    [round((v - GEOID_MIN) / GEOID_RANGE * 65535)]), and let the geoid
    shader sample exactly that texel under the uniforms [geoidMin],
    [geoidRange] of the module.  In exact arithmetic the undulation the
    shader decodes is within [193 / 65535] metres of [v]. *)
Theorem geoid_round_trip (v : Q) (u : FloodVisualization.GeoidUniforms.t)
    (materialInput : FloodVisualization.czm_materialInput) :
  -107.0 <= v -> v <= 86.0 ->
  FloodVisualization.GeoidUniforms.geoidTexture u
    (fst (FloodVisualization.st materialInput))
    (snd (FloodVisualization.st materialInput))
    = FloodVisualization.texel (Geoid.encode v) ->
  FloodVisualization.GeoidUniforms.geoidMin u = Geoid.GEOID_MIN ->
  FloodVisualization.GeoidUniforms.geoidRange u = Geoid.GEOID_RANGE ->
  Qabs (FloodVisualization.geoidUndulation u materialInput - v) <= 193.0 / 65535.
Proof.
  intros Hlo Hhi Ht Hmin Hrange.
  rewrite (shader_decodes u materialInput Ht Hmin Hrange).
  rewrite decode_encode by assumption.
  set (x := (v - Geoid.GEOID_MIN) / Geoid.GEOID_RANGE * 65535).
  destruct (Math_round_near x) as [Hr1 Hr2].
  assert (Hv : v == x / 65535 * Geoid.GEOID_RANGE + Geoid.GEOID_MIN).
  { unfold x, Geoid.GEOID_RANGE, Geoid.GEOID_MAX, Geoid.GEOID_MIN. field. }
  assert (Hd : inject_Z (Geoid.Math_round x) / 65535 * Geoid.GEOID_RANGE
                 + Geoid.GEOID_MIN - v
               == (inject_Z (Geoid.Math_round x) - x) * (193 # 65535)).
  { rewrite Hv at 1.
    unfold Geoid.GEOID_RANGE, Geoid.GEOID_MAX, Geoid.GEOID_MIN. field. }
  rewrite Hd.
  setoid_replace (193.0 / 65535) with (193 # 65535) by reflexivity.
  apply Qabs_Qle_condition. split; lra.
Qed.

Lemma geoid_round_trip_witness :
  Qabs (FloodVisualization.geoidUndulation
          {| FloodVisualization.GeoidUniforms.seaLevelRise := 0;
             FloodVisualization.GeoidUniforms.comparisonSLR := 0;
             FloodVisualization.GeoidUniforms.waterAlpha := 0;
             FloodVisualization.GeoidUniforms.geoidTexture := Sample.flatCanvas 12.34;
             FloodVisualization.GeoidUniforms.geoidMin := Geoid.GEOID_MIN;
             FloodVisualization.GeoidUniforms.geoidRange := Geoid.GEOID_RANGE |}
          (Sample.landAt 0) - 12.34) <= 193.0 / 65535.
Proof.
  apply (@geoid_round_trip 12.34); try reflexivity; unfold Qle; simpl; lia.
Defined.

End GeoidFacts.


(* ================================================================== *)
(** ** The flood compositor *)
(* ================================================================== *)

Module FloodFacts.
Import Js FloodVisualization.
Local Open Scope Q_scope.

Lemma gt_true (x y : Q) : gt x y = true <-> y < x.
Proof.
  unfold gt. rewrite negb_true_iff. split; intro H.
  - destruct (Qlt_le_dec y x) as [L | L]; [exact L |].
    apply Qle_bool_iff in L. congruence.
  - destruct (Qle_bool x y) eqn:E; [| reflexivity].
    apply Qle_bool_iff in E. lra.
Qed.

Lemma gt_false (x y : Q) : gt x y = false <-> x <= y.
Proof.
  unfold gt. rewrite negb_false_iff. apply Qle_bool_iff.
Qed.

Lemma lt_true (x y : Q) : lt x y = true <-> x < y.
Proof. unfold lt. apply (gt_true y x). Qed.

Lemma ge_true (x y : Q) : ge x y = true <-> y <= x.
Proof. unfold ge. apply Qle_bool_iff. Qed.

(** The test of the comparison branch, as an interval. *)
Lemma band_test (h lower upper : Q) :
  ge h lower && lt h upper = true <-> lower <= h /\ h < upper.
Proof. now rewrite andb_true_iff, ge_true, lt_true. Qed.

(** The snapshots after the bookkeeping of [setFloodLevel]. *)
Lemma record_snapshots (slr : Q) (result : option Simulation.SimulationResult)
    (now : Z) (s : State) :
  currentSnapshot (record slr result now s)
    = Some {| seaLevelRise := slr; simulationResult := result; timestamp := now |}
  /\ previousSnapshot (record slr result now s)
    = match currentSnapshot s with
      | Some old => Some old
      | None => previousSnapshot s
      end.
Proof. split; reflexivity. Qed.

(** C5, amended.  With recording on, [setFloodLevel] first makes the
    supplied value the current snapshot and, if there was a current
    snapshot, makes that one the previous snapshot (whatever was held
    there is dropped); with no current snapshot the previous one stays.
    For [seaLevelRise > 0] that is the state the call ends in.  For
    [seaLevelRise <= 0] the call goes on to [clearFlood], which moves the
    snapshot just made to previous and leaves no current one.  Two slots
    are all the module keeps. *)
Theorem setFloodLevel_snapshots (slr : Q)
    (result : option Simulation.SimulationResult) (now : Z) (s : State) :
  (0 < slr ->
     currentSnapshot (fst (setFloodLevel slr result true now s))
       = Some {| seaLevelRise := slr; simulationResult := result;
                 timestamp := now |}
     /\ previousSnapshot (fst (setFloodLevel slr result true now s))
       = match currentSnapshot s with
         | Some old => Some old
         | None => previousSnapshot s
         end)
  /\ (slr <= 0 ->
     currentSnapshot (fst (setFloodLevel slr result true now s)) = None
     /\ previousSnapshot (fst (setFloodLevel slr result true now s))
       = Some {| seaLevelRise := slr; simulationResult := result;
                 timestamp := now |}).
Proof.
  unfold setFloodLevel. split; intro Hslr.
  - destruct (Qle_bool slr 0) eqn:E; [apply Qle_bool_iff in E; lra |].
    destruct (floodMaterial (record slr result now s)); cbn [fst];
      apply record_snapshots.
  - destruct (Qle_bool slr 0) eqn:E.
    + cbn [fst]. split; reflexivity.
    + apply Qle_bool_iff in Hslr. congruence.
Qed.

(** C5, as stated, fails: from a state with a current snapshot, recording
    a level of 0 leaves no current snapshot, and the one that was current
    is gone. *)
Lemma setFloodLevel_zero_demotes_itself :
  reachable (run [Init (Some (Sample.flatCanvas 0));
                  SetFloodLevel 0.5 None true 100%Z])
  /\ currentSnapshot (run [Init (Some (Sample.flatCanvas 0));
                           SetFloodLevel 0.5 None true 100%Z])
     = Some {| seaLevelRise := 0.5; simulationResult := None; timestamp := 100 |}
  /\ currentSnapshot
       (fst (setFloodLevel 0 None true 200%Z
               (run [Init (Some (Sample.flatCanvas 0));
                     SetFloodLevel 0.5 None true 100%Z])))
     = None
  /\ previousSnapshot
       (fst (setFloodLevel 0 None true 200%Z
               (run [Init (Some (Sample.flatCanvas 0));
                     SetFloodLevel 0.5 None true 100%Z])))
     = Some {| seaLevelRise := 0; simulationResult := None; timestamp := 200 |}.
Proof.
  split; [eexists; reflexivity |].
  repeat split.
Qed.


(** The geoid shader, seen through [inComparisonBand]. *)
Lemma geoid_band (u : GeoidUniforms.t) (materialInput : czm_materialInput) :
  inComparisonBand (FloodGeoid u) materialInput
  = negb (gt (waterMask materialInput) 0.5)
    && gt (GeoidUniforms.comparisonSLR u) 0.0
    && (ge (height materialInput)
           (Qmin (geoidUndulation u materialInput + GeoidUniforms.seaLevelRise u)
                 (geoidUndulation u materialInput + GeoidUniforms.comparisonSLR u))
        && lt (height materialInput)
           (Qmax (geoidUndulation u materialInput + GeoidUniforms.seaLevelRise u)
                 (geoidUndulation u materialInput + GeoidUniforms.comparisonSLR u))).
Proof.
  unfold inComparisonBand, czm_getMaterial, FLOOD_SHADER_GEOID.
  destruct (gt (waterMask materialInput) 0.5); [reflexivity |].
  cbn [negb andb].
  destruct (gt (GeoidUniforms.comparisonSLR u) 0.0); cbn [andb].
  - match goal with
    | |- context [if ?c then {| diffuse := comparisonColor; alpha := _ |} else _] =>
        destruct c
    end; [reflexivity |].
    destruct (gt (GeoidUniforms.seaLevelRise u) 0.0);
      match goal with |- context [if ?c then _ else _] => destruct c end;
      reflexivity.
  - destruct (gt (GeoidUniforms.seaLevelRise u) 0.0);
      match goal with |- context [if ?c then _ else _] => destruct c end;
      reflexivity.
Qed.

Lemma geoid_band_alpha (u : GeoidUniforms.t) (materialInput : czm_materialInput) :
  inComparisonBand (FloodGeoid u) materialInput = true ->
  alpha (czm_getMaterial (FloodGeoid u) materialInput) = 0.5.
Proof.
  rewrite geoid_band. unfold czm_getMaterial, FLOOD_SHADER_GEOID.
  destruct (gt (waterMask materialInput) 0.5); [discriminate |].
  destruct (gt (GeoidUniforms.comparisonSLR u) 0.0); [| discriminate].
  cbn [negb andb]. intro H. rewrite H. reflexivity.
Qed.

(** C6, amended.  Let a current and a previous snapshot exist, let the
    geoid shader be in use with the level on display equal to the current
    snapshot's rise, and let [showComparison] be called; it answers true.
    For a land fragment ([waterMask <= 0.5]) with height [h] and undulation
    [g], and a previous rise [> 0], the fragment is in the comparison band
    iff [min(g + current, g + previous) <= h < max(g + current, g + previous)],
    and then its opacity is 0.5.  An ocean fragment, and any fragment when
    the previous rise is [<= 0], is never in the band.  If the previous
    rise equals the current one the band is empty. *)
Theorem comparison_band (s : State) (u : GeoidUniforms.t)
    (current previous : Snapshot) (materialInput : czm_materialInput) :
  floodMaterial s = Some (FloodGeoid u) ->
  useGeoidTexture s = true ->
  currentSnapshot s = Some current ->
  previousSnapshot s = Some previous ->
  GeoidUniforms.seaLevelRise u = seaLevelRise current ->
  snd (showComparison s) = true
  /\ exists m,
       floodMaterial (fst (showComparison s)) = Some m
       /\ (waterMask materialInput <= 0.5 -> 0 < seaLevelRise previous ->
             (inComparisonBand m materialInput = true
              <-> Qmin (geoidUndulation u materialInput + seaLevelRise current)
                       (geoidUndulation u materialInput + seaLevelRise previous)
                    <= height materialInput
                  /\ height materialInput
                     < Qmax (geoidUndulation u materialInput + seaLevelRise current)
                            (geoidUndulation u materialInput + seaLevelRise previous))
             /\ (inComparisonBand m materialInput = true ->
                 alpha (czm_getMaterial m materialInput) = 0.5))
       /\ (0.5 < waterMask materialInput \/ seaLevelRise previous <= 0 ->
             inComparisonBand m materialInput = false)
       /\ (seaLevelRise previous == seaLevelRise current ->
             inComparisonBand m materialInput = false).
Proof.
  intros Hm Hg Hc Hp Hu.
  unfold showComparison. rewrite Hm, Hc, Hp, Hg. cbn [fst snd floodMaterial].
  split; [reflexivity |].
  eexists. split; [reflexivity |].
  unfold write_comparison, write_comparisonSLR.
  set (u' := {| GeoidUniforms.seaLevelRise := GeoidUniforms.seaLevelRise u;
                GeoidUniforms.comparisonSLR := seaLevelRise previous;
                GeoidUniforms.waterAlpha := GeoidUniforms.waterAlpha u;
                GeoidUniforms.geoidTexture := GeoidUniforms.geoidTexture u;
                GeoidUniforms.geoidMin := GeoidUniforms.geoidMin u;
                GeoidUniforms.geoidRange := GeoidUniforms.geoidRange u |}).
  assert (Eg : geoidUndulation u' materialInput = geoidUndulation u materialInput)
    by reflexivity.
  assert (Eband := geoid_band u' materialInput).
  rewrite Eg in Eband. cbn [GeoidUniforms.seaLevelRise GeoidUniforms.comparisonSLR u'] in Eband.
  rewrite Hu in Eband.
  split; [| split].
  - intros Hland Hpos. split.
    + rewrite Eband.
      assert (E1 : gt (waterMask materialInput) 0.5 = false) by now apply gt_false.
      assert (E2 : gt (seaLevelRise previous) 0.0 = true) by (apply gt_true; lra).
      rewrite E1, E2. cbn [negb andb]. apply band_test.
    + apply geoid_band_alpha.
  - intros [Hocean | Hzero]; rewrite Eband.
    + assert (E1 : gt (waterMask materialInput) 0.5 = true) by now apply gt_true.
      now rewrite E1.
    + assert (E2 : gt (seaLevelRise previous) 0.0 = false) by (apply gt_false; lra).
      rewrite E2. now rewrite andb_false_r.
  - intro Heq. rewrite Eband.
    match goal with
    | |- _ && (?a && ?b) = false =>
        destruct a eqn:Ea; [destruct b eqn:Eb |]; [| now rewrite !andb_false_r ..]
    end.
    exfalso. apply ge_true in Ea. apply lt_true in Eb.
    revert Ea Eb.
    set (g := geoidUndulation u materialInput).
    destruct (Q.min_spec (g + seaLevelRise current) (g + seaLevelRise previous))
      as [[_ ->] | [_ ->]];
    destruct (Q.max_spec (g + seaLevelRise current) (g + seaLevelRise previous))
      as [[_ ->] | [_ ->]]; lra.
Qed.


Lemma comparison_band_witness :
  inComparisonBand
    (FloodGeoid
       {| GeoidUniforms.seaLevelRise := 1.2;
          GeoidUniforms.comparisonSLR := 0.5;
          GeoidUniforms.waterAlpha := 0;
          GeoidUniforms.geoidTexture := Sample.flatCanvas 0;
          GeoidUniforms.geoidMin := Geoid.GEOID_MIN;
          GeoidUniforms.geoidRange := Geoid.GEOID_RANGE |})
    (Sample.landAt 0.8) = true.
Proof.
  destruct (@comparison_band
              (run [Init (Some (Sample.flatCanvas 0));
                    SetFloodLevel 0.5 None true 100%Z;
                    SetFloodLevel 1.2 None true 200%Z])
              _ _ _ (Sample.landAt 0.8)
              eq_refl eq_refl eq_refl eq_refl eq_refl)
    as (_ & m & Em & Hin & _ & _).
  injection Em as <-.
  apply Hin.
  - vm_compute. discriminate.
  - vm_compute. reflexivity.
  - split; vm_compute; [discriminate | reflexivity].
Defined.

(** Is [h] in the interval the claim describes, for undulation [g]? *)
Lemma interval_test (g current previous h : Q) :
  ge h (Qmin (g + current) (g + previous))
  && lt h (Qmax (g + current) (g + previous)) = true
  <-> Qmin (g + current) (g + previous) <= h
      /\ h < Qmax (g + current) (g + previous).
Proof. apply band_test. Qed.

(** C6, as stated, fails, in three ways.  The undulation of every
    fragment below is that of the pixel of 0 m.
    (a) Previous rise 0, current rise 0.7: [showComparison] answers true,
        the land fragment at height 0.3 lies between the two surfaces, and
        the shader does not put it in the band.
    (b) Previous rise 0.5, current rise 1.2: the ocean fragment at height
        0.8 lies between the two surfaces and is not in the band.
    (c) Previous rise 0.5, current rise 1.2, then a level of 2.0 put on
        display without recording: the land fragment at height 1.5 lies
        above both snapshot surfaces and is in the band. *)
Lemma comparison_band_exceptions :
  (snd (showComparison
          (run [Init (Some (Sample.flatCanvas 0));
                SetFloodLevel 0 None true 100%Z;
                SetFloodLevel 0.7 None true 200%Z])) = true
   /\ option_map seaLevelRise
        (currentSnapshot
           (run [Init (Some (Sample.flatCanvas 0));
                 SetFloodLevel 0 None true 100%Z;
                 SetFloodLevel 0.7 None true 200%Z])) = Some 0.7
   /\ option_map seaLevelRise
        (previousSnapshot
           (run [Init (Some (Sample.flatCanvas 0));
                 SetFloodLevel 0 None true 100%Z;
                 SetFloodLevel 0.7 None true 200%Z])) = Some 0
   /\ ge 0.3 (Qmin (Spec.decode (Geoid.encode 0) + 0.7)
                   (Spec.decode (Geoid.encode 0) + 0))
      && lt 0.3 (Qmax (Spec.decode (Geoid.encode 0) + 0.7)
                      (Spec.decode (Geoid.encode 0) + 0)) = true
   /\ option_map (fun m => inComparisonBand m (Sample.landAt 0.3))
        (floodMaterial
           (run [Init (Some (Sample.flatCanvas 0));
                 SetFloodLevel 0 None true 100%Z;
                 SetFloodLevel 0.7 None true 200%Z;
                 ShowComparison])) = Some false)
  /\ (snd (showComparison
             (run [Init (Some (Sample.flatCanvas 0));
                   SetFloodLevel 0.5 None true 100%Z;
                   SetFloodLevel 1.2 None true 200%Z])) = true
      /\ ge 0.8 (Qmin (Spec.decode (Geoid.encode 0) + 1.2)
                      (Spec.decode (Geoid.encode 0) + 0.5))
         && lt 0.8 (Qmax (Spec.decode (Geoid.encode 0) + 1.2)
                         (Spec.decode (Geoid.encode 0) + 0.5)) = true
      /\ option_map (fun m => inComparisonBand m (Sample.oceanAt 0.8))
           (floodMaterial
              (run [Init (Some (Sample.flatCanvas 0));
                    SetFloodLevel 0.5 None true 100%Z;
                    SetFloodLevel 1.2 None true 200%Z;
                    ShowComparison])) = Some false)
  /\ (snd (showComparison
             (run [Init (Some (Sample.flatCanvas 0));
                   SetFloodLevel 0.5 None true 100%Z;
                   SetFloodLevel 1.2 None true 200%Z;
                   SetFloodLevel 2.0 None false 300%Z])) = true
      /\ option_map seaLevelRise
           (currentSnapshot
              (run [Init (Some (Sample.flatCanvas 0));
                    SetFloodLevel 0.5 None true 100%Z;
                    SetFloodLevel 1.2 None true 200%Z;
                    SetFloodLevel 2.0 None false 300%Z])) = Some 1.2
      /\ ge 1.5 (Qmin (Spec.decode (Geoid.encode 0) + 1.2)
                      (Spec.decode (Geoid.encode 0) + 0.5))
         && lt 1.5 (Qmax (Spec.decode (Geoid.encode 0) + 1.2)
                         (Spec.decode (Geoid.encode 0) + 0.5)) = false
      /\ option_map (fun m => inComparisonBand m (Sample.landAt 1.5))
           (floodMaterial
              (run [Init (Some (Sample.flatCanvas 0));
                    SetFloodLevel 0.5 None true 100%Z;
                    SetFloodLevel 1.2 None true 200%Z;
                    SetFloodLevel 2.0 None false 300%Z;
                    ShowComparison])) = Some true).
Proof. repeat split; vm_compute; reflexivity. Qed.

End FloodFacts.

(* ================================================================== *)
(** ** Rounding *)
(* ================================================================== *)

Module Rounding.
Local Open Scope Q_scope.

Lemma Math_round_monotone (x y : Q) :
  x <= y -> (Geoid.Math_round x <= Geoid.Math_round y)%Z.
Proof. intro H. unfold Geoid.Math_round. apply Qfloor_resp_le. lra. Qed.

Lemma Qfloor_unique (x : Q) (z : Z) :
  inject_Z z <= x -> x < inject_Z (z + 1) -> Qfloor x = z.
Proof.
  intros Hlo Hhi.
  pose proof (Qfloor_le x) as H1. pose proof (Qlt_floor x) as H2.
  assert (A : inject_Z (Qfloor x) < inject_Z (z + 1)) by lra.
  assert (B : inject_Z z < inject_Z (Qfloor x + 1)) by lra.
  rewrite <- Zlt_Qlt in A, B. lia.
Qed.

Lemma Math_round_integer (z : Z) : Geoid.Math_round (inject_Z z) = z.
Proof.
  unfold Geoid.Math_round. apply Qfloor_unique.
  - lra.
  - rewrite inject_Z_plus. change (inject_Z 1) with 1. lra.
Qed.

End Rounding.

(* ================================================================== *)
(** ** The engine: samples, their range and the degenerate run *)
(* ================================================================== *)

Module EngineBounds.
Import Js.
Local Open Scope Q_scope.

Lemma clampPositive_nonnegative (val : Q) : 0 <= Simulation.clampPositive val.
Proof. apply Q.le_max_l. Qed.

Lemma nonnegative_app (l l' : list Q) :
  Spec.nonnegative l -> Spec.nonnegative l' -> Spec.nonnegative (l ++ l').
Proof. intros H H'. apply Forall_app. now split. Qed.


Lemma nonnegative_sort (l : list Q) :
  Spec.nonnegative l -> Spec.nonnegative (sort Simulation.ascending l).
Proof.
  unfold Spec.nonnegative. intro H.
  apply (Permutation_Forall (SortFacts.sort_permutation Simulation.ascending l) H).
Qed.

Section Engine.
Variable Math : Simulation.MathLib.

(** One iteration, with what is known of the five values. *)
Lemma singleIteration_clamped (t : Q) (s : Simulation.Source) :
  exists v1 v2 v3 v4 v5,
    Simulation.singleIteration Math t s =
      ({| Simulation.total := 0 + v1 + v2 + v3 + v4 + v5;
          Simulation.breakdown := Spec.totals5 v1 v2 v3 v4 v5 |},
       Spec.advance s 10)
    /\ 0 <= v1 /\ 0 <= v2 /\ 0 <= v3 /\ 0 <= v4 /\ 0 <= v5.
Proof.
  unfold Simulation.singleIteration, Simulation.CONTRIBUTORS, entries.
  cbn -[Qplus Qmult Qopp Qmax Qminus Qdiv Simulation.clampPositive].
  unfold Simulation.ret, Spec.advance, Spec.totals5.
  do 5 eexists. split; [reflexivity |].
  repeat split; apply clampPositive_nonnegative.
Qed.

Lemma iterate_nonnegative (count : nat) :
  forall (t : Q) (res a1 a2 a3 a4 a5 : list Q) (s : Simulation.Source),
  exists res' b1 b2 b3 b4 b5,
    Simulation.iterate Math count t res (Spec.totals5 a1 a2 a3 a4 a5) s =
      ((res ++ res',
        Spec.totals5 (a1 ++ b1) (a2 ++ b2) (a3 ++ b3) (a4 ++ b4) (a5 ++ b5)),
       Spec.advance s (count * 10)) /\
    (List.length res' = count /\ List.length b1 = count /\
     List.length b2 = count /\ List.length b3 = count /\
     List.length b4 = count /\ List.length b5 = count) /\
    (Spec.nonnegative res' /\ Spec.nonnegative b1 /\ Spec.nonnegative b2 /\
     Spec.nonnegative b3 /\ Spec.nonnegative b4 /\ Spec.nonnegative b5) /\
    Spec.sum res' ==
      Spec.sum b1 + Spec.sum b2 + Spec.sum b3 + Spec.sum b4 + Spec.sum b5.
Proof.
  induction count as [| count IH]; intros t res a1 a2 a3 a4 a5 s.
  - exists [], [], [], [], [], []. rewrite !app_nil_r.
    split; [| split; [repeat split | split; [repeat split; constructor | reflexivity]]].
    simpl. unfold Simulation.ret. now rewrite EngineFacts.advance_zero.
  - destruct (singleIteration_clamped t s)
      as (v1 & v2 & v3 & v4 & v5 & Hit & H1 & H2 & H3 & H4 & H5).
    cbn [Simulation.iterate]. unfold Simulation.bind at 1. rewrite Hit.
    cbn [Simulation.total Simulation.breakdown]. unfold entries.
    unfold Spec.totals5 at 1. rewrite EngineFacts.pushAll_totals5.
    destruct (IH t (res ++ [0 + v1 + v2 + v3 + v4 + v5])
                (a1 ++ [v1]) (a2 ++ [v2]) (a3 ++ [v3]) (a4 ++ [v4]) (a5 ++ [v5])
                (Spec.advance s 10))
      as (res' & b1 & b2 & b3 & b4 & b5 & Hrun & Hlen & Hpos & Hsum).
    exists ((0 + v1 + v2 + v3 + v4 + v5) :: res'),
      (v1 :: b1), (v2 :: b2), (v3 :: b3), (v4 :: b4), (v5 :: b5).
    split; [| split; [| split]].
    + rewrite Hrun, EngineFacts.advance_advance, <- !app_assoc. reflexivity.
    + simpl. intuition lia.
    + unfold Spec.nonnegative in *.
      repeat split; constructor; try tauto; lra.
    + rewrite !SortFacts.sum_cons, Hsum. lra.
Qed.

(** A run at a positive temperature, with the arrays behind its fields. *)
Lemma runSimulation_arrays (t : Q) (n : Z) (s : Simulation.Source) :
  0 < t ->
  exists res b1 b2 b3 b4 b5,
    Simulation.runSimulation Math t (Some n) s =
      ({| Simulation.tempIncrease := t;
          Simulation.iterations := n;
          Simulation.results := sort Simulation.ascending res;
          Simulation.stats :=
            Simulation.computeStats (sort Simulation.ascending res);
          Simulation.contributorStats :=
            Simulation.summarize (Spec.totals5 b1 b2 b3 b4 b5) [] |},
       Spec.advance s (Z.to_nat n * 10)) /\
    (List.length res = Z.to_nat n /\ List.length b1 = Z.to_nat n /\
     List.length b2 = Z.to_nat n /\ List.length b3 = Z.to_nat n /\
     List.length b4 = Z.to_nat n /\ List.length b5 = Z.to_nat n) /\
    (Spec.nonnegative res /\ Spec.nonnegative b1 /\ Spec.nonnegative b2 /\
     Spec.nonnegative b3 /\ Spec.nonnegative b4 /\ Spec.nonnegative b5) /\
    Spec.sum res ==
      Spec.sum b1 + Spec.sum b2 + Spec.sum b3 + Spec.sum b4 + Spec.sum b5.
Proof.
  intro Ht.
  destruct (iterate_nonnegative (Z.to_nat n) t [] [] [] [] [] [] s)
    as (res & b1 & b2 & b3 & b4 & b5 & Hrun & Hlen & Hpos & Hsum).
  exists res, b1, b2, b3, b4, b5. split; [| split; [| split]]; try assumption.
  unfold Simulation.runSimulation.
  destruct (Qle_bool t 0) eqn:E; [apply Qle_bool_iff in E; lra |].
  change (map (fun key => (key, @nil Q)) (keys Simulation.CONTRIBUTORS))
    with (Spec.totals5 (@nil Q) [] [] [] []).
  unfold Simulation.bind. rewrite Hrun. reflexivity.
Qed.

(** X1.  Whatever [Math] computes and whatever [Math.random] hands out,
    one iteration returns a breakdown with exactly the five keys of
    [CONTRIBUTORS], in their order, none of whose values is negative, and
    a total that is the sum of these five values (hence not negative
    either); it takes ten draws. *)
Theorem singleIteration_sample (t : Q) (s : Simulation.Source) :
  keys (Simulation.breakdown (fst (Simulation.singleIteration Math t s)))
    = keys Simulation.CONTRIBUTORS
  /\ Spec.nonnegative
       (map snd (Simulation.breakdown (fst (Simulation.singleIteration Math t s))))
  /\ Simulation.total (fst (Simulation.singleIteration Math t s))
     == Spec.sum
          (map snd (Simulation.breakdown (fst (Simulation.singleIteration Math t s))))
  /\ 0 <= Simulation.total (fst (Simulation.singleIteration Math t s))
  /\ snd (Simulation.singleIteration Math t s) = Spec.advance s 10.
Proof.
  destruct (singleIteration_clamped t s)
    as (v1 & v2 & v3 & v4 & v5 & Hit & H1 & H2 & H3 & H4 & H5).
  rewrite Hit. cbn [fst snd Simulation.breakdown Simulation.total].
  split; [reflexivity |]. split; [| split; [| split; [| reflexivity]]].
  - unfold Spec.nonnegative, Spec.totals5. simpl. repeat constructor; assumption.
  - unfold Spec.totals5. simpl map. rewrite !SortFacts.sum_cons.
    unfold Spec.sum. simpl. lra.
  - lra.
Qed.

(** X2.  The array [results] of a run is in ascending order and holds no
    negative number, for every input; at a positive temperature it holds
    one sample per iteration asked for (none for a count below one), and
    the run echoes its two arguments. *)
Theorem runSimulation_results (t : Q) (n : Z) (s : Simulation.Source) :
  Sorted Qle (Simulation.results (fst (Simulation.runSimulation Math t (Some n) s)))
  /\ Spec.nonnegative
       (Simulation.results (fst (Simulation.runSimulation Math t (Some n) s)))
  /\ (0 < t ->
      List.length
        (Simulation.results (fst (Simulation.runSimulation Math t (Some n) s)))
        = Z.to_nat n
      /\ Simulation.tempIncrease (fst (Simulation.runSimulation Math t (Some n) s)) = t
      /\ Simulation.iterations (fst (Simulation.runSimulation Math t (Some n) s)) = n).
Proof.
  destruct (Qlt_le_dec 0 t) as [Ht | Ht].
  - destruct (@runSimulation_arrays t n s Ht)
      as (res & b1 & b2 & b3 & b4 & b5 & Hrun & Hlen & Hpos & _).
    rewrite Hrun. cbn [fst Simulation.results Simulation.tempIncrease
                       Simulation.iterations].
    split; [apply SortFacts.sort_sorted |].
    split; [apply nonnegative_sort; tauto |].
    intros _. rewrite SortFacts.sort_length. intuition.
  - rewrite (EngineFacts.runSimulation_degenerate Math (Some n) s Ht).
    cbn [fst Simulation.results].
    split; [constructor | split; [constructor | intro; lra]].
Qed.


Lemma minimum_nonnegative (values : list Q) :
  (1 <= List.length values)%nat -> Spec.nonnegative values ->
  Spec.le (Num 0)
    (Simulation.min (Simulation.computeStats (sort Simulation.ascending values))).
Proof.
  intros Hlen Hpos.
  assert (Hlen' : (1 <= List.length (sort Simulation.ascending values))%nat)
    by now rewrite SortFacts.sort_length.
  destruct (StatsFacts.computeStats_reads _ Hlen')
    as (vmedian & vp5 & vp95 & vmin & vmax & Hnth & Hstat).
  destruct Hstat as (_ & _ & _ & Hmin & _). rewrite Hmin. simpl.
  destruct Hnth as (_ & _ & _ & H0 & _).
  apply nth_error_In in H0.
  pose proof (@nonnegative_sort values Hpos) as Hs.
  unfold Spec.nonnegative in Hs. rewrite Forall_forall in Hs. now apply Hs.
Qed.

(** The least total of a run is not negative. *)
Lemma totals_minimum (t : Q) (n : Z) (s : Simulation.Source) :
  0 < t -> (1 <= n)%Z ->
  Spec.le (Num 0)
    (Simulation.min
       (Simulation.stats (fst (Simulation.runSimulation Math t (Some n) s)))).
Proof.
  intros Ht Hn.
  destruct (@runSimulation_arrays t n s Ht)
    as (res & b1 & b2 & b3 & b4 & b5 & Hrun & Hlen & Hpos & _).
  rewrite Hrun. cbn [fst Simulation.stats].
  apply minimum_nonnegative; [lia | tauto].
Qed.





(** X4.  A run at a positive temperature asked for no iteration (a count
    of zero or below) takes no draw and returns an empty [results]; its
    summary of the totals, and that of each of the five contributors, has
    [NaN] for the mean and [undefined] for the median, the percentiles,
    the minimum and the maximum. *)
Theorem runSimulation_no_iteration (t : Q) (n : Z) (s : Simulation.Source) :
  0 < t -> (n <= 0)%Z ->
  Simulation.runSimulation Math t (Some n) s =
    ({| Simulation.tempIncrease := t;
        Simulation.iterations := n;
        Simulation.results := [];
        Simulation.stats := Spec.emptyStats;
        Simulation.contributorStats :=
          Spec.totals5
            {| Simulation.contributor := "Thermal Expansion";
               Simulation.summary := Spec.emptyStats |}
            {| Simulation.contributor := "Mountain Glaciers";
               Simulation.summary := Spec.emptyStats |}
            {| Simulation.contributor := "Greenland Ice Sheet";
               Simulation.summary := Spec.emptyStats |}
            {| Simulation.contributor := "Antarctic Ice Sheet";
               Simulation.summary := Spec.emptyStats |}
            {| Simulation.contributor := "Land Water Storage";
               Simulation.summary := Spec.emptyStats |} |}, s).
Proof.
  intros Ht Hn. unfold Simulation.runSimulation.
  destruct (Qle_bool t 0) eqn:E; [apply Qle_bool_iff in E; lra |].
  replace (Z.to_nat n) with 0%nat by lia.
  reflexivity.
Qed.

End Engine.


Lemma runSimulation_no_iteration_witness :
  Simulation.results
    (fst (Simulation.runSimulation Sample.seriesMath 2 (Some 0%Z) Sample.source))
  = []
  /\ Simulation.stats
       (fst (Simulation.runSimulation Sample.seriesMath 2 (Some 0%Z) Sample.source))
     = Spec.emptyStats.
Proof.
  rewrite (@runSimulation_no_iteration Sample.seriesMath 2 0 Sample.source).
  - split; reflexivity.
  - reflexivity.
  - lia.
Defined.

End EngineBounds.

(* ================================================================== *)
(** ** Impact texts, population estimates and locations *)
(* ================================================================== *)

Module ImpactFacts.
Import Js Tactics.
Local Open Scope Q_scope.

Lemma below_number (x c : Q) : Impact.below (Num x) c = true <-> x < c.
Proof.
  unfold Impact.below. destruct (Qle_bool c x) eqn:E; simpl.
  - apply Qle_bool_iff in E. split; [discriminate | lra].
  - split; [intros _ | reflexivity].
    destruct (Qlt_le_dec x c) as [L | L]; [exact L |].
    apply Qle_bool_iff in L. congruence.
Qed.

(** X5.  The impact text never gets milder as the rise grows: for
    [a <= b] the text for [b] stands at the same place of the scale as the
    text for [a] or further on.  An argument that is [NaN] or [undefined]
    (the median of a run without samples) fails every comparison and gets
    the gravest text. *)
Theorem getImpactDescription_monotone (a b : Q) :
  a <= b ->
  (Spec.severity (Impact.getImpactDescription (Num a))
   <= Spec.severity (Impact.getImpactDescription (Num b)))%nat
  /\ (Spec.severity (Impact.getImpactDescription (Num b)) <= 6)%nat
  /\ Spec.severity (Impact.getImpactDescription NaN) = 6%nat
  /\ Spec.severity (Impact.getImpactDescription Undefined) = 6%nat.
Proof.
  intro Hab.
  split; [| split; [| split; reflexivity]].
  - unfold Impact.getImpactDescription, Impact.below.
    repeat decide_test; vm_compute; lia.
  - unfold Impact.getImpactDescription, Impact.below.
    repeat decide_test; vm_compute; lia.
Qed.

Lemma getImpactDescription_monotone_witness :
  (Spec.severity (Impact.getImpactDescription (Num 0.42%Q))
   <= Spec.severity (Impact.getImpactDescription (Num 1.3%Q)))%nat.
Proof.
  apply (@getImpactDescription_monotone 0.42 1.3). vm_compute. discriminate.
Defined.

(** X6.  Every estimator of [POPULATION_AT_RISK] gives 0 people for no
    rise, never fewer people for a higher rise, and so no negative count
    for a rise that is not negative.  The estimate for the Maldives never
    exceeds 520000, and is 520000 from half a metre on. *)
Theorem population_at_risk_estimates (key : string) (estimate : Q -> Z) :
  own Impact.POPULATION_AT_RISK key = Some estimate ->
  estimate 0 = 0%Z
  /\ (forall a b, a <= b -> (estimate a <= estimate b)%Z)
  /\ (forall a, 0 <= a -> (0 <= estimate a)%Z)
  /\ (key = "maldives"%string ->
      forall a, (estimate a <= 520000)%Z /\ (0.5 <= a -> estimate a = 520000%Z)).
Proof.
  intro Hown.
  assert (Hlin : forall c : Q, 0 <= c ->
            (fun slr => Geoid.Math_round (slr * c)) 0 = 0%Z
            /\ forall a b, a <= b ->
                 (Geoid.Math_round (a * c) <= Geoid.Math_round (b * c))%Z).
  { intros c Hc. split.
    { unfold Geoid.Math_round.
      rewrite (@Qfloor_comp (0 * c + 0.5) 0.5) by ring. reflexivity. }
    intros a b Hab. apply Rounding.Math_round_monotone. nra. }
  assert (Hmal : forall a,
            (Z.min 520000
               (Geoid.Math_round
                  (if negb (Qle_bool a 0.5) then 520000 else a * 1040000))
             <= 520000)%Z) by (intro; lia).
  assert (Hmono : forall a b, a <= b ->
            (Z.min 520000
               (Geoid.Math_round
                  (if negb (Qle_bool a 0.5) then 520000 else a * 1040000))
             <= Z.min 520000
                  (Geoid.Math_round
                     (if negb (Qle_bool b 0.5) then 520000 else b * 1040000)))%Z).
  { intros a b Hab.
    destruct (Qle_bool a 0.5) eqn:Ea, (Qle_bool b 0.5) eqn:Eb; tests; cbn [negb].
    - apply Z.min_le_compat_l, Rounding.Math_round_monotone. lra.
    - change (Geoid.Math_round 520000)
        with (Geoid.Math_round (inject_Z 520000)).
      rewrite Rounding.Math_round_integer. lia.
    - exfalso. lra.
    - lia. }
  assert (Hzero : forall f : Q -> Z,
            f 0 = 0%Z -> (forall a b, a <= b -> (f a <= f b)%Z) ->
            forall a, 0 <= a -> (0 <= f a)%Z).
  { intros f H0 Hm a Ha. rewrite <- H0. now apply Hm. }
  unfold Impact.POPULATION_AT_RISK, own in Hown.
  repeat match type of Hown with
  | (if String.eqb ?k key then _ else _) = _ =>
      let E := fresh "E" in
      destruct (String.eqb k key) eqn:E;
      [apply String.eqb_eq in E; subst key; injection Hown as <- | clear E]
  end; try discriminate Hown.
  all: try (match goal with
            | |- Geoid.Math_round (0 * ?c) = _ /\ _ =>
                destruct (Hlin c ltac:(lra)) as [Z0 M];
                split; [exact Z0 | split; [exact M | split;
                  [apply (Hzero (fun slr => Geoid.Math_round (slr * c)) Z0 M)
                  | intro K; discriminate K]]]
            end).
  split; [reflexivity |]. split; [exact Hmono |].
  split; [apply Hzero; [reflexivity | exact Hmono] |].
  intros _ a. split; [apply Hmal |].
  intro Ha. destruct (Qle_bool a 0.5) eqn:Ea; tests; cbn [negb].
  - assert (E : a * 1040000 == inject_Z 520000)
      by (change (inject_Z 520000) with 520000; lra).
    unfold Geoid.Math_round. rewrite E.
    change (Qfloor (inject_Z 520000 + 0.5)) with (Geoid.Math_round (inject_Z 520000)).
    rewrite Rounding.Math_round_integer. reflexivity.
  - change (Geoid.Math_round 520000)
      with (Geoid.Math_round (inject_Z 520000)).
    rewrite Rounding.Math_round_integer. reflexivity.
Qed.

Lemma population_at_risk_estimates_witness :
  let estimate :=
    fun slr : Q =>
      Z.min 520000
        (Geoid.Math_round
           (if negb (Qle_bool slr 0.5) then 520000 else slr * 1040000)) in
  own Impact.POPULATION_AT_RISK "maldives" = Some estimate
  /\ (estimate 0.3%Q <= estimate 0.5%Q)%Z /\ estimate 2 = 520000%Z.
Proof.
  intro estimate.
  assert (H : own Impact.POPULATION_AT_RISK "maldives" = Some estimate)
    by reflexivity.
  destruct (@population_at_risk_estimates "maldives" estimate H)
    as (_ & Hm & _ & Hcap).
  split; [exact H | split].
  - apply Hm. vm_compute. discriminate.
  - apply (Hcap eq_refl 2). vm_compute. discriminate.
Defined.

End ImpactFacts.

Module LocationFacts.
Import Js.
Local Open Scope Q_scope.

(** X7.  [getLocationById] finds every location of [LOCATIONS] under its
    own id (no two entries share one), returns an entry of the table
    carrying the id asked for whenever it returns one, and returns
    [undefined] for any other id.  The ids of the table are, in the same
    order, the keys of [POPULATION_AT_RISK], so the stats panel has an
    estimator for each location it can look up; for the Maldives the cap
    of the estimator is the population of the entry: no estimate exceeds
    it, and the estimate for a rise of 1 m is equal to it. *)
Theorem getLocationById_table :
  (forall loc, In loc Locations.LOCATIONS ->
     Locations.getLocationById (Locations.id loc) = Some loc)
  /\ (forall id loc, Locations.getLocationById id = Some loc ->
        In loc Locations.LOCATIONS /\ Locations.id loc = id)
  /\ (forall id, ~ In id (map Locations.id Locations.LOCATIONS) ->
        Locations.getLocationById id = None)
  /\ map Locations.id Locations.LOCATIONS = keys Impact.POPULATION_AT_RISK
  /\ (forall loc estimate slr,
        Locations.getLocationById "maldives" = Some loc ->
        own Impact.POPULATION_AT_RISK "maldives" = Some estimate ->
        (estimate slr <= Locations.population loc)%Z
        /\ estimate 1 = Locations.population loc).
Proof.
  split; [| split; [| split; [| split]]].
  - intros loc Hin. unfold Locations.LOCATIONS in Hin. simpl in Hin.
    repeat (destruct Hin as [<- | Hin]; [reflexivity |]). contradiction.
  - intros id loc H. unfold Locations.getLocationById in H.
    apply find_some in H. destruct H as [Hin Heq].
    split; [exact Hin | now apply String.eqb_eq].
  - intros id Hid. unfold Locations.getLocationById.
    destruct (find _ Locations.LOCATIONS) as [loc |] eqn:E; [| reflexivity].
    apply find_some in E. destruct E as [Hin Heq].
    apply String.eqb_eq in Heq. exfalso. apply Hid. subst id.
    now apply in_map.
  - reflexivity.
  - intros loc estimate slr Hloc Hest.
    injection Hloc as <-. injection Hest as <-.
    cbn [Locations.population]. split; [lia | reflexivity].
Qed.

End LocationFacts.

(* ================================================================== *)
(** ** The resolver: the shape of a pathway *)
(* ================================================================== *)

Module PathwayFacts.
Import Js Projections Tactics.
Local Open Scope Q_scope.

Lemma fraction_range (y0 y1 : Z) (year : Q) :
  (y0 < y1)%Z -> inject_Z y0 <= year -> year <= inject_Z y1 ->
  0 <= Spec.fraction y0 y1 year /\ Spec.fraction y0 y1 year <= 1.
Proof.
  intros H Hlo Hhi. pose proof (ResolverFacts.inject_Z_lt H) as Hq.
  unfold Spec.fraction. split.
  - apply Qle_shift_div_l; lra.
  - apply Qle_shift_div_r; lra.
Qed.

Lemma fraction_monotone (y0 y1 : Z) (year year' : Q) :
  (y0 < y1)%Z -> year <= year' ->
  Spec.fraction y0 y1 year <= Spec.fraction y0 y1 year'.
Proof.
  intros H Hle. pose proof (ResolverFacts.inject_Z_lt H) as Hq.
  unfold Spec.fraction, Qdiv.
  apply Qmult_le_compat_r; [lra |].
  apply Qlt_le_weak, Qinv_lt_0_compat. lra.
Qed.

Lemma fraction_end (y0 y1 : Z) :
  (y0 < y1)%Z -> Spec.fraction y0 y1 (inject_Z y1) == 1.
Proof.
  intro H. pose proof (ResolverFacts.inject_Z_lt H) as Hq.
  unfold Spec.fraction. field. lra.
Qed.

Section Pathway.
Variables (ya yb yc : Z).
Hypothesis Hab : (ya < yb)%Z.
Hypothesis Hbc : (yb < yc)%Z.

(** A pathway through rising anchors rises, between its first and its
    last anchor. *)
Lemma pathway_monotone (ta tb tc : Q) (year year' : Q) :
  ta <= tb -> tb <= tc -> year <= year' ->
  ta <= Spec.pathway ya yb yc ta tb tc year
  /\ Spec.pathway ya yb yc ta tb tc year <= Spec.pathway ya yb yc ta tb tc year'
  /\ Spec.pathway ya yb yc ta tb tc year' <= tc.
Proof.
  intros Hta Htb Hy.
  pose proof (ResolverFacts.inject_Z_lt Hab) as Qab.
  pose proof (ResolverFacts.inject_Z_lt Hbc) as Qbc.
  assert (Fab : forall y, inject_Z ya <= y -> y <= inject_Z yb ->
            0 <= Spec.fraction ya yb y <= 1)
    by (intros; now apply fraction_range).
  assert (Fbc : forall y, inject_Z yb <= y -> y <= inject_Z yc ->
            0 <= Spec.fraction yb yc y <= 1)
    by (intros; now apply fraction_range).
  pose proof (@fraction_monotone ya yb year year' Hab Hy) as Mab.
  pose proof (@fraction_monotone yb yc year year' Hbc Hy) as Mbc.
  unfold Spec.pathway.
  repeat decide_test;
    repeat match goal with
    | |- context [Spec.fraction ya yb ?y] =>
        let F := fresh "F" in
        assert (F := Fab y ltac:(lra) ltac:(lra));
        generalize dependent (Spec.fraction ya yb y); intros
    | |- context [Spec.fraction yb yc ?y] =>
        let F := fresh "F" in
        assert (F := Fbc y ltac:(lra) ltac:(lra));
        generalize dependent (Spec.fraction yb yc y); intros
    end; nra.
Qed.

(** Of two pathways through the same years, the one with the higher
    anchors is the higher one throughout. *)
Lemma pathway_pointwise (ta tb tc ta' tb' tc' : Q) (year : Q) :
  ta <= ta' -> tb <= tb' -> tc <= tc' ->
  Spec.pathway ya yb yc ta tb tc year <= Spec.pathway ya yb yc ta' tb' tc' year.
Proof.
  intros Ha Hb Hc.
  pose proof (ResolverFacts.inject_Z_lt Hab) as Qab.
  pose proof (ResolverFacts.inject_Z_lt Hbc) as Qbc.
  unfold Spec.pathway.
  repeat decide_test; try lra.
  - destruct (@fraction_range ya yb year Hab ltac:(lra) ltac:(lra)) as [F0 F1].
    generalize dependent (Spec.fraction ya yb year). intros. nra.
  - destruct (@fraction_range yb yc year Hbc ltac:(lra) ltac:(lra)) as [F0 F1].
    generalize dependent (Spec.fraction yb yc year). intros. nra.
Qed.

(** Between two years a pathway changes by at most its steepest slope
    times the distance. *)
Lemma pathway_slope (ta tb tc slope : Q) (year year' : Q) :
  ta <= tb -> tb <= tc ->
  tb - ta <= slope * (inject_Z yb - inject_Z ya) ->
  tc - tb <= slope * (inject_Z yc - inject_Z yb) ->
  year <= year' ->
  Spec.pathway ya yb yc ta tb tc year' - Spec.pathway ya yb yc ta tb tc year
  <= slope * (year' - year).
Proof.
  intros Hta Htb Hs1 Hs2 Hy.
  pose proof (ResolverFacts.inject_Z_lt Hab) as Qab.
  pose proof (ResolverFacts.inject_Z_lt Hbc) as Qbc.
  assert (Hslope : 0 <= slope) by nra.
  assert (Lab : forall y, inject_Z ya <= y -> y <= inject_Z yb ->
            (tb - ta) * Spec.fraction ya yb y <= slope * (y - inject_Z ya)
            /\ (tb - ta) * (1 - Spec.fraction ya yb y) <= slope * (inject_Z yb - y)).
  { intros y H1 H2.
    assert (E : Spec.fraction ya yb y * (inject_Z yb - inject_Z ya)
                == y - inject_Z ya)
      by (unfold Spec.fraction; field; lra).
    destruct (@fraction_range ya yb y Hab H1 H2) as [F0 F1].
    generalize dependent (Spec.fraction ya yb y). intros f E F0 F1.
    split; nra. }
  assert (Lbc : forall y, inject_Z yb <= y -> y <= inject_Z yc ->
            (tc - tb) * Spec.fraction yb yc y <= slope * (y - inject_Z yb)
            /\ (tc - tb) * (1 - Spec.fraction yb yc y) <= slope * (inject_Z yc - y)).
  { intros y H1 H2.
    assert (E : Spec.fraction yb yc y * (inject_Z yc - inject_Z yb)
                == y - inject_Z yb)
      by (unfold Spec.fraction; field; lra).
    destruct (@fraction_range yb yc y Hbc H1 H2) as [F0 F1].
    generalize dependent (Spec.fraction yb yc y). intros f E F0 F1.
    split; nra. }
  assert (Dab : inject_Z ya <= year -> year' <= inject_Z yb ->
            (tb - ta) * (Spec.fraction ya yb year' - Spec.fraction ya yb year)
            <= slope * (year' - year)).
  { intros H1 H2.
    assert (E : (Spec.fraction ya yb year' - Spec.fraction ya yb year)
                * (inject_Z yb - inject_Z ya) == year' - year)
      by (unfold Spec.fraction; field; lra).
    pose proof (@fraction_monotone ya yb year year' Hab Hy) as M.
    generalize dependent (Spec.fraction ya yb year').
    generalize dependent (Spec.fraction ya yb year). intros f f' E M. nra. }
  assert (Dbc : inject_Z yb <= year -> year' <= inject_Z yc ->
            (tc - tb) * (Spec.fraction yb yc year' - Spec.fraction yb yc year)
            <= slope * (year' - year)).
  { intros H1 H2.
    assert (E : (Spec.fraction yb yc year' - Spec.fraction yb yc year)
                * (inject_Z yc - inject_Z yb) == year' - year)
      by (unfold Spec.fraction; field; lra).
    pose proof (@fraction_monotone yb yc year year' Hbc Hy) as M.
    generalize dependent (Spec.fraction yb yc year').
    generalize dependent (Spec.fraction yb yc year). intros f f' E M. nra. }
  unfold Spec.pathway.
  repeat decide_test;
    try (specialize (Dab ltac:(lra) ltac:(lra)));
    try (specialize (Dbc ltac:(lra) ltac:(lra)));
    try (pose proof (Lab year ltac:(lra) ltac:(lra)));
    try (pose proof (Lab year' ltac:(lra) ltac:(lra)));
    try (pose proof (Lbc year ltac:(lra) ltac:(lra)));
    try (pose proof (Lbc year' ltac:(lra) ltac:(lra)));
    clear Lab Lbc;
    try generalize dependent (Spec.fraction ya yb year');
    try generalize dependent (Spec.fraction ya yb year);
    try generalize dependent (Spec.fraction yb yc year');
    try generalize dependent (Spec.fraction yb yc year);
    intros; nra.
Qed.

Variables (ta tb tc : Q) (id : string) (s : @Scenario Q).
Hypothesis Hown : own (@SCENARIO_DATA Q Exact) id = Some s.
Hypothesis Htable : temperaturesByYear s = [(ya, ta); (yb, tb); (yc, tc)].

(** What the resolver returns, in one formula for every year. *)
Lemma resolves_to_pathway (year : Q) :
  exists v,
    @getProjectedTemp Q Exact id year = Return (Num v)
    /\ v == Spec.pathway ya yb yc ta tb tc year.
Proof.
  pose proof (ResolverFacts.inject_Z_lt Hab) as Qab.
  pose proof (ResolverFacts.inject_Z_lt Hbc) as Qbc.
  rewrite (@ResolverFacts.resolve_three ya yb yc ta tb tc Hab Hbc id s Hown Htable year).
  destruct (@ResolverFacts.at_year_three ya yb yc ta tb tc Hab Hbc year)
    as (Ea & Eb & Ec & En).
  destruct (Qeq_dec year (inject_Z ya)) as [Ha | Ha].
  { rewrite (Ea Ha). eexists. split; [reflexivity |].
    unfold Spec.pathway. repeat decide_test. reflexivity. }
  destruct (Qeq_dec year (inject_Z yb)) as [Hb | Hb].
  { rewrite (Eb Hb). eexists. split; [reflexivity |].
    unfold Spec.pathway. repeat decide_test.
    unfold Spec.fraction. rewrite Hb. field. lra. }
  destruct (Qeq_dec year (inject_Z yc)) as [Hc | Hc].
  { rewrite (Ec Hc). eexists. split; [reflexivity |].
    unfold Spec.pathway. repeat decide_test. reflexivity. }
  rewrite (En Ha Hb Hc). unfold Spec.pathway, Spec.fraction.
  repeat decide_test; eexists; (split; [reflexivity |]); reflexivity.
Qed.

End Pathway.

Lemma scenario_anchors (id : string) (s : @Scenario Q) :
  own (@SCENARIO_DATA Q Exact) id = Some s ->
  exists ta tb tc,
    temperaturesByYear s = [(2030%Z, ta); (2050%Z, tb); (2100%Z, tc)]
    /\ ta <= tb /\ tb <= tc.
Proof.
  unfold SCENARIO_DATA. cbn [own].
  repeat match goal with
  | |- (if String.eqb ?k id then _ else _) = _ -> _ =>
      destruct (String.eqb k id);
      [intro E; injection E as <-; do 3 eexists;
       split; [reflexivity | split; vm_compute; discriminate] |]
  end.
  discriminate.
Qed.

(** X8.  For a registered scenario the projected temperature never falls
    as the year advances, and it stays between the temperature of the
    scenario's earliest anchor and that of its latest, for every year
    (fractional, before 2030 or after 2100 included). *)
Theorem getProjectedTemp_monotone (id : string) (s : @Scenario Q)
    (year year' : Q) :
  own (@SCENARIO_DATA Q Exact) id = Some s ->
  year <= year' ->
  exists v v' lo hi,
    @getProjectedTemp Q Exact id year = Return (Num v)
    /\ @getProjectedTemp Q Exact id year' = Return (Num v')
    /\ option_map snd (hd_error (Spec.anchors s)) = Some lo
    /\ last (map snd (Spec.anchors s)) 0 = hi
    /\ lo <= v /\ v <= v' /\ v' <= hi.
Proof.
  intros Hown Hy.
  destruct (scenario_anchors id Hown) as (ta & tb & tc & Ht & Hab & Hbc).
  assert (H1 : (2030 < 2050)%Z) by lia. assert (H2 : (2050 < 2100)%Z) by lia.
  destruct (@resolves_to_pathway 2030 2050 2100 H1 H2 ta tb tc id s Hown Ht year)
    as (v & Hv & Ev).
  destruct (@resolves_to_pathway 2030 2050 2100 H1 H2 ta tb tc id s Hown Ht year')
    as (v' & Hv' & Ev').
  exists v, v', ta, tc.
  rewrite (@ResolverFacts.anchors_three 2030 2050 2100 ta tb tc H1 H2 s Ht).
  split; [exact Hv |]. split; [exact Hv' |].
  split; [reflexivity |]. split; [reflexivity |].
  rewrite Ev, Ev'.
  apply (@pathway_monotone 2030 2050 2100 H1 H2 ta tb tc year year' Hab Hbc Hy).
Qed.

Lemma getProjectedTemp_monotone_witness :
  exists v v' lo hi,
    @getProjectedTemp Q Exact "ssp585" 2037.5 = Return (Num v)
    /\ @getProjectedTemp Q Exact "ssp585" 2080 = Return (Num v')
    /\ option_map snd
         (hd_error
            (Spec.anchors
               {| id := "ssp585"; label := "SSP5-8.5";
                  description := "High emissions, high warming pathway";
                  temperaturesByYear :=
                    [(2030%Z, 1.8); (2050%Z, 2.7); (2100%Z, 4.4)] |})) = Some lo
    /\ last (map snd
               (Spec.anchors
                  {| id := "ssp585"; label := "SSP5-8.5";
                     description := "High emissions, high warming pathway";
                     temperaturesByYear :=
                       [(2030%Z, 1.8); (2050%Z, 2.7); (2100%Z, 4.4)] |})) 0 = hi
    /\ lo <= v /\ v <= v' /\ v' <= hi.
Proof.
  apply (@getProjectedTemp_monotone "ssp585"
           {| id := "ssp585"; label := "SSP5-8.5";
              description := "High emissions, high warming pathway";
              temperaturesByYear :=
                [(2030%Z, 1.8); (2050%Z, 2.7); (2100%Z, 4.4)] |} 2037.5 2080).
  - reflexivity.
  - vm_compute. discriminate.
Defined.

(** X9.  In every year, the three scenarios are in the order of their
    emissions: the temperature projected for ssp126 is at most that for
    ssp245, which is at most that for ssp585. *)
Theorem scenarios_ordered (year : Q) :
  exists low mid high,
    @getProjectedTemp Q Exact "ssp126" year = Return (Num low)
    /\ @getProjectedTemp Q Exact "ssp245" year = Return (Num mid)
    /\ @getProjectedTemp Q Exact "ssp585" year = Return (Num high)
    /\ low <= mid /\ mid <= high.
Proof.
  assert (H1 : (2030 < 2050)%Z) by lia. assert (H2 : (2050 < 2100)%Z) by lia.
  destruct (@resolves_to_pathway 2030 2050 2100 H1 H2 1.5 1.8 2.0 "ssp126" _
              eq_refl eq_refl year) as (low & Hlow & Elow).
  destruct (@resolves_to_pathway 2030 2050 2100 H1 H2 1.6 2.2 2.9 "ssp245" _
              eq_refl eq_refl year) as (mid & Hmid & Emid).
  destruct (@resolves_to_pathway 2030 2050 2100 H1 H2 1.8 2.7 4.4 "ssp585" _
              eq_refl eq_refl year) as (high & Hhigh & Ehigh).
  exists low, mid, high. repeat (split; [assumption |]).
  rewrite Elow, Emid, Ehigh.
  split; apply (@pathway_pointwise 2030 2050 2100 H1 H2); lra.
Qed.

(** X28.  No jumps.  For a registered scenario, the projected
    temperatures of two years differ by at most 0.045 degrees per year
    of distance (the steepest stretch of the table, ssp585 from 2030 to
    2050): the resolver is continuous in the year, across the anchors
    and into the flat parts before 2030 and after 2100. *)
Theorem getProjectedTemp_no_jump (id : string) (s : @Scenario Q)
    (year year' : Q) :
  own (@SCENARIO_DATA Q Exact) id = Some s ->
  exists v v',
    @getProjectedTemp Q Exact id year = Return (Num v)
    /\ @getProjectedTemp Q Exact id year' = Return (Num v')
    /\ Qabs (v' - v) <= 0.045 * Qabs (year' - year).
Proof.
  intros Hown.
  assert (H1 : (2030 < 2050)%Z) by lia. assert (H2 : (2050 < 2100)%Z) by lia.
  assert (Hs : exists ta tb tc,
            temperaturesByYear s = [(2030%Z, ta); (2050%Z, tb); (2100%Z, tc)]
            /\ ta <= tb /\ tb <= tc
            /\ tb - ta <= 0.045 * (inject_Z 2050 - inject_Z 2030)
            /\ tc - tb <= 0.045 * (inject_Z 2100 - inject_Z 2050)).
  { revert Hown. unfold SCENARIO_DATA. cbn [own].
    repeat match goal with
    | |- (if String.eqb ?k id then _ else _) = _ -> _ =>
        destruct (String.eqb k id);
        [intro E; injection E as <-; do 3 eexists;
         split; [reflexivity | repeat split; vm_compute; discriminate] |]
    end.
    discriminate. }
  destruct Hs as (ta & tb & tc & Ht & Hab & Hbc & S1 & S2).
  destruct (@resolves_to_pathway 2030 2050 2100 H1 H2 ta tb tc id s Hown Ht year)
    as (v & Hv & Ev).
  destruct (@resolves_to_pathway 2030 2050 2100 H1 H2 ta tb tc id s Hown Ht year')
    as (v' & Hv' & Ev').
  exists v, v'. split; [exact Hv |]. split; [exact Hv' |].
  rewrite Ev, Ev'.
  destruct (Qlt_le_dec year' year) as [L | L].
  - pose proof (@pathway_slope 2030 2050 2100 H1 H2 ta tb tc 0.045 year' year
                  Hab Hbc S1 S2 ltac:(lra)) as Hd.
    destruct (@pathway_monotone 2030 2050 2100 H1 H2 ta tb tc year' year
                Hab Hbc ltac:(lra)) as (_ & Hm & _).
    rewrite (Qabs_neg (year' - year)) by lra.
    rewrite Qabs_neg by lra. lra.
  - pose proof (@pathway_slope 2030 2050 2100 H1 H2 ta tb tc 0.045 year year'
                  Hab Hbc S1 S2 L) as Hd.
    destruct (@pathway_monotone 2030 2050 2100 H1 H2 ta tb tc year year'
                Hab Hbc L) as (_ & Hm & _).
    rewrite (Qabs_pos (year' - year)) by lra.
    rewrite Qabs_pos by lra. lra.
Qed.

Lemma getProjectedTemp_no_jump_witness :
  exists v v',
    @getProjectedTemp Q Exact "ssp585" 2049.5 = Return (Num v)
    /\ @getProjectedTemp Q Exact "ssp585" 2050.5 = Return (Num v')
    /\ Qabs (v' - v) <= 0.045 * Qabs (2050.5 - 2049.5).
Proof.
  apply (@getProjectedTemp_no_jump "ssp585"
           {| id := "ssp585"; label := "SSP5-8.5";
              description := "High emissions, high warming pathway";
              temperaturesByYear :=
                [(2030%Z, 1.8); (2050%Z, 2.7); (2100%Z, 4.4)] |}
           2049.5 2050.5).
  reflexivity.
Defined.

(** X10.  [getScenarioPresets] lists the three scenarios in the order of
    the table; looking a preset up by its own id gives the preset back;
    the years of [PROJECTION_YEARS] are exactly the anchor years of every
    preset, in the same order; and for each preset and each of these
    years the resolver returns the stored temperature itself, in exact
    arithmetic and bit for bit in binary64 (no interpolation is involved). *)
Theorem presets_resolve :
  (forall (num : Type) (arith : Arith num) (preset : @Scenario num),
     In preset (@getScenarioPresets num arith) ->
     @getScenarioById num arith (id preset) = Own preset
     /\ map fst (temperaturesByYear preset) = PROJECTION_YEARS)
  /\ map (@id Q) (@getScenarioPresets Q Exact) = Spec.registered
  /\ (forall preset y t,
        In preset (@getScenarioPresets Q Exact) ->
        In (y, t) (temperaturesByYear preset) ->
        @getProjectedTemp Q Exact (id preset) (Number y) = Return (Num t))
  /\ (forall preset y t,
        In preset (@getScenarioPresets _ Binary64) ->
        In (y, t) (temperaturesByYear preset) ->
        @getProjectedTemp _ Binary64 (id preset) (Number y) = Return (Num t)).
Proof.
  split; [| split; [reflexivity | split]].
  - intros num arith preset Hin.
    unfold getScenarioPresets, SCENARIO_DATA in Hin. simpl in Hin.
    repeat (destruct Hin as [<- | Hin]; [split; reflexivity |]). contradiction.
  - intros preset y t Hin Hy.
    unfold getScenarioPresets, SCENARIO_DATA in Hin. simpl in Hin.
    repeat (destruct Hin as [<- | Hin];
            [simpl in Hy;
             repeat (destruct Hy as [E | Hy];
                     [injection E as <- <-; vm_compute; reflexivity |]);
             contradiction |]).
    contradiction.
  - intros preset y t Hin Hy.
    unfold getScenarioPresets, SCENARIO_DATA in Hin. simpl in Hin.
    repeat (destruct Hin as [<- | Hin];
            [simpl in Hy;
             repeat (destruct Hy as [E | Hy];
                     [injection E as <- <-; vm_compute; reflexivity |]);
             contradiction |]).
    contradiction.
Qed.

End PathwayFacts.

(* ================================================================== *)
(** ** The geoid texture: range, saturation and order of the codes *)
(* ================================================================== *)

Module GeoidCodec.
Local Open Scope Q_scope.

(** The clamped, normalized undulation. *)
Lemma clamped_range (x : Q) : 0 <= Qmax 0 (Qmin 1 x) /\ Qmax 0 (Qmin 1 x) <= 1.
Proof.
  split; [apply Q.le_max_l |].
  apply Q.max_lub; [lra | apply Q.le_min_l].
Qed.

Lemma clamped_monotone (x y : Q) :
  x <= y -> Qmax 0 (Qmin 1 x) <= Qmax 0 (Qmin 1 y).
Proof.
  intro H. apply Q.max_le_compat_l. apply Q.min_le_compat_l. exact H.
Qed.

Lemma normalized_monotone (v w : Q) :
  v <= w ->
  (v - Geoid.GEOID_MIN) / Geoid.GEOID_RANGE <= (w - Geoid.GEOID_MIN) / Geoid.GEOID_RANGE.
Proof.
  intro H. unfold Qdiv. apply Qmult_le_compat_r; [lra |].
  vm_compute. discriminate.
Qed.

(** The code of the pixel written for [v]. *)
Lemma encode_code (v : Q) :
  Spec.code (Geoid.encode v)
  = Geoid.Math_round
      (Qmax 0 (Qmin 1 ((v - Geoid.GEOID_MIN) / Geoid.GEOID_RANGE)) * 65535)
  /\ (0 <= Spec.code (Geoid.encode v) <= 65535)%Z
  /\ (0 <= Geoid.R (Geoid.encode v) <= 255)%Z
  /\ (0 <= Geoid.G (Geoid.encode v) <= 255)%Z.
Proof.
  unfold Spec.code, Geoid.encode. cbn [Geoid.R Geoid.G].
  set (x := (v - Geoid.GEOID_MIN) / Geoid.GEOID_RANGE).
  destruct (clamped_range x) as [H0 H1].
  set (e := Geoid.Math_round (Qmax 0 (Qmin 1 x) * 65535)).
  assert (He : (0 <= e <= 65535)%Z).
  { apply GeoidFacts.Math_round_range; [nra |].
    change (inject_Z 65535) with 65535. nra. }
  destruct (GeoidFacts.bytes_of_word He) as (Hhi & Hlo & Hsplit).
  rewrite Hsplit. tauto.
Qed.

(** What the shader decodes from a pixel, by its code. *)
Lemma decode_code (p : Geoid.Pixel) :
  Spec.decode p
  == inject_Z (Spec.code p) / 65535 * Geoid.GEOID_RANGE + Geoid.GEOID_MIN.
Proof.
  unfold Spec.decode, Spec.code, FloodVisualization.texel.
  cbn [FloodVisualization.r FloodVisualization.g].
  rewrite inject_Z_plus, inject_Z_mult. change (inject_Z 256) with 256.
  field.
Qed.

Lemma decode_monotone (p q : Geoid.Pixel) :
  (Spec.code p <= Spec.code q)%Z -> Spec.decode p <= Spec.decode q.
Proof.
  intro H. rewrite !decode_code. rewrite Zle_Qle in H.
  apply Qplus_le_l. apply Qmult_le_compat_r; [| vm_compute; discriminate].
  unfold Qdiv. apply Qmult_le_compat_r; [exact H | vm_compute; discriminate].
Qed.

(** X11.  Whatever the undulation (in range or not), the pixel written
    for it has red and green channels that are bytes, blue 0 and alpha
    255.  An undulation at or below [GEOID_MIN] saturates to the code 0
    (bytes 0, 0) and one at or above [GEOID_MAX] to the code 65535 (bytes
    255, 255), and the value the shader decodes from the pixel always
    lies between [GEOID_MIN] and [GEOID_MAX]. *)
Theorem encode_channels (v : Q) :
  ((0 <= Geoid.R (Geoid.encode v) <= 255)%Z
   /\ (0 <= Geoid.G (Geoid.encode v) <= 255)%Z
   /\ Geoid.B (Geoid.encode v) = 0%Z
   /\ Geoid.A (Geoid.encode v) = 255%Z)
  /\ (v <= Geoid.GEOID_MIN ->
      Geoid.R (Geoid.encode v) = 0%Z /\ Geoid.G (Geoid.encode v) = 0%Z
      /\ Spec.decode (Geoid.encode v) == Geoid.GEOID_MIN)
  /\ (Geoid.GEOID_MAX <= v ->
      Geoid.R (Geoid.encode v) = 255%Z /\ Geoid.G (Geoid.encode v) = 255%Z
      /\ Spec.decode (Geoid.encode v) == Geoid.GEOID_MAX)
  /\ (Geoid.GEOID_MIN <= Spec.decode (Geoid.encode v)
      /\ Spec.decode (Geoid.encode v) <= Geoid.GEOID_MAX).
Proof.
  destruct (encode_code v) as (Hcode & Hrange & HR & HG).
  split; [repeat split; try apply HR; try apply HG |].
  assert (Hsat : forall c : Z,
            Qmax 0 (Qmin 1 ((v - Geoid.GEOID_MIN) / Geoid.GEOID_RANGE))
              == inject_Z c ->
            Spec.code (Geoid.encode v) = (c * 65535)%Z).
  { intros c Hc. rewrite Hcode. unfold Geoid.Math_round.
    rewrite (@Qfloor_comp _ (inject_Z (c * 65535) + 0.5)).
    - apply Rounding.Qfloor_unique; [lra |].
      rewrite inject_Z_plus. change (inject_Z 1) with 1. lra.
    - rewrite Hc, inject_Z_mult. reflexivity. }
  split; [| split].
  - intro Hv.
    assert (Hn : (v - Geoid.GEOID_MIN) / Geoid.GEOID_RANGE <= 0).
    { unfold Qdiv. setoid_replace 0 with (0 * / Geoid.GEOID_RANGE) by ring.
      apply Qmult_le_compat_r; [lra | vm_compute; discriminate]. }
    assert (Hc : Spec.code (Geoid.encode v) = 0%Z).
    { apply (Hsat 0%Z). rewrite Q.min_r by lra. now rewrite Q.max_l. }
    assert (HRG : Geoid.R (Geoid.encode v) = 0%Z /\ Geoid.G (Geoid.encode v) = 0%Z)
      by (unfold Spec.code in Hc; lia).
    split; [apply HRG | split; [apply HRG |]].
    rewrite decode_code, Hc. vm_compute. reflexivity.
  - intro Hv.
    assert (Hn : 1 <= (v - Geoid.GEOID_MIN) / Geoid.GEOID_RANGE).
    { apply Qle_shift_div_l; [vm_compute; reflexivity |].
      unfold Geoid.GEOID_RANGE, Geoid.GEOID_MAX, Geoid.GEOID_MIN in *. lra. }
    assert (Hc : Spec.code (Geoid.encode v) = 65535%Z).
    { apply (Hsat 1%Z). rewrite Q.min_l by lra. now rewrite Q.max_r. }
    assert (HRG : Geoid.R (Geoid.encode v) = 255%Z
                  /\ Geoid.G (Geoid.encode v) = 255%Z)
      by (unfold Spec.code in Hc; lia).
    split; [apply HRG | split; [apply HRG |]].
    rewrite decode_code, Hc. vm_compute. reflexivity.
  - rewrite decode_code.
    assert (H0 : 0 <= inject_Z (Spec.code (Geoid.encode v)))
      by (change 0 with (inject_Z 0); rewrite <- Zle_Qle; lia).
    assert (H1 : inject_Z (Spec.code (Geoid.encode v)) <= 65535)
      by (change 65535 with (inject_Z 65535); rewrite <- Zle_Qle; lia).
    unfold Geoid.GEOID_RANGE, Geoid.GEOID_MAX, Geoid.GEOID_MIN.
    set (a := inject_Z (Spec.code (Geoid.encode v))) in *.
    assert (Hx : 0 <= a / 65535 /\ a / 65535 <= 1)
      by (split; [apply Qle_shift_div_l; lra | apply Qle_shift_div_r; lra]).
    generalize dependent (a / 65535). intros x Hx. split; lra.
Qed.

(** X12.  The encoding keeps the order of undulations: a higher
    undulation never gets a smaller 16-bit code, so what the shader
    decodes from the texture never inverts two heights of the geoid. *)
Theorem encode_monotone (v w : Q) :
  v <= w ->
  (Spec.code (Geoid.encode v) <= Spec.code (Geoid.encode w))%Z
  /\ Spec.decode (Geoid.encode v) <= Spec.decode (Geoid.encode w).
Proof.
  intro H.
  assert (Hc : (Spec.code (Geoid.encode v) <= Spec.code (Geoid.encode w))%Z).
  { destruct (encode_code v) as (-> & _). destruct (encode_code w) as (-> & _).
    apply Rounding.Math_round_monotone.
    pose proof (clamped_monotone (normalized_monotone H)). lra. }
  split; [exact Hc | now apply decode_monotone].
Qed.

Lemma encode_monotone_witness :
  (Spec.code (Geoid.encode (-45)) <= Spec.code (Geoid.encode 46))%Z
  /\ Spec.decode (Geoid.encode (-45)) <= Spec.decode (Geoid.encode 46).
Proof.
  apply (@encode_monotone (-45) 46). vm_compute. discriminate.
Defined.

End GeoidCodec.

(* ================================================================== *)
(** ** The shaders: soft edge, opacity and the geoid correction *)
(* ================================================================== *)

Module ShaderFacts.
Import Js FloodVisualization Tactics.
Local Open Scope Q_scope.

Lemma clamp_unit_range (x : Q) : 0 <= clamp x 0 1 /\ clamp x 0 1 <= 1.
Proof.
  unfold clamp. split.
  - apply Q.min_glb; [apply Q.le_max_r | lra].
  - apply Q.le_min_r.
Qed.

Lemma clamp_unit_monotone (x y : Q) : x <= y -> clamp x 0 1 <= clamp y 0 1.
Proof.
  intro H. unfold clamp.
  apply Q.min_le_compat_r. apply Q.max_le_compat_r. exact H.
Qed.

Lemma clamp_unit_low (x : Q) : x <= 0 -> clamp x 0 1 == 0.
Proof.
  intro H. unfold clamp. rewrite (Q.max_r x 0 H). apply Q.min_l. lra.
Qed.

Lemma clamp_unit_high (x : Q) : 1 <= x -> clamp x 0 1 == 1.
Proof.
  intro H. unfold clamp. rewrite (Q.max_l x 0) by lra. now apply Q.min_r.
Qed.

(** The Hermite polynomial [t * t * (3 - 2 * t)] on the unit interval. *)
Lemma hermite_range (t : Q) : 0 <= t -> t <= 1 -> 0 <= t * t * (3 - 2 * t) <= 1.
Proof.
  intros H0 H1.
  assert (A : 0 <= t * t) by nra.
  assert (B : 0 <= (1 - t) * (1 - t)) by nra.
  split; nra.
Qed.

Lemma hermite_monotone (a b : Q) :
  0 <= a -> a <= b -> b <= 1 -> a * a * (3 - 2 * a) <= b * b * (3 - 2 * b).
Proof.
  intros H0 Hab H1.
  assert (E : b * b * (3 - 2 * b) - a * a * (3 - 2 * a)
              == (b - a) * (3 * (a + b) - 2 * (a * a + a * b + b * b))) by ring.
  assert (F : 0 <= 3 * (a + b) - 2 * (a * a + a * b + b * b)) by nra.
  assert (G : 0 <= (b - a) * (3 * (a + b) - 2 * (a * a + a * b + b * b)))
    by (apply Qmult_le_0_compat; lra).
  lra.
Qed.

Lemma smoothstep_range (edge0 edge1 x : Q) :
  0 <= smoothstep edge0 edge1 x /\ smoothstep edge0 edge1 x <= 1.
Proof.
  unfold smoothstep. cbv zeta.
  destruct (clamp_unit_range ((x - edge0) / (edge1 - edge0))).
  now apply hermite_range.
Qed.

Lemma smoothstep_monotone (edge0 edge1 x y : Q) :
  edge0 < edge1 -> x <= y ->
  smoothstep edge0 edge1 x <= smoothstep edge0 edge1 y.
Proof.
  intros He Hxy. unfold smoothstep. cbv zeta.
  destruct (clamp_unit_range ((x - edge0) / (edge1 - edge0))).
  destruct (clamp_unit_range ((y - edge0) / (edge1 - edge0))).
  apply hermite_monotone; try assumption.
  apply clamp_unit_monotone. unfold Qdiv.
  apply Qmult_le_compat_r; [lra |].
  apply Qlt_le_weak, Qinv_lt_0_compat. lra.
Qed.

Lemma smoothstep_below (edge0 edge1 x : Q) :
  edge0 < edge1 -> x <= edge0 -> smoothstep edge0 edge1 x == 0.
Proof.
  intros He Hx. unfold smoothstep. cbv zeta.
  rewrite clamp_unit_low; [ring |].
  unfold Qdiv. setoid_replace 0 with (0 * / (edge1 - edge0)) by ring.
  apply Qmult_le_compat_r; [lra |].
  apply Qlt_le_weak, Qinv_lt_0_compat. lra.
Qed.

Lemma smoothstep_above (edge0 edge1 x : Q) :
  edge0 < edge1 -> edge1 <= x -> smoothstep edge0 edge1 x == 1.
Proof.
  intros He Hx. unfold smoothstep. cbv zeta.
  rewrite clamp_unit_high; [ring |].
  apply Qle_shift_div_l; lra.
Qed.

(** Moving the edges and the argument by the same amount changes
    nothing. *)
Lemma smoothstep_shift (edge0 edge1 x g : Q) :
  smoothstep (g + edge0) (g + edge1) x == smoothstep edge0 edge1 (x - g).
Proof.
  unfold smoothstep. cbv zeta.
  assert (E : (x - (g + edge0)) / (g + edge1 - (g + edge0))
              == (x - g - edge0) / (edge1 - edge0)).
  { unfold Qdiv.
    setoid_replace (g + edge1 - (g + edge0)) with (edge1 - edge0) by ring.
    setoid_replace (x - (g + edge0)) with (x - g - edge0) by ring.
    reflexivity. }
  unfold clamp. rewrite E. reflexivity.
Qed.

(** The two shaders, as instances of their common body. *)
Lemma geoid_shade (u : GeoidUniforms.t) (materialInput : czm_materialInput) :
  FLOOD_SHADER_GEOID u materialInput =
    if gt (waterMask materialInput) 0.5
    then {| diffuse := (0, 0, 0); alpha := 0.0 |}
    else Spec.shade (GeoidUniforms.waterAlpha u) (height materialInput)
           (geoidUndulation u materialInput + GeoidUniforms.seaLevelRise u)
           (gt (GeoidUniforms.seaLevelRise u) 0.0)
           (gt (GeoidUniforms.comparisonSLR u) 0.0)
           (geoidUndulation u materialInput + GeoidUniforms.comparisonSLR u).
Proof. reflexivity. Qed.

Lemma fallback_shade (u : FallbackUniforms.t) (materialInput : czm_materialInput) :
  FLOOD_SHADER_FALLBACK u materialInput =
    if gt (waterMask materialInput) 0.5
    then {| diffuse := (0, 0, 0); alpha := 0.0 |}
    else Spec.shade (FallbackUniforms.waterAlpha u) (height materialInput)
           (FallbackUniforms.floodLevel u)
           (gt (FallbackUniforms.floodLevel u) 0.0)
           (ne (FallbackUniforms.comparisonLevel u) 0.0)
           (FallbackUniforms.comparisonLevel u).
Proof. reflexivity. Qed.

(** The flood mask around a surface. *)
Lemma mask_facts (surface h : Q) :
  let mask := fun x => 1.0 - smoothstep (surface - 0.35) (surface + 0.35) x in
  (0 <= mask h /\ mask h <= 1)
  /\ (forall h', h <= h' -> mask h' <= mask h)
  /\ (h <= surface - 0.35 -> mask h == 1)
  /\ (surface + 0.35 <= h -> mask h == 0).
Proof.
  intro mask. unfold mask.
  assert (He : surface - 0.35 < surface + 0.35) by lra.
  destruct (smoothstep_range (surface - 0.35) (surface + 0.35) h) as [R0 R1].
  split; [split; lra |]. split; [| split].
  - intros h' Hh.
    pose proof (@smoothstep_monotone _ _ h h' He Hh). lra.
  - intro Hh. rewrite (@smoothstep_below _ _ h He Hh). reflexivity.
  - intro Hh. rewrite (@smoothstep_above _ _ h He Hh). reflexivity.
Qed.

Ltac test_gt :=
  match goal with
  | |- context [gt ?a ?b] =>
      let E := fresh "E" in
      destruct (gt a b) eqn:E;
      [apply FloodFacts.gt_true in E | apply FloodFacts.gt_false in E]
  end.

(** The common body without the comparison step. *)
Lemma shade_flood (waterAlpha h surface compSurface : Q) :
  Spec.shade waterAlpha h surface true false compSurface =
    if gt (1.0 - smoothstep (surface - 0.35) (surface + 0.35) h) 0.001
    then {| diffuse := floodColor;
            alpha := waterAlpha
                     * (1.0 - smoothstep (surface - 0.35) (surface + 0.35) h) |}
    else Spec.untouched.
Proof. reflexivity. Qed.

Lemma shade_flood_range (waterAlpha h surface compSurface : Q) :
  0 <= waterAlpha ->
  0 <= alpha (Spec.shade waterAlpha h surface true false compSurface)
  /\ alpha (Spec.shade waterAlpha h surface true false compSurface) <= waterAlpha.
Proof.
  intro Ha. rewrite shade_flood.
  destruct (mask_facts surface h) as ((M0 & M1) & _).
  cbv beta in M0, M1.
  test_gt; cbn [alpha Spec.untouched]; split; try lra; nra.
Qed.

Lemma shade_flood_monotone (waterAlpha h h' surface compSurface : Q) :
  0 <= waterAlpha -> h <= h' ->
  alpha (Spec.shade waterAlpha h' surface true false compSurface)
  <= alpha (Spec.shade waterAlpha h surface true false compSurface).
Proof.
  intros Ha Hh. rewrite !shade_flood.
  destruct (mask_facts surface h) as ((M0 & M1) & Mm & _).
  destruct (mask_facts surface h') as ((M0' & M1') & _).
  specialize (Mm h' Hh). cbv beta in *.
  do 2 test_gt; cbn [alpha Spec.untouched]; try lra; nra.
Qed.

(** The body of a shader for a fragment of land. *)
Lemma land_shade (m : Material) (materialInput : czm_materialInput) :
  waterMask materialInput <= 0.5 ->
  czm_getMaterial m materialInput =
    Spec.shade (Spec.opacity m) (height materialInput)
      (Spec.surface m materialInput)
      (gt (Spec.level m) 0.0)
      (match m with
       | FloodGeoid u => gt (GeoidUniforms.comparisonSLR u) 0.0
       | FloodFallback u => ne (FallbackUniforms.comparisonLevel u) 0.0
       end)
      (match m with
       | FloodGeoid u =>
           geoidUndulation u materialInput + GeoidUniforms.comparisonSLR u
       | FloodFallback u => FallbackUniforms.comparisonLevel u
       end).
Proof.
  intro Hland. apply FloodFacts.gt_false in Hland.
  destruct m as [u | u]; cbn [czm_getMaterial].
  - rewrite geoid_shade, Hland. reflexivity.
  - rewrite fallback_shade, Hland. reflexivity.
Qed.

(** X13.  The soft edge of the flood.  With a positive level displayed and
    the comparison off, a fragment of land more than 0.35 m below the
    flood surface (undulation plus rise with the geoid shader, the level
    itself with the fallback) gets the flood colour at the full water
    opacity; one more than 0.35 m above it is left untouched; in between
    the opacity lies between 0 and the water opacity; and at a given
    place the opacity never grows with the height of the terrain. *)
Theorem flood_edge (m : Material) (materialInput : czm_materialInput)
    (h h' : Q) :
  waterMask materialInput <= 0.5 ->
  0 < Spec.level m ->
  Spec.comparison m == 0 ->
  0 <= Spec.opacity m ->
  (h <= Spec.surface m materialInput - 0.35 ->
     diffuse (czm_getMaterial m (Spec.atHeight materialInput h)) = floodColor
     /\ alpha (czm_getMaterial m (Spec.atHeight materialInput h)) == Spec.opacity m)
  /\ (Spec.surface m materialInput + 0.35 <= h ->
     czm_getMaterial m (Spec.atHeight materialInput h) = Spec.untouched)
  /\ (0 <= alpha (czm_getMaterial m (Spec.atHeight materialInput h))
      /\ alpha (czm_getMaterial m (Spec.atHeight materialInput h)) <= Spec.opacity m)
  /\ (h <= h' ->
      alpha (czm_getMaterial m (Spec.atHeight materialInput h'))
      <= alpha (czm_getMaterial m (Spec.atHeight materialInput h))).
Proof.
  intros Hland Hlevel Hoff Hopacity.
  assert (Hs : forall x, Spec.surface m (Spec.atHeight materialInput x)
                         = Spec.surface m materialInput)
    by (intro; destruct m; reflexivity).
  assert (Hbody : forall x,
            czm_getMaterial m (Spec.atHeight materialInput x)
            = Spec.shade (Spec.opacity m) x (Spec.surface m materialInput)
                true false
                (match m with
                 | FloodGeoid u =>
                     geoidUndulation u materialInput + GeoidUniforms.comparisonSLR u
                 | FloodFallback u => FallbackUniforms.comparisonLevel u
                 end)).
  { intro x. rewrite land_shade by exact Hland. rewrite Hs.
    cbn [Spec.atHeight height].
    replace (gt (Spec.level m) 0.0) with true
      by (symmetry; apply FloodFacts.gt_true; lra).
    destruct m as [u | u]; cbn [Spec.comparison] in Hoff.
    - replace (gt (GeoidUniforms.comparisonSLR u) 0.0) with false
        by (symmetry; apply FloodFacts.gt_false; lra).
      reflexivity.
    - unfold ne.
      replace (Qeq_bool (FallbackUniforms.comparisonLevel u) 0.0) with true
        by (symmetry; apply Qeq_bool_iff; rewrite Hoff; reflexivity).
      reflexivity. }
  rewrite !Hbody.
  destruct (mask_facts (Spec.surface m materialInput) h)
    as ((M0 & M1) & _ & Mlow & Mhigh).
  cbv beta in *.
  split; [| split; [| split]].
  - intro Hh. specialize (Mlow Hh). rewrite shade_flood.
    test_gt; [| exfalso; lra]. cbn [diffuse alpha].
    split; [reflexivity |]. rewrite Mlow. ring.
  - intro Hh. specialize (Mhigh Hh). rewrite shade_flood.
    test_gt; [exfalso; lra | reflexivity].
  - now apply shade_flood_range.
  - intro Hh. now apply shade_flood_monotone.
Qed.

Lemma flood_edge_witness :
  0 <= alpha (czm_getMaterial
                (FloodGeoid
                   {| GeoidUniforms.seaLevelRise := 1.2;
                      GeoidUniforms.comparisonSLR := 0;
                      GeoidUniforms.waterAlpha := 0.55;
                      GeoidUniforms.geoidTexture := Sample.flatCanvas 0;
                      GeoidUniforms.geoidMin := Geoid.GEOID_MIN;
                      GeoidUniforms.geoidRange := Geoid.GEOID_RANGE |})
                (Spec.atHeight (Sample.landAt 0) 1.3))
  /\ alpha (czm_getMaterial
              (FloodGeoid
                 {| GeoidUniforms.seaLevelRise := 1.2;
                    GeoidUniforms.comparisonSLR := 0;
                    GeoidUniforms.waterAlpha := 0.55;
                    GeoidUniforms.geoidTexture := Sample.flatCanvas 0;
                    GeoidUniforms.geoidMin := Geoid.GEOID_MIN;
                    GeoidUniforms.geoidRange := Geoid.GEOID_RANGE |})
              (Spec.atHeight (Sample.landAt 0) 1.3)) <= 0.55.
Proof.
  refine (proj1 (proj2 (proj2
    (@flood_edge
       (FloodGeoid
          {| GeoidUniforms.seaLevelRise := 1.2;
             GeoidUniforms.comparisonSLR := 0;
             GeoidUniforms.waterAlpha := 0.55;
             GeoidUniforms.geoidTexture := Sample.flatCanvas 0;
             GeoidUniforms.geoidMin := Geoid.GEOID_MIN;
             GeoidUniforms.geoidRange := Geoid.GEOID_RANGE |})
       (Sample.landAt 0) 1.3 1.3 _ _ _ _)))).
  - vm_compute. discriminate.
  - reflexivity.
  - reflexivity.
  - vm_compute. discriminate.
Defined.

Lemma band_shift (g h s c : Q) :
  ge h (Qmin (g + s) (g + c)) && lt h (Qmax (g + s) (g + c))
  = ge (h - g) (Qmin s c) && lt (h - g) (Qmax s c).
Proof.
  apply eq_true_iff_eq. rewrite !FloodFacts.band_test.
  destruct (Q.min_spec (g + s) (g + c)) as [[? E1] | [? E1]];
  destruct (Q.max_spec (g + s) (g + c)) as [[? E2] | [? E2]];
  destruct (Q.min_spec s c) as [[? E3] | [? E3]];
  destruct (Q.max_spec s c) as [[? E4] | [? E4]];
  rewrite E1, E2, E3, E4; split; intros [? ?]; split; lra.
Qed.

Lemma mask_shift (g h s : Q) :
  1.0 - smoothstep (g + s - 0.35) (g + s + 0.35) h
  == 1.0 - smoothstep (s - 0.35) (s + 0.35) (h - g).
Proof.
  assert (E : smoothstep (g + s - 0.35) (g + s + 0.35) h
              == smoothstep (s - 0.35) (s + 0.35) (h - g)).
  { rewrite <- (smoothstep_shift (s - 0.35) (s + 0.35) h g).
    unfold smoothstep, clamp. cbv zeta.
    setoid_replace (g + s - 0.35) with (g + (s - 0.35)) by ring.
    setoid_replace (g + s + 0.35) with (g + (s + 0.35)) by ring.
    reflexivity. }
  rewrite E. reflexivity.
Qed.

(** The common body depends on the height only through its difference
    with the two surfaces. *)
Lemma shade_shift (waterAlpha h g s c : Q) (flooding comparing : bool) :
  Spec.sameMaterial
    (Spec.shade waterAlpha h (g + s) flooding comparing (g + c))
    (Spec.shade waterAlpha (h - g) s flooding comparing c).
Proof.
  unfold Spec.shade. cbv zeta. rewrite band_shift.
  pose proof (mask_shift g h s) as Hm.
  set (m1 := 1.0 - smoothstep (g + s - 0.35) (g + s + 0.35) h) in *.
  set (m2 := 1.0 - smoothstep (s - 0.35) (s + 0.35) (h - g)) in *.
  assert (Hgt : gt m1 0.001 = gt m2 0.001).
  { apply eq_true_iff_eq. rewrite !FloodFacts.gt_true. now rewrite Hm. }
  unfold Spec.sameMaterial.
  destruct flooding, comparing;
    try destruct (ge (h - g) (Qmin s c) && lt (h - g) (Qmax s c));
    try rewrite Hgt; try destruct (gt m2 0.001);
    cbn [diffuse alpha]; split; try reflexivity; now rewrite Hm.
Qed.

(** X14.  The geoid correction.  With a comparison level that is not
    negative, the geoid shader gives a fragment exactly the colour and
    the opacity that the fallback shader, run with the same rise,
    opacity and comparison level, gives the same fragment at its height
    minus the local geoid undulation: flooding is decided on the height
    above the geoid. *)
Theorem geoid_correction (u : GeoidUniforms.t) (materialInput : czm_materialInput) :
  0 <= GeoidUniforms.comparisonSLR u ->
  Spec.sameMaterial
    (FLOOD_SHADER_GEOID u materialInput)
    (FLOOD_SHADER_FALLBACK (Spec.fallbackOf u)
       (Spec.atHeight materialInput
          (height materialInput - geoidUndulation u materialInput))).
Proof.
  intro Hc. rewrite geoid_shade, fallback_shade.
  cbn [Spec.atHeight waterMask height Spec.fallbackOf
       FallbackUniforms.floodLevel FallbackUniforms.waterAlpha
       FallbackUniforms.comparisonLevel].
  destruct (gt (waterMask materialInput) 0.5).
  - split; reflexivity.
  - assert (E : ne (GeoidUniforms.comparisonSLR u) 0.0
                = gt (GeoidUniforms.comparisonSLR u) 0.0).
    { apply eq_true_iff_eq. rewrite FloodFacts.gt_true. unfold ne.
      rewrite negb_true_iff. split.
      - intro H. apply Qeq_bool_neq in H.
        destruct (Qlt_le_dec 0.0 (GeoidUniforms.comparisonSLR u)) as [L | L];
          [exact L |].
        exfalso. apply H. apply Qle_antisym; lra.
      - intro H. destruct (Qeq_bool _ _) eqn:E; [| reflexivity].
        apply Qeq_bool_iff in E. lra. }
    rewrite E. apply shade_shift.
Qed.

Lemma geoid_correction_witness :
  Spec.sameMaterial
    (FLOOD_SHADER_GEOID
       {| GeoidUniforms.seaLevelRise := 1.2;
          GeoidUniforms.comparisonSLR := 0.5;
          GeoidUniforms.waterAlpha := 0.55;
          GeoidUniforms.geoidTexture := Sample.flatCanvas (-45);
          GeoidUniforms.geoidMin := Geoid.GEOID_MIN;
          GeoidUniforms.geoidRange := Geoid.GEOID_RANGE |}
       (Sample.landAt (-44)))
    (FLOOD_SHADER_FALLBACK
       (Spec.fallbackOf
          {| GeoidUniforms.seaLevelRise := 1.2;
             GeoidUniforms.comparisonSLR := 0.5;
             GeoidUniforms.waterAlpha := 0.55;
             GeoidUniforms.geoidTexture := Sample.flatCanvas (-45);
             GeoidUniforms.geoidMin := Geoid.GEOID_MIN;
             GeoidUniforms.geoidRange := Geoid.GEOID_RANGE |})
       (Spec.atHeight (Sample.landAt (-44))
          (height (Sample.landAt (-44))
           - geoidUndulation
               {| GeoidUniforms.seaLevelRise := 1.2;
                  GeoidUniforms.comparisonSLR := 0.5;
                  GeoidUniforms.waterAlpha := 0.55;
                  GeoidUniforms.geoidTexture := Sample.flatCanvas (-45);
                  GeoidUniforms.geoidMin := Geoid.GEOID_MIN;
                  GeoidUniforms.geoidRange := Geoid.GEOID_RANGE |}
               (Sample.landAt (-44))))).
Proof.
  apply geoid_correction. vm_compute. discriminate.
Defined.

(** The opacity of the common body. *)
Lemma shade_range (waterAlpha h surface compSurface : Q)
    (flooding comparing : bool) :
  0 <= waterAlpha ->
  0 <= alpha (Spec.shade waterAlpha h surface flooding comparing compSurface)
  /\ alpha (Spec.shade waterAlpha h surface flooding comparing compSurface)
     <= Qmax waterAlpha 0.5.
Proof.
  intro Ha.
  pose proof (Q.le_max_l waterAlpha 0.5) as Hl.
  pose proof (Q.le_max_r waterAlpha 0.5) as Hr.
  unfold Spec.shade. cbv zeta.
  destruct (mask_facts surface h) as ((M0 & M1) & _). cbv beta in M0, M1.
  set (m := 1.0 - smoothstep (surface - 0.35) (surface + 0.35) h) in *.
  destruct flooding, comparing;
    try destruct (ge h (Qmin surface compSurface)
                  && lt h (Qmax surface compSurface));
    repeat test_gt; cbn [alpha]; split; try lra; nra.
Qed.

(** The opacity a material gives a fragment. *)
Lemma material_alpha_range (m : Material) (materialInput : czm_materialInput) :
  0 <= Spec.opacity m ->
  0 <= alpha (czm_getMaterial m materialInput)
  /\ alpha (czm_getMaterial m materialInput) <= Qmax (Spec.opacity m) 0.5.
Proof.
  intro Ha. pose proof (Q.le_max_r (Spec.opacity m) 0.5) as Hr.
  destruct m as [u | u]; cbn [czm_getMaterial].
  - rewrite geoid_shade. destruct (gt (waterMask materialInput) 0.5).
    + cbn [alpha]. split; lra.
    + now apply shade_range.
  - rewrite fallback_shade. destruct (gt (waterMask materialInput) 0.5).
    + cbn [alpha]. split; lra.
    + now apply shade_range.
Qed.

(** A comparison uniform at zero puts no fragment in the band. *)
Lemma band_off (m : Material) (materialInput : czm_materialInput) :
  Spec.comparison m == 0 -> inComparisonBand m materialInput = false.
Proof.
  intro Hc. unfold inComparisonBand.
  destruct m as [u | u]; cbn [czm_getMaterial Spec.comparison] in *.
  - rewrite geoid_shade. destruct (gt (waterMask materialInput) 0.5);
      [reflexivity |].
    replace (gt (GeoidUniforms.comparisonSLR u) 0.0) with false
      by (symmetry; apply FloodFacts.gt_false; lra).
    unfold Spec.shade. cbv zeta. destruct (gt _ 0.001); reflexivity.
  - rewrite fallback_shade. destruct (gt (waterMask materialInput) 0.5);
      [reflexivity |].
    replace (ne (FallbackUniforms.comparisonLevel u) 0.0) with false
      by (unfold ne; symmetry; apply negb_false_iff, Qeq_bool_iff;
          rewrite Hc; reflexivity).
    unfold Spec.shade. cbv zeta. destruct (gt _ 0.001); reflexivity.
Qed.

(** X15.  Whatever the uniforms hold and whatever the fragment, a shader
    with a water opacity that is not negative returns an opacity between
    0 and the larger of the water opacity and 0.5 (the opacity of the
    comparison band), and one of three colours: the colour it found, the
    flood colour or the comparison colour.  A fragment of the ocean
    (water mask above 0.5) is always left untouched. *)
Theorem shader_opacity (m : Material) (materialInput : czm_materialInput) :
  (0 <= Spec.opacity m ->
     0 <= alpha (czm_getMaterial m materialInput)
     /\ alpha (czm_getMaterial m materialInput) <= Qmax (Spec.opacity m) 0.5)
  /\ (diffuse (czm_getMaterial m materialInput) = (0, 0, 0)
      \/ diffuse (czm_getMaterial m materialInput) = floodColor
      \/ diffuse (czm_getMaterial m materialInput) = comparisonColor)
  /\ (0.5 < waterMask materialInput ->
      czm_getMaterial m materialInput = Spec.untouched).
Proof.
  assert (Hbody : czm_getMaterial m materialInput = Spec.untouched
                  \/ exists surface flooding comparing compSurface,
                       czm_getMaterial m materialInput
                       = Spec.shade (Spec.opacity m) (height materialInput)
                           surface flooding comparing compSurface).
  { destruct m as [u | u]; cbn [czm_getMaterial].
    - rewrite geoid_shade. destruct (gt (waterMask materialInput) 0.5);
        [left; reflexivity | right; do 4 eexists; reflexivity].
    - rewrite fallback_shade. destruct (gt (waterMask materialInput) 0.5);
        [left; reflexivity | right; do 4 eexists; reflexivity]. }
  split; [| split].
  - intro Ha. pose proof (Q.le_max_r (Spec.opacity m) 0.5) as Hr.
    destruct Hbody as [-> | (surface & flooding & comparing & compSurface & ->)].
    + cbn [alpha Spec.untouched]. split; lra.
    + now apply shade_range.
  - destruct Hbody as [-> | (surface & flooding & comparing & compSurface & ->)].
    + left. reflexivity.
    + unfold Spec.shade. cbv zeta.
      destruct comparing;
        try destruct (ge _ _ && lt _ _);
        try destruct (gt _ 0.001); cbn [diffuse]; tauto.
  - intro Hocean. apply FloodFacts.gt_true in Hocean.
    destruct m as [u | u]; cbn [czm_getMaterial].
    + rewrite geoid_shade, Hocean. reflexivity.
    + rewrite fallback_shade, Hocean. reflexivity.
Qed.

End ShaderFacts.

(* ================================================================== *)
(** ** The flood module: what every sequence of calls preserves *)
(* ================================================================== *)

Module LifecycleFacts.
Import Js FloodVisualization Tactics.
Local Open Scope Q_scope.

Lemma isGeoid_write_waterAlpha (x : Q) (m : Material) :
  Spec.isGeoid (write_waterAlpha x m) = Spec.isGeoid m.
Proof. destruct m; reflexivity. Qed.

Lemma isGeoid_write_comparison (geoid : bool) (x : Q) (m : Material) :
  Spec.isGeoid (write_comparison geoid x m) = Spec.isGeoid m.
Proof. destruct m, geoid; reflexivity. Qed.

Lemma comparison_write_waterAlpha (x : Q) (m : Material) :
  Spec.comparison (write_waterAlpha x m) = Spec.comparison m.
Proof. destruct m; reflexivity. Qed.

Lemma comparison_write_comparison (x : Q) (m : Material) :
  Spec.comparison (write_comparison (Spec.isGeoid m) x m) = x.
Proof. destruct m; reflexivity. Qed.

Lemma opacity_write_waterAlpha (x : Q) (m : Material) :
  Spec.opacity (write_waterAlpha x m) = x.
Proof. destruct m; reflexivity. Qed.

Lemma opacity_write_comparison (geoid : bool) (x : Q) (m : Material) :
  Spec.opacity (write_comparison geoid x m) = Spec.opacity m.
Proof. destruct m, geoid; reflexivity. Qed.

Lemma level_write_waterAlpha (x : Q) (m : Material) :
  Spec.level (write_waterAlpha x m) = Spec.level m.
Proof. destruct m; reflexivity. Qed.

Lemma level_write_comparison (geoid : bool) (x : Q) (m : Material) :
  Spec.level (write_comparison geoid x m) = Spec.level m.
Proof. destruct m, geoid; reflexivity. Qed.

(** The material [setFloodLevel] leaves behind. *)
Lemma shown_material (slr : Q) (m : Material) :
  let m' :=
    write_waterAlpha 0
      (if Spec.isGeoid m
       then write_comparisonSLR 0.0 (write_seaLevelRise slr m)
       else write_comparisonLevel 0.0 (write_floodLevel slr m)) in
  Spec.isGeoid m' = Spec.isGeoid m
  /\ Spec.comparison m' = 0.0
  /\ Spec.level m' = slr
  /\ Spec.opacity m' = 0.
Proof. destruct m; repeat split; reflexivity. Qed.

Ltac six := refine (conj _ (conj _ (conj _ (conj _ (conj _ _))))).

(** The globe has no material, so nothing follows from its having one. *)
Ltac detached :=
  let N := fresh "N" in intro N; exfalso; apply N; reflexivity.

Lemma consistent_initial : Spec.consistent initial.
Proof.
  unfold Spec.consistent, initial; cbn. six.
  - split; lra.
  - now left.
  - discriminate.
  - detached.
  - reflexivity.
  - discriminate.
Qed.

Ltac kept :=
  let m' := fresh "m'" in
  let E := fresh "E" in
  intros m' E; injection E as <-;
  rewrite ?isGeoid_write_waterAlpha, ?isGeoid_write_comparison,
    ?comparison_write_waterAlpha;
  auto.

Lemma consistent_fade (s : State) : Spec.consistent s -> Spec.consistent (fade s).
Proof.
  intro H. pose proof H as (Ha & Ht & Hanim & Hglobe & Hnone & Hm).
  unfold fade.
  destruct (alphaAnimating s) eqn:Ea; [| exact H].
  destruct (floodMaterial s) as [m |] eqn:Em; [| exact H].
  destruct (Hanim eq_refl) as [Ht55 _].
  destruct (gt (Qabs (targetAlpha s - waterAlpha s)) 0.005) eqn:Eg;
    unfold Spec.consistent; cbn; six.
  - split; lra.
  - exact Ht.
  - intros _. split; [exact Ht55 | discriminate].
  - intros _. split; [exact Ht55 | discriminate].
  - discriminate.
  - kept.
  - split; lra.
  - exact Ht.
  - discriminate.
  - intros _. split; [exact Ht55 | discriminate].
  - discriminate.
  - kept.
Qed.

Lemma consistent_animate (s : State) :
  Spec.consistent s -> Spec.consistent (animate s).
Proof. intro H. apply consistent_fade in H. exact H. Qed.

Lemma consistent_init (geoidCanvas : option Sampler) (s : State) :
  Spec.consistent s -> Spec.consistent (initFloodVisualization geoidCanvas s).
Proof.
  intros (Ha & Ht & Hanim & Hglobe & Hnone & Hm).
  unfold initFloodVisualization. apply consistent_animate.
  unfold Spec.consistent; cbn; six; auto.
  - intro E. split; [apply (Hanim E) | destruct geoidCanvas; discriminate].
  - intro E.
    assert (G : globeMaterial s <> NoMaterial)
      by (intro G; rewrite G in E; now apply E).
    split; [apply (Hglobe G) | destruct geoidCanvas; discriminate].
  - destruct geoidCanvas; discriminate.
  - intros m E. destruct geoidCanvas; injection E as <-; cbn;
      (split; [reflexivity | intro N; exfalso; apply N; reflexivity]).
Qed.

Lemma consistent_clearFlood (s : State) :
  (forall m, floodMaterial s = Some m -> Spec.isGeoid m = useGeoidTexture s) ->
  Spec.consistent (clearFlood s).
Proof.
  intros Hm.
  unfold clearFlood, Spec.consistent; cbn; six; auto; try discriminate.
  - split; lra.
  - detached.
  - intros m' E. destruct (floodMaterial s) as [m |]; [| discriminate].
    injection E as <-. pose proof (Hm m eq_refl) as Hkind.
    rewrite isGeoid_write_comparison, isGeoid_write_waterAlpha.
    split; [exact Hkind |].
    rewrite <- Hkind, <- (isGeoid_write_waterAlpha 0.0 m),
      comparison_write_comparison.
    intro N. exfalso. apply N. reflexivity.
Qed.

Lemma consistent_kind (s : State) :
  Spec.consistent s ->
  forall m, floodMaterial s = Some m -> Spec.isGeoid m = useGeoidTexture s.
Proof. intros (_ & _ & _ & _ & _ & Hm) m E. now destruct (Hm m E). Qed.

Lemma consistent_setFloodLevel (slr : Q)
    (result : option Simulation.SimulationResult) (rec : bool) (now : Z)
    (s : State) :
  Spec.consistent s -> Spec.consistent (fst (setFloodLevel slr result rec now s)).
Proof.
  intros H. pose proof (consistent_kind H) as Hkind.
  pose proof H as (Ha & Ht & Hanim & Hglobe & Hnone & Hm).
  unfold setFloodLevel.
  destruct (Qle_bool slr 0) eqn:E; cbn [fst].
  - apply consistent_clearFlood. destruct rec; exact Hkind.
  - assert (Em : floodMaterial (if rec then record slr result now s else s)
                 = floodMaterial s) by (destruct rec; reflexivity).
    assert (Eu : useGeoidTexture (if rec then record slr result now s else s)
                 = useGeoidTexture s) by (destruct rec; reflexivity).
    rewrite Em, Eu.
    destruct (floodMaterial s) as [m |] eqn:Efm; cbn [fst].
    + rewrite <- (Hkind m eq_refl).
      destruct (shown_material slr m) as (K1 & K2 & K3 & K4).
      unfold Spec.consistent; cbn; six.
      * split; [lra | vm_compute; discriminate].
      * now right.
      * intros _. split; [reflexivity | discriminate].
      * intros _. split; [reflexivity | discriminate].
      * discriminate.
      * intros m' E'. injection E' as <-. split; [exact K1 |].
        rewrite K2. intro N. exfalso. apply N. reflexivity.
    + destruct rec; [| exact H].
      unfold Spec.consistent, record; cbn; six; auto.
      * intro E'. destruct (Hanim E') as [_ N]. exfalso. now apply N.
      * intro E'. destruct (Hglobe E') as [_ N]. exfalso. now apply N.
      * intros m E'. rewrite Efm in E'. discriminate.
Qed.

Lemma consistent_showComparison (s : State) :
  Spec.consistent s -> Spec.consistent (fst (showComparison s)).
Proof.
  intros H. pose proof (consistent_kind H) as Hkind.
  pose proof H as (Ha & Ht & Hanim & Hglobe & Hnone & Hm).
  unfold showComparison.
  destruct (previousSnapshot s) as [p |] eqn:Ep; [| exact H].
  destruct (currentSnapshot s) as [c |] eqn:Ec; [| exact H].
  destruct (floodMaterial s) as [m |] eqn:Em; [| exact H].
  unfold Spec.consistent; cbn [fst]; cbn; six; auto.
  - intro E. split; [apply (Hanim E) | discriminate].
  - intro E. split; [apply (Hglobe E) | discriminate].
  - discriminate.
  - intros m' E. injection E as <-. rewrite isGeoid_write_comparison.
    split; [now apply Hkind |]. intros _. exists p, c.
    split; [reflexivity | split; [reflexivity |]].
    rewrite <- (Hkind m eq_refl). apply comparison_write_comparison.
Qed.

Lemma consistent_hideComparison (s : State) :
  Spec.consistent s -> Spec.consistent (hideComparison s).
Proof.
  intros H. pose proof (consistent_kind H) as Hkind.
  pose proof H as (Ha & Ht & Hanim & Hglobe & Hnone & Hm).
  unfold hideComparison.
  destruct (floodMaterial s) as [m |] eqn:Em; [| exact H].
  unfold Spec.consistent; cbn; six; auto.
  - intro E. split; [apply (Hanim E) | discriminate].
  - intro E. split; [apply (Hglobe E) | discriminate].
  - discriminate.
  - intros m' E. injection E as <-. rewrite isGeoid_write_comparison.
    split; [now apply Hkind |].
    rewrite <- (Hkind m eq_refl), comparison_write_comparison.
    intro N. exfalso. apply N. reflexivity.
Qed.

Lemma consistent_destroy (s : State) :
  Spec.consistent s -> Spec.consistent (destroyFloodVisualization s).
Proof.
  intros (Ha & Ht & Hanim & Hglobe & Hnone & Hm).
  unfold destroyFloodVisualization, Spec.consistent; cbn; six; auto.
Qed.

Lemma iterate_animate (callbacks : list nat) (s : State) :
  fold_left (fun s _ => animate s) callbacks s
  = Nat.iter (List.length callbacks) animate s.
Proof.
  revert s. induction callbacks as [| h callbacks IH]; intro s; [reflexivity |].
  cbn [fold_left List.length]. rewrite IH.
  clear IH. induction (List.length callbacks) as [| n IHn]; [reflexivity |].
  change (Nat.iter (S n) animate (animate s))
    with (animate (Nat.iter n animate (animate s))).
  rewrite IHn. reflexivity.
Qed.

Lemma consistent_frames (n : nat) (s : State) :
  Spec.consistent s -> Spec.consistent (Nat.iter n animate s).
Proof.
  intro H. induction n as [| n IH]; [exact H |].
  change (Nat.iter (S n) animate s) with (animate (Nat.iter n animate s)).
  now apply consistent_animate.
Qed.

Lemma consistent_frame (s : State) :
  Spec.consistent s -> Spec.consistent (frame s).
Proof.
  intro H. unfold frame. rewrite iterate_animate.
  apply consistent_frames. exact H.
Qed.

Lemma consistent_step (s : State) (c : call) :
  Spec.consistent s -> Spec.consistent (step s c).
Proof.
  intro H. destruct c; cbn [step].
  - now apply consistent_init.
  - now apply consistent_frame.
  - now apply consistent_setFloodLevel.
  - apply consistent_clearFlood. now apply consistent_kind.
  - now apply consistent_showComparison.
  - now apply consistent_hideComparison.
  - now apply consistent_destroy.
Qed.

Lemma consistent_from (calls : list call) :
  forall s, Spec.consistent s -> Spec.consistent (fold_left step calls s).
Proof.
  induction calls as [| c calls IH]; intros s H; [exact H |].
  cbn [fold_left]. apply IH. now apply consistent_step.
Qed.

Lemma consistent_run (calls : list call) : Spec.consistent (run calls).
Proof. apply consistent_from, consistent_initial. Qed.

(** X16.  Whatever calls a client makes, in whatever order, and however
    many frames pass: the water opacity stays between 0 and its target,
    and the target is 0 or 0.55; a fade is only ever running towards
    0.55 and on an existing material; a material is attached to the
    globe only while the target is 0.55; without a material the opacity
    is 0; the kind of the material is the one [useGeoidTexture] says; and
    its comparison uniform is either zero or the rise of the previous
    snapshot, with both snapshots present. *)
Theorem calls_keep_consistent (calls : list call) :
  Spec.consistent (run calls)
  /\ 0 <= waterAlpha (run calls) /\ waterAlpha (run calls) <= 0.55.
Proof.
  pose proof (consistent_run calls) as H. split; [exact H |].
  destruct H as ((H0 & H1) & [Ht | Ht] & _); rewrite Ht in H1; split; lra.
Qed.

(** X17.  The branch of [animate] that detaches the material once the
    opacity has faded out to 0 is never taken: in every state that calls
    can lead to, a run of [animate] leaves [viewer.scene.globe.material],
    the target opacity and both snapshots as they are, and never lowers
    the opacity. *)
Theorem animate_never_detaches (calls : list call) :
  globeMaterial (animate (run calls)) = globeMaterial (run calls)
  /\ targetAlpha (animate (run calls)) = targetAlpha (run calls)
  /\ previousSnapshot (animate (run calls)) = previousSnapshot (run calls)
  /\ currentSnapshot (animate (run calls)) = currentSnapshot (run calls)
  /\ waterAlpha (run calls) <= waterAlpha (animate (run calls)).
Proof.
  pose proof (consistent_run calls) as H.
  destruct H as ((H0 & H1) & Ht & Hanim & _).
  unfold animate, fade. cbn.
  destruct (alphaAnimating (run calls)) eqn:Ea;
    [| repeat split; reflexivity || lra].
  destruct (Hanim eq_refl) as [Ht55 _].
  destruct (floodMaterial (run calls)) as [m |];
    [| repeat split; reflexivity || lra].
  destruct (gt _ 0.005); cbn; rewrite ?Ht55 in *;
    repeat split; try reflexivity; lra.
Qed.

Lemma synced_init (geoidCanvas : option Sampler) :
  Spec.synced (initFloodVisualization geoidCanvas initial).
Proof.
  unfold Spec.synced, initFloodVisualization, animate, fade, initial. cbn.
  destruct geoidCanvas; eexists; (split; [reflexivity |]); cbn;
    (split; [reflexivity | detached]).
Qed.

Lemma synced_fade (s : State) : Spec.synced s -> Spec.synced (fade s).
Proof.
  intros (m & Em & Ho & Hl). unfold fade. rewrite Em.
  destruct (alphaAnimating s); [| exists m; auto].
  destruct (gt _ 0.005); unfold Spec.synced; cbn;
    eexists; (split; [reflexivity |]);
    rewrite opacity_write_waterAlpha, level_write_waterAlpha;
    (split; [reflexivity |]).
  - exact Hl.
  - destruct (Qeq_bool (targetAlpha s) 0); [detached | exact Hl].
Qed.

Lemma synced_animate (s : State) : Spec.synced s -> Spec.synced (animate s).
Proof.
  intro Hs. apply synced_fade in Hs. destruct Hs as (m & Em & Ho & Hl).
  exists m. unfold animate. cbn. auto.
Qed.

Lemma synced_frame (s : State) : Spec.synced s -> Spec.synced (frame s).
Proof.
  intros (m & Em & Ho & Hl). unfold frame. rewrite iterate_animate.
  induction (List.length (frameCallbacks s)) as [| n IH].
  - exists m. cbn. auto.
  - change (Nat.iter (S n) animate ?x) with (animate (Nat.iter n animate x)).
    now apply synced_animate.
Qed.

Lemma synced_clearFlood (s : State) : Spec.synced s -> Spec.synced (clearFlood s).
Proof.
  intros (m & Em & Ho & Hl). unfold clearFlood, Spec.synced. cbn. rewrite Em.
  eexists. split; [reflexivity |].
  rewrite opacity_write_comparison, opacity_write_waterAlpha.
  split; [reflexivity | detached].
Qed.

Lemma synced_step (s : State) (c : call) :
  Spec.isInit c = false -> Spec.consistent s -> Spec.synced s ->
  Spec.synced (step s c).
Proof.
  intros Hc Hcons Hs. pose proof (consistent_kind Hcons) as Hkind.
  destruct c as [canvas | | slr result rec now | | | |];
    try discriminate Hc; cbn [step].
  - now apply synced_frame.
  - unfold setFloodLevel.
    assert (Hr : Spec.synced (if rec
                              then record slr result now s
                              else s))
      by (destruct rec; [| exact Hs];
          destruct Hs as (m & Em & Ho & Hl); exists m; auto).
    destruct (Qle_bool slr 0) eqn:E; cbn [fst].
    + now apply synced_clearFlood.
    + destruct Hs as (m & Em & Ho & Hl).
      assert (Em' : floodMaterial (if rec
                                   then record slr result now s
                                   else s) = Some m)
        by (destruct rec; exact Em).
      assert (Eu : useGeoidTexture (if rec
                                    then record slr result now s
                                    else s) = useGeoidTexture s)
        by (destruct rec; reflexivity).
      rewrite Em', Eu, <- (Hkind m Em). cbn [fst].
      destruct (shown_material slr m) as (K1 & K2 & K3 & K4).
      unfold Spec.synced. cbn. eexists. split; [reflexivity |].
      rewrite K3, K4. split; [reflexivity |]. intros _.
      split; [reflexivity |].
      destruct (Qlt_le_dec 0 slr) as [L | L]; [exact L |].
      apply Qle_bool_iff in L. congruence.
  - now apply synced_clearFlood.
  - destruct Hs as (m & Em & Ho & Hl). unfold showComparison. rewrite Em.
    destruct (previousSnapshot s); [| exists m; auto].
    destruct (currentSnapshot s); [| exists m; auto].
    unfold Spec.synced. cbn. eexists. split; [reflexivity |].
    rewrite opacity_write_comparison, level_write_comparison. auto.
  - destruct Hs as (m & Em & Ho & Hl). unfold hideComparison. rewrite Em.
    unfold Spec.synced. cbn. eexists. split; [reflexivity |].
    rewrite opacity_write_comparison, level_write_comparison. auto.
  - destruct Hs as (m & Em & Ho & Hl). unfold destroyFloodVisualization.
    exists m. cbn. split; [exact Em | split; [exact Ho | detached]].
Qed.

Lemma synced_from (calls : list call) :
  forall s, Spec.withoutInit calls = true ->
    Spec.consistent s -> Spec.synced s ->
    Spec.consistent (fold_left step calls s) /\ Spec.synced (fold_left step calls s).
Proof.
  induction calls as [| c calls IH]; intros s Hc Hcons Hs; [now split |].
  unfold Spec.withoutInit in Hc. cbn [forallb] in Hc.
  apply andb_true_iff in Hc. destruct Hc as [Hc Hrest].
  apply negb_true_iff in Hc.
  cbn [fold_left]. apply IH.
  - exact Hrest.
  - now apply consistent_step.
  - now apply synced_step.
Qed.

(** X18.  In a session (one [initFloodVisualization], then any calls and
    frames) the material always exists, its uniform [waterAlpha] equals
    the module's [waterAlpha], the globe has no material or this very
    object, and while it is attached to the globe the level it displays
    is positive.  As a consequence the shader gives every fragment, at
    every moment of the session, an opacity between 0 and 0.55. *)
Theorem session_opacity (geoidCanvas : option Sampler) (calls : list call)
    (materialInput : czm_materialInput) :
  Spec.withoutInit calls = true ->
  Spec.synced (Spec.session geoidCanvas calls)
  /\ exists m,
       floodMaterial (Spec.session geoidCanvas calls) = Some m
       /\ 0 <= alpha (czm_getMaterial m materialInput)
       /\ alpha (czm_getMaterial m materialInput) <= 0.55.
Proof.
  intro Hc. unfold Spec.session, run. cbn [fold_left step].
  destruct (@synced_from calls (initFloodVisualization geoidCanvas initial) Hc
              (consistent_init geoidCanvas consistent_initial)
              (synced_init geoidCanvas)) as [Hcons Hs].
  split; [exact Hs |].
  destruct Hs as (m & Em & Ho & _). exists m. split; [exact Em |].
  destruct Hcons as ((H0 & H1) & Ht & _).
  assert (Hle : waterAlpha (fold_left step calls
                              (initFloodVisualization geoidCanvas initial)) <= 0.55)
    by (destruct Ht as [Ht | Ht]; rewrite Ht in H1; lra).
  destruct (@ShaderFacts.material_alpha_range m materialInput ltac:(lra))
    as [A0 A1].
  split; [exact A0 |].
  eapply Qle_trans; [exact A1 |]. apply Q.max_lub; lra.
Qed.

Lemma session_opacity_witness :
  exists m,
    floodMaterial
      (Spec.session (Some (Sample.flatCanvas 0))
         [SetFloodLevel 1.2 None true 100%Z; Frame; Frame; ShowComparison])
    = Some m
    /\ 0 <= alpha (czm_getMaterial m (Sample.landAt 0.8))
    /\ alpha (czm_getMaterial m (Sample.landAt 0.8)) <= 0.55.
Proof.
  apply (@session_opacity (Some (Sample.flatCanvas 0))
           [SetFloodLevel 1.2 None true 100%Z; Frame; Frame; ShowComparison]
           (Sample.landAt 0.8)).
  reflexivity.
Defined.

Lemma decay_positive (n : nat) : 0 < Spec.decay n.
Proof.
  induction n as [| n IH]; cbn [Spec.decay]; [reflexivity |].
  apply Qmult_lt_0_compat; [exact IH | reflexivity].
Qed.

Lemma decay_falls (n k : nat) : Spec.decay (n + k) <= Spec.decay n.
Proof.
  induction k as [| k IH].
  - rewrite Nat.add_0_r. apply Qle_refl.
  - rewrite Nat.add_succ_r. cbn [Spec.decay].
    pose proof (decay_positive (n + k)). lra.
Qed.

Lemma decay_threshold :
  0.005 < 0.55 * Spec.decay 56 /\ 0.55 * Spec.decay 57 <= 0.005.
Proof. split; vm_compute; [reflexivity | discriminate]. Qed.

(** A state in the middle of the fade towards 0.55, [p] of the way left. *)
Lemma fade_on (s : State) (m : Material) (p : Q) :
  floodMaterial s = Some m -> alphaAnimating s = true ->
  targetAlpha s = 0.55 -> waterAlpha s == 0.55 * (1 - p) ->
  0.005 < 0.55 * p ->
  exists m',
    floodMaterial (animate s) = Some m'
    /\ Spec.opacity m' = waterAlpha (animate s)
    /\ alphaAnimating (animate s) = true
    /\ targetAlpha (animate s) = 0.55
    /\ globeMaterial (animate s) = globeMaterial s
    /\ waterAlpha (animate s) == 0.55 * (1 - p * 0.92).
Proof.
  intros Em Ea Ht Hw Hp. unfold animate, fade. rewrite Em, Ea, Ht.
  assert (Hd : 0.55 - waterAlpha s == 0.55 * p) by (rewrite Hw; ring).
  assert (Hg : gt (Qabs (0.55 - waterAlpha s)) 0.005 = true).
  { apply FloodFacts.gt_true. rewrite Hd, Qabs_pos; lra. }
  rewrite Hg. cbn. eexists. split; [reflexivity |].
  rewrite opacity_write_waterAlpha.
  repeat (split; [reflexivity |]). rewrite Hw. ring.
Qed.

Lemma fade_off (s : State) (m : Material) (p : Q) :
  floodMaterial s = Some m -> alphaAnimating s = true ->
  targetAlpha s = 0.55 -> waterAlpha s == 0.55 * (1 - p) ->
  0 <= p -> 0.55 * p <= 0.005 ->
  exists m',
    floodMaterial (animate s) = Some m'
    /\ Spec.opacity m' = 0.55
    /\ alphaAnimating (animate s) = false
    /\ targetAlpha (animate s) = 0.55
    /\ globeMaterial (animate s) = globeMaterial s
    /\ waterAlpha (animate s) = 0.55.
Proof.
  intros Em Ea Ht Hw H0 Hp. unfold animate, fade. rewrite Em, Ea, Ht.
  assert (Hd : 0.55 - waterAlpha s == 0.55 * p) by (rewrite Hw; ring).
  assert (Hg : gt (Qabs (0.55 - waterAlpha s)) 0.005 = false).
  { apply FloodFacts.gt_false. rewrite Hd, Qabs_pos; lra. }
  rewrite Hg. cbn. eexists. split; [reflexivity |].
  rewrite opacity_write_waterAlpha. repeat split; reflexivity.
Qed.

Lemma fade_done (s : State) :
  alphaAnimating s = false ->
  floodMaterial (animate s) = floodMaterial s
  /\ alphaAnimating (animate s) = false
  /\ targetAlpha (animate s) = targetAlpha s
  /\ globeMaterial (animate s) = globeMaterial s
  /\ waterAlpha (animate s) = waterAlpha s.
Proof.
  intro Ea. unfold animate, fade. rewrite Ea. cbn.
  repeat split; try reflexivity. exact Ea.
Qed.

(** The state [setFloodLevel] leaves behind for a positive level. *)
Lemma shown_state (slr : Q) (result : option Simulation.SimulationResult)
    (rec : bool) (now : Z) (s : State) (m : Material) :
  0 < slr -> floodMaterial s = Some m ->
  exists m',
    floodMaterial (fst (setFloodLevel slr result rec now s)) = Some m'
    /\ Spec.opacity m' = 0
    /\ alphaAnimating (fst (setFloodLevel slr result rec now s)) = true
    /\ targetAlpha (fst (setFloodLevel slr result rec now s)) = 0.55
    /\ globeMaterial (fst (setFloodLevel slr result rec now s))
       = TheFloodMaterial
    /\ waterAlpha (fst (setFloodLevel slr result rec now s)) = 0
    /\ snd (setFloodLevel slr result rec now s) = None.
Proof.
  intros Hslr Em. unfold setFloodLevel.
  destruct (Qle_bool slr 0) eqn:E; [apply Qle_bool_iff in E; lra |].
  assert (Em' : floodMaterial (if rec then record slr result now s else s)
                = Some m) by (destruct rec; exact Em).
  rewrite Em'. cbn. eexists. split; [reflexivity |].
  rewrite opacity_write_waterAlpha. repeat split; reflexivity.
Qed.

Lemma fading_frames (s : State) (m : Material) (n : nat) :
  floodMaterial s = Some m -> alphaAnimating s = true ->
  targetAlpha s = 0.55 -> waterAlpha s = 0 -> Spec.opacity m = 0 ->
  (n <= 57)%nat ->
  exists m',
    floodMaterial (Nat.iter n animate s) = Some m'
    /\ Spec.opacity m' = waterAlpha (Nat.iter n animate s)
    /\ alphaAnimating (Nat.iter n animate s) = true
    /\ targetAlpha (Nat.iter n animate s) = 0.55
    /\ globeMaterial (Nat.iter n animate s) = globeMaterial s
    /\ waterAlpha (Nat.iter n animate s) == 0.55 * (1 - Spec.decay n).
Proof.
  intros Em Ea Ht Hw Ho. induction n as [| n IH]; intro Hn.
  - change (Nat.iter 0 animate s) with s. cbn [Spec.decay].
    exists m. rewrite Hw, Ho.
    repeat split; auto; ring.
  - destruct (IH ltac:(lia)) as (m' & Em' & Ho' & Ea' & Ht' & Hg' & Hw').
    change (Nat.iter (S n) animate s) with (animate (Nat.iter n animate s)).
    cbn [Spec.decay].
    assert (Hp : 0.005 < 0.55 * Spec.decay n).
    { pose proof (decay_falls n (56 - n)) as Hf.
      replace (n + (56 - n))%nat with 56%nat in Hf by lia.
      destruct decay_threshold as [Hth _]. lra. }
    destruct (@fade_on _ m' (Spec.decay n) Em' Ea' Ht' Hw' Hp)
      as (m'' & E1 & E2 & E3 & E4 & E5 & E6).
    exists m''. rewrite E5, Hg'. auto 10.
Qed.

Lemma settled_frames (s : State) (m : Material) (k : nat) :
  floodMaterial s = Some m -> alphaAnimating s = true ->
  targetAlpha s = 0.55 -> waterAlpha s = 0 -> Spec.opacity m = 0 ->
  exists m',
    floodMaterial (Nat.iter (58 + k) animate s) = Some m'
    /\ Spec.opacity m' = 0.55
    /\ alphaAnimating (Nat.iter (58 + k) animate s) = false
    /\ targetAlpha (Nat.iter (58 + k) animate s) = 0.55
    /\ globeMaterial (Nat.iter (58 + k) animate s) = globeMaterial s
    /\ waterAlpha (Nat.iter (58 + k) animate s) = 0.55.
Proof.
  intros Em Ea Ht Hw Ho. induction k as [| k IH].
  - destruct (@fading_frames s m 57 Em Ea Ht Hw Ho ltac:(lia))
      as (m' & Em' & Ho' & Ea' & Ht' & Hg' & Hw').
    change (Nat.iter (58 + 0) animate s)
      with (animate (Nat.iter 57 animate s)).
    destruct decay_threshold as [_ Hth].
    pose proof (decay_positive 57) as Hpos.
    destruct (@fade_off _ m' (Spec.decay 57) Em' Ea' Ht' Hw' ltac:(lra) Hth)
      as (m'' & E1 & E2 & E3 & E4 & E5 & E6).
    exists m''. rewrite E5, Hg'. auto 10.
  - destruct IH as (m' & Em' & Ho' & Ea' & Ht' & Hg' & Hw').
    replace (58 + S k)%nat with (S (58 + k)) by lia.
    change (Nat.iter (S (58 + k)) animate s)
      with (animate (Nat.iter (58 + k) animate s)).
    destruct (fade_done _ Ea') as (E1 & E2 & E3 & E4 & E5).
    exists m'. rewrite E1, E3, E4, E5. auto 10.
Qed.

(** X19.  The fade-in.  After [setFloodLevel] with a positive level on an
    existing material, the opacity starts at 0 and, frame after frame,
    is [0.55 * (1 - 0.92 ^ n)] after [n] runs of [animate], for the first
    57 of them; the 58th run sets it to exactly 0.55 and ends the fade,
    and it stays there.  (A frame runs [animate] once for every loop that
    is alive.)  The material stays attached to the globe all along, and
    its uniform carries the same opacity. *)
Theorem fade_in (slr : Q) (result : option Simulation.SimulationResult)
    (rec : bool) (now : Z) (s : State) (m : Material) (n : nat) :
  0 < slr -> floodMaterial s = Some m ->
  globeMaterial (Nat.iter n animate (fst (setFloodLevel slr result rec now s)))
    = TheFloodMaterial
  /\ (exists m',
        floodMaterial
          (Nat.iter n animate (fst (setFloodLevel slr result rec now s)))
          = Some m'
        /\ Spec.opacity m'
           == waterAlpha
                (Nat.iter n animate (fst (setFloodLevel slr result rec now s))))
  /\ ((n <= 57)%nat ->
      alphaAnimating
        (Nat.iter n animate (fst (setFloodLevel slr result rec now s))) = true
      /\ waterAlpha
           (Nat.iter n animate (fst (setFloodLevel slr result rec now s)))
         == 0.55 * (1 - Spec.decay n))
  /\ ((58 <= n)%nat ->
      alphaAnimating
        (Nat.iter n animate (fst (setFloodLevel slr result rec now s))) = false
      /\ waterAlpha
           (Nat.iter n animate (fst (setFloodLevel slr result rec now s)))
         = 0.55).
Proof.
  intros Hslr Em.
  destruct (@shown_state slr result rec now s m Hslr Em)
    as (m0 & E0 & Ho & Ea & Ht & Hg & Hw & _).
  set (shown := fst (setFloodLevel slr result rec now s)) in *.
  destruct (le_lt_dec n 57) as [Hn | Hn].
  - destruct (@fading_frames shown m0 n E0 Ea Ht Hw Ho Hn)
      as (m' & E1 & E2 & E3 & E4 & E5 & E6).
    split; [now rewrite E5 |]. split; [exists m'; rewrite E2; now split |].
    split; [intros _; now split | intro; lia].
  - destruct (@settled_frames shown m0 (n - 58) E0 Ea Ht Hw Ho)
      as (m' & E1 & E2 & E3 & E4 & E5 & E6).
    replace (58 + (n - 58))%nat with n in * by lia.
    split; [now rewrite E5 |].
    split; [exists m'; rewrite E2, E6; now split |].
    split; [intro; lia | intros _; now split].
Qed.

Lemma fade_in_witness :
  waterAlpha
    (Nat.iter 60 animate
       (fst (setFloodLevel 1.2 None true 100%Z
               (initFloodVisualization (Some (Sample.flatCanvas 0)) initial))))
  = 0.55.
Proof.
  refine (proj2 (proj2 (proj2 (proj2
    (@fade_in 1.2 None true 100%Z
       (initFloodVisualization (Some (Sample.flatCanvas 0)) initial)
       (FloodGeoid
          {| GeoidUniforms.seaLevelRise := 0.0;
             GeoidUniforms.comparisonSLR := 0.0;
             GeoidUniforms.waterAlpha := 0.0;
             GeoidUniforms.geoidTexture := Sample.flatCanvas 0;
             GeoidUniforms.geoidMin := Geoid.GEOID_MIN;
             GeoidUniforms.geoidRange := Geoid.GEOID_RANGE |})
       60 _ _))) _)).
  - reflexivity.
  - reflexivity.
  - lia.
Defined.

(** The comparison uniform of [floodMaterial] right after a call that
    writes zero to it. *)
Lemma comparison_zeroed (calls : list call) (c : call) (m : Material) :
  Spec.resetsComparison c = true ->
  floodMaterial (step (run calls) c) = Some m ->
  Spec.comparison m == 0.
Proof.
  intros Hc Em.
  pose proof (consistent_kind (consistent_run calls)) as Hkind.
  set (s := run calls) in *.
  destruct c as [canvas | | slr result rec now | | | |];
    try discriminate Hc; cbn [step] in Em.
  - unfold initFloodVisualization, animate, fade in Em. cbn in Em.
    destruct (alphaAnimating s), canvas; cbn in Em;
      try destruct (gt _ 0.005); cbn in Em; injection Em as <-; reflexivity.
  - unfold setFloodLevel in Em.
    assert (Em0 : floodMaterial (if rec then record slr result now s else s)
                  = floodMaterial s) by (destruct rec; reflexivity).
    assert (Eu : useGeoidTexture (if rec then record slr result now s else s)
                 = useGeoidTexture s) by (destruct rec; reflexivity).
    destruct (Qle_bool slr 0).
    + cbn [fst] in Em. unfold clearFlood in Em. cbn in Em.
      rewrite Em0, Eu in Em.
      destruct (floodMaterial s) as [m0 |] eqn:E0; [| discriminate].
      injection Em as <-.
      rewrite <- (Hkind m0 eq_refl), <- (isGeoid_write_waterAlpha 0.0 m0),
        comparison_write_comparison. reflexivity.
    + rewrite Em0, Eu in Em.
      destruct (floodMaterial s) as [m0 |] eqn:E0.
      * cbn in Em. injection Em as <-.
        rewrite <- (Hkind m0 eq_refl).
        destruct (shown_material slr m0) as (_ & K2 & _). rewrite K2.
        reflexivity.
      * cbn [fst] in Em. rewrite Em0 in Em. discriminate.
  - unfold clearFlood in Em. cbn in Em.
    destruct (floodMaterial s) as [m0 |] eqn:E0; [| discriminate].
    injection Em as <-.
    rewrite <- (Hkind m0 eq_refl), <- (isGeoid_write_waterAlpha 0.0 m0),
      comparison_write_comparison. reflexivity.
  - unfold hideComparison in Em.
    destruct (floodMaterial s) as [m0 |] eqn:E0; cbn in Em.
    + injection Em as <-.
      rewrite <- (Hkind m0 eq_refl), comparison_write_comparison. reflexivity.
    + rewrite E0 in Em. discriminate.
Qed.

(** A call that assigns the globe's material leaves the globe without a
    material or with the object [floodMaterial] refers to. *)
Lemma assigned_globe (calls : list call) (c : call) :
  Spec.assignsGlobe c = true ->
  globeMaterial (step (run calls) c) = NoMaterial
  \/ globeMaterial (step (run calls) c) = TheFloodMaterial.
Proof.
  intro Hc.
  pose proof (consistent_run calls) as (_ & _ & _ & Hglobe & _).
  set (s := run calls) in *.
  destruct c as [canvas | | slr result rec now | | | |];
    try discriminate Hc; cbn [step].
  - unfold setFloodLevel.
    destruct (Qle_bool slr 0); cbn [fst]; [now left |].
    assert (Em0 : floodMaterial (if rec then record slr result now s else s)
                  = floodMaterial s) by (destruct rec; reflexivity).
    assert (Eg : globeMaterial (if rec then record slr result now s else s)
                 = globeMaterial s) by (destruct rec; reflexivity).
    rewrite Em0.
    destruct (floodMaterial s) as [m0 |] eqn:E0; cbn [fst]; [now right |].
    rewrite Eg.
    destruct (globeMaterial s); [now left | now right |].
    destruct Hglobe as [_ N]; [discriminate | now elim N].
  - now left.
  - now left.
Qed.

(** [initFloodVisualization] leaves what the globe draws as it is. *)
Lemma drawn_init (geoidCanvas : option Sampler) (s : State) :
  Spec.consistent s ->
  drawn (initFloodVisualization geoidCanvas s) = drawn s.
Proof.
  intros (_ & _ & Hanim & _).
  unfold initFloodVisualization, animate, fade, drawn. cbn.
  destruct (alphaAnimating s) eqn:Ea.
  - destruct (Hanim eq_refl) as [Ht _]. rewrite Ht.
    destruct (gt _ 0.005); cbn;
      destruct (globeMaterial s), (floodMaterial s); reflexivity.
  - cbn. destruct (globeMaterial s), (floodMaterial s); reflexivity.
Qed.

(** X20.  Where the comparison band goes away, and where it does not.
    [initFloodVisualization], [setFloodLevel] (recording or not, whatever
    the level), [clearFlood] and [hideComparison], called in any state
    that calls can lead to, leave the comparison uniform of the object
    [floodMaterial] refers to at zero, so that this material puts no
    fragment in the band.  What the globe draws is another matter:
    after [setFloodLevel] and [clearFlood] the globe has no material or
    that very object, and draws no band; [initFloodVisualization] never
    changes what the globe draws; and once the globe is left with the
    material of an earlier [initFloodVisualization], [hideComparison]
    does not change what it draws either. *)
Theorem comparison_reset (calls : list call) (c : call)
    (materialInput : czm_materialInput) :
  Spec.resetsComparison c = true ->
  (forall m, floodMaterial (step (run calls) c) = Some m ->
     Spec.comparison m == 0 /\ inComparisonBand m materialInput = false)
  /\ (forall g, drawn (step (run calls) c) = Some g ->
        Spec.assignsGlobe c = true
        \/ globeMaterial (step (run calls) c) = TheFloodMaterial ->
        Spec.comparison g == 0 /\ inComparisonBand g materialInput = false)
  /\ (Spec.isInit c = true ->
        drawn (step (run calls) c) = drawn (run calls))
  /\ (forall old, c = HideComparison ->
        globeMaterial (run calls) = EarlierMaterial old ->
        drawn (step (run calls) c) = Some old).
Proof.
  intros Hc.
  assert (Hmodule : forall m, floodMaterial (step (run calls) c) = Some m ->
            Spec.comparison m == 0 /\ inComparisonBand m materialInput = false).
  { intros m Em.
    assert (Hzero : Spec.comparison m == 0)
      by (now apply (@comparison_zeroed calls c m)).
    split; [exact Hzero | now apply ShaderFacts.band_off]. }
  split; [exact Hmodule |]. split; [| split].
  - intros g Eg Hglobe.
    assert (Hcur : globeMaterial (step (run calls) c) = TheFloodMaterial).
    { destruct Hglobe as [Ha | Hcur]; [| exact Hcur].
      destruct (@assigned_globe calls c Ha) as [G | G]; [| exact G].
      unfold drawn in Eg. rewrite G in Eg. discriminate. }
    unfold drawn in Eg. rewrite Hcur in Eg. now apply Hmodule.
  - intro Hi. destruct c; try discriminate Hi. cbn [step].
    apply drawn_init, consistent_run.
  - intros old -> G. cbn [step]. unfold hideComparison, drawn.
    destruct (floodMaterial (run calls)); cbn; rewrite G; reflexivity.
Qed.

Lemma comparison_reset_witness :
  let earlier :=
    FloodGeoid
      {| GeoidUniforms.seaLevelRise := 1.2;
         GeoidUniforms.comparisonSLR := 0.5;
         GeoidUniforms.waterAlpha := 0;
         GeoidUniforms.geoidTexture := Sample.flatCanvas 0;
         GeoidUniforms.geoidMin := Geoid.GEOID_MIN;
         GeoidUniforms.geoidRange := Geoid.GEOID_RANGE |} in
  drawn
    (run [Init (Some (Sample.flatCanvas 0));
          SetFloodLevel 0.5 None true 100%Z;
          SetFloodLevel 1.2 None true 200%Z;
          ShowComparison;
          Init (Some (Sample.flatCanvas 0));
          HideComparison]) = Some earlier
  /\ inComparisonBand earlier (Sample.landAt 0.8) = true.
Proof.
  intro earlier. split.
  - refine (proj2 (proj2 (proj2
      (@comparison_reset
         [Init (Some (Sample.flatCanvas 0));
          SetFloodLevel 0.5 None true 100%Z;
          SetFloodLevel 1.2 None true 200%Z;
          ShowComparison;
          Init (Some (Sample.flatCanvas 0))]
         HideComparison (Sample.landAt 0.8) eq_refl))) earlier eq_refl _).
    vm_compute. reflexivity.
  - vm_compute. reflexivity.
Defined.

(** The state after a recording [setFloodLevel] with a positive level. *)
Lemma recorded_state (slr : Q) (result : option Simulation.SimulationResult)
    (now : Z) (s : State) (m : Material) :
  0 < slr -> floodMaterial s = Some m ->
  currentSnapshot (fst (setFloodLevel slr result true now s))
    = Some {| seaLevelRise := slr; simulationResult := result; timestamp := now |}
  /\ previousSnapshot (fst (setFloodLevel slr result true now s))
     = match currentSnapshot s with
       | Some old => Some old
       | None => previousSnapshot s
       end
  /\ useGeoidTexture (fst (setFloodLevel slr result true now s))
     = useGeoidTexture s
  /\ floodMaterial (fst (setFloodLevel slr result true now s))
     = Some (write_waterAlpha 0
               (if useGeoidTexture s
                then write_comparisonSLR 0.0 (write_seaLevelRise slr m)
                else write_comparisonLevel 0.0 (write_floodLevel slr m))).
Proof.
  intros Hslr Em. unfold setFloodLevel.
  destruct (Qle_bool slr 0) eqn:E; [apply Qle_bool_iff in E; lra |].
  cbn [record floodMaterial]. rewrite Em. cbn. repeat split; reflexivity.
Qed.

(** X21.  Two levels in a row.  After [setFloodLevel(a)] and then
    [setFloodLevel(b)], both positive and both recording, on an existing
    material: [getComparisonDelta] reports [b] as the current rise, [a]
    as the previous one and [b - a] as the delta, with the temperatures
    of the two results (0 for a missing result); [hasPreviousSnapshot]
    is true; and [showComparison] succeeds and sets the comparison
    uniform to [a], next to the displayed level [b]. *)
Theorem comparison_of_two_levels (a b : Q)
    (ra rb : option Simulation.SimulationResult) (ta tb : Z)
    (s : State) (m : Material) :
  floodMaterial s = Some m -> Spec.isGeoid m = useGeoidTexture s ->
  0 < a -> 0 < b ->
  getComparisonDelta
    (fst (setFloodLevel b rb true tb (fst (setFloodLevel a ra true ta s))))
    = Some {| currentSLR := b; previousSLR := a; delta := b - a;
              currentTemp :=
                match rb with
                | Some r => Simulation.tempIncrease r
                | None => 0
                end;
              previousTemp :=
                match ra with
                | Some r => Simulation.tempIncrease r
                | None => 0
                end |}
  /\ hasPreviousSnapshot
       (fst (setFloodLevel b rb true tb (fst (setFloodLevel a ra true ta s))))
     = true
  /\ snd (showComparison
            (fst (setFloodLevel b rb true tb
                    (fst (setFloodLevel a ra true ta s))))) = true
  /\ exists m',
       floodMaterial
         (fst (showComparison
                 (fst (setFloodLevel b rb true tb
                         (fst (setFloodLevel a ra true ta s))))))
         = Some m'
       /\ Spec.comparison m' = a /\ Spec.level m' = b.
Proof.
  intros Em Hkind Ha Hb.
  destruct (@recorded_state a ra ta s m Ha Em) as (C1 & P1 & U1 & M1).
  set (s1 := fst (setFloodLevel a ra true ta s)) in *.
  destruct (@recorded_state b rb tb s1 _ Hb M1) as (C2 & P2 & U2 & M2).
  set (s2 := fst (setFloodLevel b rb true tb s1)) in *.
  rewrite C1 in P2. rewrite U1 in M2, U2. rewrite <- Hkind in M2, U2.
  unfold getComparisonDelta, hasPreviousSnapshot, showComparison.
  rewrite C2, P2, M2, U2. cbn [fst snd].
  split; [reflexivity |]. split; [reflexivity |]. split; [reflexivity |].
  eexists. split; [reflexivity |].
  destruct m; split; reflexivity.
Qed.

Lemma comparison_of_two_levels_witness :
  option_map delta
    (getComparisonDelta
       (fst (setFloodLevel 1.2 None true 200%Z
               (fst (setFloodLevel 0.5 None true 100%Z
                       (initFloodVisualization (Some (Sample.flatCanvas 0))
                          initial))))))
  = Some (1.2 - 0.5).
Proof.
  rewrite (proj1
    (@comparison_of_two_levels 0.5 1.2 None None 100 200
       (initFloodVisualization (Some (Sample.flatCanvas 0)) initial)
       (FloodGeoid
          {| GeoidUniforms.seaLevelRise := 0.0;
             GeoidUniforms.comparisonSLR := 0.0;
             GeoidUniforms.waterAlpha := 0.0;
             GeoidUniforms.geoidTexture := Sample.flatCanvas 0;
             GeoidUniforms.geoidMin := Geoid.GEOID_MIN;
             GeoidUniforms.geoidRange := Geoid.GEOID_RANGE |})
       eq_refl eq_refl eq_refl eq_refl)).
  reflexivity.
Defined.

(** X22.  A call of [setFloodLevel] that does not record leaves both
    snapshots as they are when the level is positive (with or without a
    material); with a level of zero or below it still ends in
    [clearFlood], which moves the current snapshot to the previous one
    and leaves no current snapshot. *)
Theorem setFloodLevel_without_recording (slr : Q)
    (result : option Simulation.SimulationResult) (now : Z) (s : State) :
  (0 < slr ->
     previousSnapshot (fst (setFloodLevel slr result false now s))
       = previousSnapshot s
     /\ currentSnapshot (fst (setFloodLevel slr result false now s))
       = currentSnapshot s)
  /\ (slr <= 0 ->
     previousSnapshot (fst (setFloodLevel slr result false now s))
       = currentSnapshot s
     /\ currentSnapshot (fst (setFloodLevel slr result false now s)) = None
     /\ snd (setFloodLevel slr result false now s) = None).
Proof.
  unfold setFloodLevel. split; intro H.
  - destruct (Qle_bool slr 0) eqn:E; [apply Qle_bool_iff in E; lra |].
    destruct (floodMaterial s); split; reflexivity.
  - apply Qle_bool_iff in H. rewrite H. repeat split; reflexivity.
Qed.

Lemma noMaterial_animate (s : State) :
  floodMaterial s = None -> floodMaterial (animate s) = None.
Proof.
  intro Hs. unfold animate, fade. rewrite Hs.
  destruct (alphaAnimating s); exact Hs.
Qed.

Lemma noMaterial_frames (n : nat) (s : State) :
  floodMaterial s = None -> floodMaterial (Nat.iter n animate s) = None.
Proof.
  intro Hs. induction n as [| n IH]; [exact Hs |].
  change (Nat.iter (S n) animate s) with (animate (Nat.iter n animate s)).
  now apply noMaterial_animate.
Qed.

Lemma noInit_material (calls : list call) :
  forall s, Spec.withoutInit calls = true -> floodMaterial s = None ->
    floodMaterial (fold_left step calls s) = None.
Proof.
  induction calls as [| c calls IH]; intros s Hc Hs; [exact Hs |].
  unfold Spec.withoutInit in Hc. cbn [forallb] in Hc.
  apply andb_true_iff in Hc. destruct Hc as [Hc Hrest].
  apply negb_true_iff in Hc.
  cbn [fold_left]. apply IH; [exact Hrest |].
  destruct c as [canvas | | slr result rec now | | | |];
    try discriminate Hc; cbn [step].
  - unfold frame. rewrite iterate_animate. now apply noMaterial_frames.
  - unfold setFloodLevel.
    assert (Em0 : floodMaterial (if rec then record slr result now s else s)
                  = None) by (destruct rec; exact Hs).
    destruct (Qle_bool slr 0); cbn [fst].
    + unfold clearFlood. cbn. now rewrite Em0.
    + rewrite Em0. exact Em0.
  - unfold clearFlood. cbn. now rewrite Hs.
  - unfold showComparison. rewrite Hs.
    destruct (previousSnapshot s), (currentSnapshot s); exact Hs.
  - unfold hideComparison. now rewrite Hs.
  - exact Hs.
Qed.

(** X23.  Before [initFloodVisualization].  As long as no call has
    initialized the module there is no material and nothing is attached
    to the globe.  [setFloodLevel] with a positive level then throws a
    [TypeError] on its first uniform write, after it has already
    recorded the snapshot when asked to; with a level of zero or below it
    does not throw; [showComparison] returns false and [hideComparison]
    does nothing. *)
Theorem calls_before_init (calls : list call) (slr : Q)
    (result : option Simulation.SimulationResult) (rec : bool) (now : Z) :
  Spec.withoutInit calls = true ->
  floodMaterial (run calls) = None
  /\ globeMaterial (run calls) = NoMaterial
  /\ (0 < slr ->
      setFloodLevel slr result rec now (run calls)
      = (if rec then record slr result now (run calls) else run calls,
         Some (TypeError "Cannot read properties of null")))
  /\ (slr <= 0 -> snd (setFloodLevel slr result rec now (run calls)) = None)
  /\ snd (showComparison (run calls)) = false
  /\ hideComparison (run calls) = run calls.
Proof.
  intro Hc.
  assert (Em : floodMaterial (run calls) = None)
    by (apply noInit_material; [exact Hc | reflexivity]).
  pose proof (consistent_run calls) as (_ & _ & _ & Hglobe & _).
  split; [exact Em |]. split.
  { destruct (globeMaterial (run calls)); [reflexivity | |];
      (destruct Hglobe as [_ N]; [discriminate | now elim N]). }
  split; [| split; [| split]].
  - intro Hslr. unfold setFloodLevel.
    destruct (Qle_bool slr 0) eqn:E; [apply Qle_bool_iff in E; lra |].
    assert (Em0 : floodMaterial
                    (if rec then record slr result now (run calls) else run calls)
                  = None) by (destruct rec; exact Em).
    rewrite Em0. reflexivity.
  - intro Hslr. unfold setFloodLevel. apply Qle_bool_iff in Hslr.
    rewrite Hslr. reflexivity.
  - unfold showComparison. rewrite Em.
    destruct (previousSnapshot (run calls)), (currentSnapshot (run calls));
      reflexivity.
  - unfold hideComparison. now rewrite Em.
Qed.

Lemma calls_before_init_witness :
  setFloodLevel 1.2 None true 100%Z (run [ClearFlood; Frame])
  = (record 1.2 None 100%Z (run [ClearFlood; Frame]),
     Some (TypeError "Cannot read properties of null")).
Proof.
  refine (proj1 (proj2 (proj2
    (@calls_before_init [ClearFlood; Frame] 1.2 None true 100%Z _))) _).
  - reflexivity.
  - reflexivity.
Defined.

(** X24.  What [clearFlood] does to the history: the current snapshot
    becomes the previous one and no current snapshot is left, so right
    after it [getComparisonDelta] returns null and [showComparison]
    returns false, although [hasPreviousSnapshot] is true whenever a
    level was on display; a second [clearFlood] in a row leaves no
    snapshot at all. *)
Theorem clearFlood_history (s : State) :
  previousSnapshot (clearFlood s) = currentSnapshot s
  /\ currentSnapshot (clearFlood s) = None
  /\ getComparisonDelta (clearFlood s) = None
  /\ snd (showComparison (clearFlood s)) = false
  /\ hasPreviousSnapshot (clearFlood s)
     = match currentSnapshot s with Some _ => true | None => false end
  /\ previousSnapshot (clearFlood (clearFlood s)) = None
  /\ hasPreviousSnapshot (clearFlood (clearFlood s)) = false.
Proof.
  unfold clearFlood, getComparisonDelta, showComparison, hasPreviousSnapshot.
  cbn. destruct (currentSnapshot s); repeat split; reflexivity.
Qed.

(** The handles: what [fade] leaves alone and [animate] adds. *)
Lemma fade_handles (s : State) :
  frameCallbacks (fade s) = frameCallbacks s
  /\ frameHandle (fade s) = frameHandle s
  /\ animationFrame (fade s) = animationFrame s.
Proof.
  unfold fade.
  destruct (alphaAnimating s), (floodMaterial s);
    try destruct (gt _ 0.005); repeat split; reflexivity.
Qed.

Lemma animate_handles (s : State) :
  frameCallbacks (animate s) = frameCallbacks s ++ [S (frameHandle s)]
  /\ frameHandle (animate s) = S (frameHandle s)
  /\ animationFrame (animate s) = Some (S (frameHandle s)).
Proof.
  destruct (fade_handles s) as (E1 & E2 & _).
  unfold animate. cbn. rewrite E1, E2. repeat split; reflexivity.
Qed.

Lemma fresh_animate (s : State) : Spec.freshHandles s -> Spec.freshHandles (animate s).
Proof.
  intros [Hnd Hall]. destruct (animate_handles s) as (E1 & E2 & _).
  unfold Spec.freshHandles. rewrite E1, E2. split.
  - apply NoDup_app; [exact Hnd | repeat constructor; intros [] |].
    intros h Hin [<- | []]. rewrite Forall_forall in Hall.
    specialize (Hall _ Hin). lia.
  - apply Forall_app. split.
    + eapply Forall_impl; [| exact Hall]. cbn beta. intros. lia.
    + repeat constructor.
Qed.

Lemma fresh_frames (n : nat) (s : State) :
  Spec.freshHandles s -> Spec.freshHandles (Nat.iter n animate s).
Proof.
  intro H. induction n as [| n IH]; [exact H |].
  change (Nat.iter (S n) animate s) with (animate (Nat.iter n animate s)).
  now apply fresh_animate.
Qed.

Lemma loops_frames (n : nat) (s : State) :
  Spec.loops (Nat.iter n animate s) = (Spec.loops s + n)%nat.
Proof.
  induction n as [| n IH];
    [change (Nat.iter 0 animate s) with s; lia |].
  change (Nat.iter (S n) animate s) with (animate (Nat.iter n animate s)).
  unfold Spec.loops in *.
  destruct (animate_handles (Nat.iter n animate s)) as (E1 & _).
  rewrite E1, length_app, IH. cbn [List.length]. lia.
Qed.

Lemma loops_frame (s : State) : Spec.loops (frame s) = Spec.loops s.
Proof.
  unfold frame. rewrite iterate_animate, loops_frames. reflexivity.
Qed.

Lemma loops_init (geoidCanvas : option Sampler) (s : State) :
  Spec.loops (initFloodVisualization geoidCanvas s) = S (Spec.loops s).
Proof.
  unfold initFloodVisualization, Spec.loops.
  match goal with
  | |- context [animate ?x] => destruct (animate_handles x) as (E1 & _)
  end.
  rewrite E1, length_app. cbn. lia.
Qed.

Lemma fresh_step (s : State) (c : call) :
  Spec.freshHandles s -> Spec.freshHandles (step s c).
Proof.
  intro H. destruct c as [canvas | | slr result rec now | | | |]; cbn [step].
  - unfold initFloodVisualization. apply fresh_animate. exact H.
  - unfold frame. rewrite iterate_animate. apply fresh_frames.
    destruct H as [_ Hall]. split; cbn; constructor.
  - unfold setFloodLevel.
    destruct (Qle_bool slr 0); cbn [fst]; [destruct rec; exact H |].
    destruct rec; cbn [record floodMaterial];
      destruct (floodMaterial s); exact H.
  - exact H.
  - unfold showComparison.
    destruct (previousSnapshot s), (currentSnapshot s), (floodMaterial s);
      exact H.
  - unfold hideComparison. destruct (floodMaterial s); exact H.
  - destruct H as [Hnd Hall]. unfold destroyFloodVisualization, Spec.freshHandles.
    cbn. destruct (animationFrame s) as [h |]; [| now split].
    unfold cancelAnimationFrame. split.
    + now apply NoDup_filter.
    + rewrite Forall_forall in *. intros x Hx.
      apply filter_In in Hx. now apply Hall.
Qed.

Lemma fresh_run (calls : list call) : Spec.freshHandles (run calls).
Proof.
  unfold run.
  assert (H : Spec.freshHandles initial) by (split; constructor).
  revert H. generalize initial.
  induction calls as [| c calls IH]; intros s H; [exact H |].
  cbn [fold_left]. apply IH. now apply fresh_step.
Qed.

(** Cancelling a handle takes at most one callback off the list, and
    exactly one when the handle is pending. *)
Lemma cancel_length (handle : nat) (callbacks : list nat) :
  NoDup callbacks ->
  (List.length callbacks - 1
   <= List.length (cancelAnimationFrame handle callbacks)
   <= List.length callbacks)%nat
  /\ (In handle callbacks ->
      List.length (cancelAnimationFrame handle callbacks)
      = (List.length callbacks - 1)%nat).
Proof.
  unfold cancelAnimationFrame.
  induction 1 as [| h callbacks Hnotin Hnd IH]; [cbn; split; [lia | tauto] |].
  cbn [filter List.length].
  destruct (Nat.eqb_spec h handle) as [-> | Hne]; cbn [negb List.length].
  - assert (E : filter (fun h => negb (Nat.eqb h handle)) callbacks = callbacks).
    { apply forallb_filter_id. apply forallb_forall. intros x Hx.
      apply negb_true_iff, Nat.eqb_neq. intros ->. contradiction. }
    rewrite E. split; [lia | intros _; lia].
  - destruct IH as [IH1 IH2]. split; [lia |].
    intros [E | Hin]; [contradiction |].
    rewrite (IH2 Hin). destruct callbacks; [destruct Hin | cbn; lia].
Qed.

(** As long as nothing was destroyed, every call of
    [initFloodVisualization] has its loop pending, and [animationFrame]
    holds a pending handle. *)
Lemma loops_of_inits (calls : list call) :
  Spec.withoutDestroy calls = true ->
  Spec.loops (run calls) = Spec.inits calls
  /\ ((0 < Spec.inits calls)%nat ->
      exists handle,
        animationFrame (run calls) = Some handle
        /\ In handle (frameCallbacks (run calls))).
Proof.
  induction calls as [| c calls IH] using rev_ind; intro Hc.
  - split; [reflexivity | cbn; lia].
  - unfold Spec.withoutDestroy in Hc. rewrite forallb_app in Hc.
    apply andb_true_iff in Hc. destruct Hc as [Hcalls Hlast].
    cbn [forallb] in Hlast. rewrite andb_true_r in Hlast.
    destruct (IH Hcalls) as [Hloops Hhandle].
    unfold run, Spec.inits in *. rewrite fold_left_app, filter_app, length_app.
    cbn [fold_left]. set (s := fold_left step calls initial) in *.
    destruct c as [canvas | | slr result rec now | | | |];
      try discriminate Hlast; cbn [step filter Spec.isInit List.length].
    + rewrite loops_init, Hloops. split; [lia |]. intros _.
      unfold initFloodVisualization.
      match goal with
      | |- context [animate ?x] => destruct (animate_handles x) as (E1 & _ & E3)
      end.
      eexists. split; [exact E3 |]. rewrite E1. apply in_or_app. right.
      now left.
    + rewrite loops_frame, Hloops. split; [lia |]. intro Hpos.
      rewrite Nat.add_0_r in Hpos.
      unfold frame. rewrite iterate_animate.
      fold (Spec.loops s). rewrite Hloops.
      destruct (List.length (filter Spec.isInit calls)) as [| k]; [lia |].
      change (Nat.iter (S k) animate ?x) with (animate (Nat.iter k animate x)).
      match goal with
      | |- context [animate ?x] => destruct (animate_handles x) as (E1 & _ & E3)
      end.
      eexists. split; [exact E3 |]. rewrite E1. apply in_or_app. right.
      now left.
    + rewrite Nat.add_0_r.
      assert (E : frameCallbacks (fst (setFloodLevel slr result rec now s))
                  = frameCallbacks s
                  /\ animationFrame (fst (setFloodLevel slr result rec now s))
                     = animationFrame s).
      { unfold setFloodLevel.
        destruct (Qle_bool slr 0); cbn [fst]; [destruct rec; split; reflexivity |].
        destruct rec; cbn [record floodMaterial];
          destruct (floodMaterial s); split; reflexivity. }
      destruct E as [E1 E2]. unfold Spec.loops. rewrite E1, E2.
      split; [exact Hloops | exact Hhandle].
    + rewrite Nat.add_0_r. split; [exact Hloops | exact Hhandle].
    + rewrite Nat.add_0_r.
      assert (E : frameCallbacks (fst (showComparison s)) = frameCallbacks s
                  /\ animationFrame (fst (showComparison s)) = animationFrame s).
      { unfold showComparison.
        destruct (previousSnapshot s), (currentSnapshot s), (floodMaterial s);
          split; reflexivity. }
      destruct E as [E1 E2]. unfold Spec.loops. rewrite E1, E2.
      split; [exact Hloops | exact Hhandle].
    + rewrite Nat.add_0_r.
      assert (E : frameCallbacks (hideComparison s) = frameCallbacks s
                  /\ animationFrame (hideComparison s) = animationFrame s).
      { unfold hideComparison. destruct (floodMaterial s); split; reflexivity. }
      destruct E as [E1 E2]. unfold Spec.loops. rewrite E1, E2.
      split; [exact Hloops | exact Hhandle].
Qed.

(** X30.  The animation loops.  Every call of [initFloodVisualization]
    starts one more loop of [animate], a frame runs each pending loop
    once and leaves as many pending, and [destroyFloodVisualization]
    cancels at most one of them: the last request.  So, as long as
    nothing was destroyed, as many loops are running as there were calls
    of [initFloodVisualization], and a [destroyFloodVisualization] then
    stops one and leaves the others running, frame after frame; it stops
    the animation only if the module was initialized once. *)
Theorem animation_loops (calls : list call) :
  (forall geoidCanvas,
     Spec.loops (step (run calls) (Init geoidCanvas)) = S (Spec.loops (run calls)))
  /\ Spec.loops (step (run calls) Frame) = Spec.loops (run calls)
  /\ (Spec.loops (run calls) - 1 <= Spec.loops (step (run calls) Destroy)
      <= Spec.loops (run calls))%nat
  /\ (Spec.withoutDestroy calls = true ->
      Spec.loops (run calls) = Spec.inits calls
      /\ forall frames,
           Spec.loops (fold_left step (Destroy :: repeat Frame frames) (run calls))
           = (Spec.inits calls - 1)%nat).
Proof.
  split; [intro; apply loops_init |]. split; [apply loops_frame |].
  destruct (fresh_run calls) as [Hnd _].
  assert (Hdestroy :
            Spec.loops (step (run calls) Destroy)
            = match animationFrame (run calls) with
              | Some handle =>
                  List.length
                    (cancelAnimationFrame handle (frameCallbacks (run calls)))
              | None => Spec.loops (run calls)
              end).
  { cbn [step]. unfold destroyFloodVisualization, Spec.loops. cbn.
    destruct (animationFrame (run calls)); reflexivity. }
  split.
  - rewrite Hdestroy. destruct (animationFrame (run calls)) as [h |]; [| lia].
    destruct (@cancel_length h _ Hnd) as [Hle _]. exact Hle.
  - intro Hc. destruct (loops_of_inits calls Hc) as [Hloops Hhandle].
    split; [exact Hloops |]. intro frames.
    cbn [fold_left].
    assert (Hone : Spec.loops (step (run calls) Destroy)
                   = (Spec.inits calls - 1)%nat).
    { rewrite Hdestroy.
      destruct (Nat.eq_dec (Spec.inits calls) 0) as [E0 | E0].
      - destruct (animationFrame (run calls)) as [h |]; [| lia].
        destruct (@cancel_length h _ Hnd) as [Hle _].
        fold (Spec.loops (run calls)) in Hle. lia.
      - destruct Hhandle as (h & Eh & Hin); [lia |].
        rewrite Eh. destruct (@cancel_length h _ Hnd) as [_ Heq].
        rewrite (Heq Hin). fold (Spec.loops (run calls)). lia. }
    revert Hone. generalize (step (run calls) Destroy).
    induction frames as [| k IHk]; intros s Hs; [exact Hs |].
    cbn [repeat fold_left]. apply IHk. cbn [step].
    rewrite loops_frame. exact Hs.
Qed.

End LifecycleFacts.

(* ================================================================== *)
(** ** The controls: seeds, the displayed level and the histogram *)
(* ================================================================== *)

Module UiFacts.
Import Js Tactics.
Local Open Scope Q_scope.

Lemma seed_of_grid (k : Z) :
  (0 <= k <= 200)%Z ->
  Ui.buildSeedForTemp (inject_Z k * Ui.TEMP_STEP) = (1337 + 50 * k)%Z.
Proof.
  intro Hk. unfold Ui.buildSeedForTemp, Ui.toUint32, Ui.MONTE_CARLO_BASE_SEED.
  assert (E : inject_Z k * Ui.TEMP_STEP * 1000 == inject_Z (50 * k)).
  { rewrite inject_Z_mult. unfold Ui.TEMP_STEP.
    change (inject_Z 50) with 50. field. }
  unfold Geoid.Math_round at 1.
  rewrite (@Qfloor_comp _ (inject_Z (50 * k) + 0.5)) by (now rewrite E).
  change (Qfloor (inject_Z (50 * k) + 0.5))
    with (Geoid.Math_round (inject_Z (50 * k))).
  rewrite Rounding.Math_round_integer.
  apply Z.mod_small. lia.
Qed.

(** X25.  Seeds.  A seed is always an unsigned 32-bit integer.  On the
    temperatures the controls can reach, the multiples [k * 0.05] for
    [0 <= k <= 200], the seed is [1337 + 50 * k] (no wrap-around), so two
    different temperatures never get the same seed. *)
Theorem buildSeedForTemp_distinct (k k' : Z) (t : Q) :
  (0 <= k <= 200)%Z -> (0 <= k' <= 200)%Z ->
  (0 <= Ui.buildSeedForTemp t < 2 ^ 32)%Z
  /\ Ui.buildSeedForTemp (inject_Z k * Ui.TEMP_STEP) = (1337 + 50 * k)%Z
  /\ (Ui.buildSeedForTemp (inject_Z k * Ui.TEMP_STEP)
      = Ui.buildSeedForTemp (inject_Z k' * Ui.TEMP_STEP) -> k = k').
Proof.
  intros Hk Hk'. split; [| split].
  - unfold Ui.buildSeedForTemp, Ui.toUint32. apply Z.mod_pos_bound. lia.
  - now apply seed_of_grid.
  - rewrite !seed_of_grid by assumption. lia.
Qed.

Lemma buildSeedForTemp_distinct_witness :
  Ui.buildSeedForTemp (inject_Z 40 * Ui.TEMP_STEP) = (1337 + 50 * 40)%Z.
Proof.
  refine (proj1 (proj2 (@buildSeedForTemp_distinct 40 41 2 _ _))); lia.
Defined.

Section Level.
Variable Math : Simulation.MathLib.

(** X26.  The level on display.  For every positive temperature the
    simulation the controls run (5000 iterations) has a median and a
    95th percentile that are numbers; [getFloodLevelFromResult] returns
    the one the metric names, the median is not negative and the 95th
    percentile is at least the median, so switching the display from the
    median to the high-end level never lowers the flood.  A metric name
    that is no key of [FLOOD_METRICS] falls back to the median, except
    for the names of members of [Object.prototype], which give
    [undefined]. *)
Theorem displayed_level (t : Q) (s : Simulation.Source) (metric : string) :
  0 < t ->
  exists median p95,
    Ui.getFloodLevelFromResult "median" (fst (Ui.simulate Math t s)) = Num median
    /\ Ui.getFloodLevelFromResult "p95" (fst (Ui.simulate Math t s)) = Num p95
    /\ 0 <= median /\ median <= p95
    /\ (metric <> "median"%string -> metric <> "p95"%string ->
        Ui.getFloodLevelFromResult metric (fst (Ui.simulate Math t s))
        = if existsb (String.eqb metric) Object_prototype
          then Undefined else Num median).
Proof.
  intro Ht. unfold Ui.simulate, Simulation.runSimulationSeeded.
  assert (Hn : (1 <= Ui.MONTE_CARLO_ITERATIONS)%Z) by (vm_compute; discriminate).
  destruct (@EngineFacts.runSimulation_summaries_ordered Math t
              Ui.MONTE_CARLO_ITERATIONS s Ht Hn) as [Hord _].
  pose proof (@EngineBounds.totals_minimum Math t
                Ui.MONTE_CARLO_ITERATIONS s Ht Hn) as Hmin.
  set (result := fst (Simulation.runSimulation Math t
                        (Some Ui.MONTE_CARLO_ITERATIONS) s)) in *.
  destruct Hord as (H1 & H2 & H3 & H4).
  unfold Spec.le in *.
  destruct (Simulation.min (Simulation.stats result)) as [vmin | |];
    try contradiction.
  destruct (Simulation.p5 (Simulation.stats result)) as [vp5 | |] eqn:E5;
    try contradiction.
  destruct (Simulation.median (Simulation.stats result)) as [vmed | |] eqn:Em;
    try contradiction.
  destruct (Simulation.p95 (Simulation.stats result)) as [vp95 | |] eqn:E95;
    try contradiction.
  clearbody result.
  assert (Hmedian : Ui.getFloodLevelFromResult "median" result = Num vmed)
    by (unfold Ui.getFloodLevelFromResult; cbn; exact Em).
  assert (Hp95 : Ui.getFloodLevelFromResult "p95" result = Num vp95)
    by (unfold Ui.getFloodLevelFromResult; cbn; exact E95).
  exists vmed, vp95.
  split; [exact Hmedian |]. split; [exact Hp95 |].
  split; [lra |]. split; [lra |].
  intros N1 N2.
  unfold Ui.getFloodLevelFromResult, read, Ui.FLOOD_METRICS. cbn [own].
  destruct (String.eqb_spec "median" metric) as [<- | _]; [now elim N1 |].
  destruct (String.eqb_spec "p95" metric) as [<- | _]; [now elim N2 |].
  destruct (existsb (String.eqb metric) Object_prototype); [reflexivity |].
  cbn. exact Em.
Qed.

End Level.

Lemma displayed_level_witness :
  exists median p95,
    Ui.getFloodLevelFromResult "median"
      (fst (Ui.simulate Sample.seriesMath 2 Sample.source)) = Num median
    /\ Ui.getFloodLevelFromResult "p95"
         (fst (Ui.simulate Sample.seriesMath 2 Sample.source)) = Num p95
    /\ 0 <= median /\ median <= p95
    /\ ("mean"%string <> "median"%string -> "mean"%string <> "p95"%string ->
        Ui.getFloodLevelFromResult "mean"
          (fst (Ui.simulate Sample.seriesMath 2 Sample.source))
        = if existsb (String.eqb "mean") Object_prototype
          then Undefined else Num median).
Proof.
  apply (@displayed_level Sample.seriesMath 2 Sample.source "mean").
  reflexivity.
Defined.

Lemma increment_length (bins : list nat) :
  forall i, List.length (Ui.increment bins i) = List.length bins.
Proof.
  induction bins as [| b bins IH]; intros [| i]; cbn; auto.
Qed.

Lemma increment_sum (bins : list nat) :
  forall i, (i < List.length bins)%nat ->
    list_sum (Ui.increment bins i) = S (list_sum bins).
Proof.
  induction bins as [| b bins IH]; intros [| i] Hi; cbn in *; try lia.
  rewrite IH by lia. unfold list_sum. lia.
Qed.

Lemma count_length (bins : list nat) (binIndex : Ui.integral) :
  List.length (Ui.count bins binIndex) = List.length bins.
Proof.
  destruct binIndex as [i | |]; cbn; try reflexivity.
  destruct (i <? 0)%Z; [reflexivity | apply increment_length].
Qed.

(** A bin index is [NaN], [-Infinity] or an integer of at most 29. *)
Lemma binIndex_range (min binWidth value : PrimFloat.float) :
  match Ui.binIndex min binWidth value with
  | Ui.Integer i => (i <= 29)%Z
  | Ui.IntegerInfinity negative => negative = true
  | Ui.IntegerNaN => True
  end.
Proof.
  unfold Ui.binIndex, Ui.atMost, Ui.binCount.
  destruct (Ui.floorOf _) as [z | [|] |]; try exact I; try reflexivity; lia.
Qed.

(** One round of the loop adds one to the counts when the sample has a
    bin, and nothing otherwise. *)
Lemma count_sum (min binWidth value : PrimFloat.float) (bins : list nat) :
  List.length bins = 30%nat ->
  list_sum (Ui.count bins (Ui.binIndex min binWidth value))
  = ((if match Ui.binIndex min binWidth value with
         | Ui.Integer i => (0 <=? i)%Z
         | _ => false
         end
      then 1 else 0) + list_sum bins)%nat.
Proof.
  intro Hlen. pose proof (binIndex_range min binWidth value) as Hr.
  destruct (Ui.binIndex min binWidth value) as [i | |]; cbn [Ui.count];
    try reflexivity.
  destruct (Z.ltb_spec i 0) as [Hi | Hi];
    destruct (Z.leb_spec 0 i) as [Hi' | Hi']; try lia.
  rewrite increment_sum by lia. reflexivity.
Qed.

Lemma fold_length (min binWidth : PrimFloat.float) (data : list PrimFloat.float) :
  forall bins,
    List.length
      (fold_left
         (fun bins value => Ui.count bins (Ui.binIndex min binWidth value))
         data bins)
    = List.length bins.
Proof.
  induction data as [| v data IH]; intro bins; [reflexivity |].
  cbn [fold_left]. rewrite IH. apply count_length.
Qed.

Lemma fold_sum (min binWidth : PrimFloat.float) (data : list PrimFloat.float) :
  forall bins, List.length bins = 30%nat ->
    list_sum
      (fold_left
         (fun bins value => Ui.count bins (Ui.binIndex min binWidth value))
         data bins)
    = (List.length
         (filter
            (fun value =>
               match Ui.binIndex min binWidth value with
               | Ui.Integer i => (0 <=? i)%Z
               | _ => false
               end)
            data)
       + list_sum bins)%nat.
Proof.
  induction data as [| v data IH]; intros bins Hlen; [reflexivity |].
  cbn [fold_left filter]. rewrite IH by (now rewrite count_length).
  rewrite (@count_sum min binWidth v bins Hlen).
  destruct (match Ui.binIndex min binWidth v with
            | Ui.Integer i => (0 <=? i)%Z
            | _ => false
            end); cbn [List.length]; lia.
Qed.

(** X27.  The histogram, on doubles.  Whatever the samples are,
    [updateHistogram] fills 30 bins; every sample whose bin index is an
    index of the array is counted in exactly one bin, no index is beyond
    the last bin, and a sample whose index is negative or [NaN] is
    counted nowhere: the counts add up to the number of samples that
    have a bin, which is at most the number of samples.  It can be less.
    For the samples [0.19999999999999998] (the double below 0.2) and
    [0.5], the product [data[0] * 100] rounds to 20, the left edge is
    0.2, above the first sample, whose index is -1: the counts add up to
    1.  For two samples of 0.25 the bins have no width, both indices are
    [NaN] and all counts stay 0. *)
Theorem histogram_bins (data : list PrimFloat.float) :
  (List.length (Ui.histogramBins data) = 30%nat
   /\ list_sum (Ui.histogramBins data)
      = List.length (filter (Spec.binned data) data)
   /\ (list_sum (Ui.histogramBins data) <= List.length data)%nat
   /\ forall value i, Spec.binOf data value = Ui.Integer i -> (i <= 29)%Z)
  /\ (PrimFloat.ltb
        (PrimFloat.next_down (Sample.double 0.2))
        (fst (Ui.edges (PrimFloat.next_down (Sample.double 0.2))
                (Sample.double 0.5))) = true
      /\ Spec.binOf
           [PrimFloat.next_down (Sample.double 0.2); Sample.double 0.5]
           (PrimFloat.next_down (Sample.double 0.2)) = Ui.Integer (-1)
      /\ Ui.histogramBins
           [PrimFloat.next_down (Sample.double 0.2); Sample.double 0.5]
         = repeat 0%nat 29 ++ [1%nat])
  /\ (Spec.binOf [Sample.double 0.25; Sample.double 0.25]
        (Sample.double 0.25) = Ui.IntegerNaN
      /\ Ui.histogramBins [Sample.double 0.25; Sample.double 0.25]
         = repeat 0%nat 30).
Proof.
  split; [| split; [repeat split; vm_compute; reflexivity
                   | split; vm_compute; reflexivity]].
  assert (Hsum : list_sum (Ui.histogramBins data)
                 = List.length (filter (Spec.binned data) data)).
  { unfold Ui.histogramBins, Spec.binned, Spec.binOf.
    destruct data as [| first rest]; [reflexivity |].
    destruct (Ui.edges first (last (first :: rest) first)) as [min binWidth].
    rewrite fold_sum by reflexivity.
    change (list_sum (repeat 0%nat (Z.to_nat Ui.binCount))) with 0%nat.
    lia. }
  split; [| split; [exact Hsum | split]].
  - unfold Ui.histogramBins. destruct data as [| first rest]; [reflexivity |].
    destruct (Ui.edges first (last (first :: rest) first)) as [min binWidth].
    rewrite fold_length. reflexivity.
  - rewrite Hsum. apply filter_length_le.
  - intros value i. unfold Spec.binOf.
    destruct data as [| first rest]; [discriminate |].
    destruct (Ui.edges first (last (first :: rest) first)) as [min binWidth].
    intro E. pose proof (binIndex_range min binWidth value) as Hr.
    rewrite E in Hr. exact Hr.
Qed.

Lemma click_shows (btn : Ui.CompareButton) (s : FloodVisualization.State)
    (m : FloodVisualization.Material)
    (previous current : FloodVisualization.Snapshot) :
  Ui.comparing btn = false ->
  FloodVisualization.floodMaterial s = Some m ->
  Spec.isGeoid m = FloodVisualization.useGeoidTexture s ->
  FloodVisualization.previousSnapshot s = Some previous ->
  FloodVisualization.currentSnapshot s = Some current ->
  Ui.comparing (fst (Ui.compareClick btn s)) = true
  /\ Ui.textContent (fst (Ui.compareClick btn s)) = "Hide Comparison"%string
  /\ FloodVisualization.previousSnapshot (snd (Ui.compareClick btn s))
     = Some previous
  /\ FloodVisualization.currentSnapshot (snd (Ui.compareClick btn s))
     = Some current
  /\ FloodVisualization.useGeoidTexture (snd (Ui.compareClick btn s))
     = FloodVisualization.useGeoidTexture s
  /\ exists m',
       FloodVisualization.floodMaterial (snd (Ui.compareClick btn s)) = Some m'
       /\ Spec.isGeoid m' = Spec.isGeoid m
       /\ Spec.comparison m' = FloodVisualization.seaLevelRise previous.
Proof.
  intros Hb Em Hk Ep Ec.
  unfold Ui.compareClick, FloodVisualization.showComparison.
  rewrite Hb, Ep, Ec, Em. cbn.
  repeat (split; [reflexivity |]).
  eexists. split; [reflexivity |].
  rewrite LifecycleFacts.isGeoid_write_comparison, <- Hk,
    LifecycleFacts.comparison_write_comparison.
  split; reflexivity.
Qed.

(** The click that hides it. *)
Lemma click_hides (btn : Ui.CompareButton) (s : FloodVisualization.State)
    (m : FloodVisualization.Material) :
  Ui.comparing btn = true ->
  FloodVisualization.floodMaterial s = Some m ->
  Spec.isGeoid m = FloodVisualization.useGeoidTexture s ->
  Ui.comparing (fst (Ui.compareClick btn s)) = false
  /\ Ui.textContent (fst (Ui.compareClick btn s))
     = "Compare with Previous"%string
  /\ FloodVisualization.previousSnapshot (snd (Ui.compareClick btn s))
     = FloodVisualization.previousSnapshot s
  /\ FloodVisualization.currentSnapshot (snd (Ui.compareClick btn s))
     = FloodVisualization.currentSnapshot s
  /\ FloodVisualization.useGeoidTexture (snd (Ui.compareClick btn s))
     = FloodVisualization.useGeoidTexture s
  /\ exists m',
       FloodVisualization.floodMaterial (snd (Ui.compareClick btn s)) = Some m'
       /\ Spec.isGeoid m' = Spec.isGeoid m
       /\ Spec.comparison m' = 0.0.
Proof.
  intros Hb Em Hk.
  unfold Ui.compareClick, FloodVisualization.hideComparison.
  rewrite Hb, Em. cbn.
  repeat (split; [reflexivity |]).
  eexists. split; [reflexivity |].
  rewrite LifecycleFacts.isGeoid_write_comparison, <- Hk,
    LifecycleFacts.comparison_write_comparison.
  split; reflexivity.
Qed.

(** X29.  The compare button after a new result.  Suppose the comparison
    is on display (the material exists, both snapshots exist, and a click
    has shown it: the button says "Hide Comparison").  When a new result
    with a positive level is then applied, [setFloodLevel] turns the
    band off and [updateCompareButton] puts the label back to "Compare
    with Previous" and enables the button, but the handler's own flag
    [comparing] stays true.  So the next click runs the hiding branch:
    it shows nothing (the comparison uniform stays 0) and only resets
    the flag; it takes a second click to show the comparison, then with
    the level that was current before as the comparison level. *)
Theorem compare_button_after_new_result (btn : Ui.CompareButton)
    (s : FloodVisualization.State) (m : FloodVisualization.Material)
    (previous current : FloodVisualization.Snapshot)
    (metric : string) (result : Simulation.SimulationResult)
    (level : Q) (now : Z) :
  Ui.comparing btn = false ->
  FloodVisualization.floodMaterial s = Some m ->
  Spec.isGeoid m = FloodVisualization.useGeoidTexture s ->
  FloodVisualization.previousSnapshot s = Some previous ->
  FloodVisualization.currentSnapshot s = Some current ->
  Ui.getFloodLevelFromResult metric result = Num level ->
  0 < level ->
  exists btn2 s2,
    Ui.applySimulationResult metric result true now
      (fst (Ui.compareClick btn s)) (snd (Ui.compareClick btn s))
      = Some (btn2, s2, None)
    /\ (Ui.textContent (fst (Ui.compareClick btn s)) = "Hide Comparison"%string
        /\ Ui.textContent btn2 = "Compare with Previous"%string
        /\ Ui.disabled btn2 = false
        /\ Ui.comparing btn2 = true)
    /\ (Ui.comparing (fst (Ui.compareClick btn2 s2)) = false
        /\ Ui.textContent (fst (Ui.compareClick btn2 s2))
           = "Compare with Previous"%string
        /\ option_map Spec.comparison
             (FloodVisualization.floodMaterial (snd (Ui.compareClick btn2 s2)))
           = Some 0.0)
    /\ (Ui.comparing
          (fst (Ui.compareClick (fst (Ui.compareClick btn2 s2))
                  (snd (Ui.compareClick btn2 s2)))) = true
        /\ option_map Spec.comparison
             (FloodVisualization.floodMaterial
                (snd (Ui.compareClick (fst (Ui.compareClick btn2 s2))
                        (snd (Ui.compareClick btn2 s2)))))
           = Some (FloodVisualization.seaLevelRise current)).
Proof.
  intros Hb Em Hk Ep Ec Hlevel Hpos.
  destruct (@click_shows btn s m previous current Hb Em Hk Ep Ec)
    as (B1 & T1 & P1 & C1 & U1 & m1 & M1 & K1 & _).
  set (btn1 := fst (Ui.compareClick btn s)) in *.
  set (s1 := snd (Ui.compareClick btn s)) in *.
  destruct (@LifecycleFacts.recorded_state level (Some result) now s1 m1 Hpos M1)
    as (C2 & P2 & U2 & M2).
  destruct (@LifecycleFacts.shown_state level (Some result) true now s1 m1 Hpos M1)
    as (m0 & _ & _ & _ & _ & _ & _ & E2).
  rewrite C1 in P2. rewrite U1 in U2, M2. rewrite <- Hk, <- K1 in M2, U2.
  destruct (LifecycleFacts.shown_material level m1) as (K2 & Z2 & _).
  set (m2 := FloodVisualization.write_waterAlpha 0
               (if Spec.isGeoid m1
                then FloodVisualization.write_comparisonSLR 0.0
                       (FloodVisualization.write_seaLevelRise level m1)
                else FloodVisualization.write_comparisonLevel 0.0
                       (FloodVisualization.write_floodLevel level m1))) in *.
  exists (Ui.updateCompareButton btn1
            (fst (FloodVisualization.setFloodLevel level (Some result) true now s1))),
    (fst (FloodVisualization.setFloodLevel level (Some result) true now s1)).
  set (s2 := fst (FloodVisualization.setFloodLevel level (Some result) true now s1))
    in *.
  set (btn2 := Ui.updateCompareButton btn1 s2).
  assert (B2 : Ui.comparing btn2 = true) by exact B1.
  assert (Hk2 : Spec.isGeoid m2 = FloodVisualization.useGeoidTexture s2)
    by (rewrite K2, U2; reflexivity).
  split.
  { unfold Ui.applySimulationResult. rewrite Hlevel.
    destruct (FloodVisualization.setFloodLevel level (Some result) true now s1)
      as [s2' thrown] eqn:E.
    cbn [snd] in E2. subst thrown. reflexivity. }
  split.
  { split; [exact T1 |]. split; [reflexivity |]. split; [| exact B2].
    unfold btn2, Ui.updateCompareButton. cbn [Ui.disabled].
    unfold FloodVisualization.hasPreviousSnapshot. rewrite P2. reflexivity. }
  destruct (@click_hides btn2 s2 m2 B2 M2 Hk2)
    as (B3 & T3 & P3 & C3 & U3 & m3 & M3 & K3 & Z3).
  split.
  { split; [exact B3 |]. split; [exact T3 |]. rewrite M3. cbn. now rewrite Z3. }
  rewrite P2 in P3. rewrite C2 in C3.
  assert (Hk3 : Spec.isGeoid m3
                = FloodVisualization.useGeoidTexture (snd (Ui.compareClick btn2 s2)))
    by (rewrite K3, U3; exact Hk2).
  destruct (@click_shows _ _ m3 current _ B3 M3 Hk3 P3 C3)
    as (B4 & _ & _ & _ & _ & m4 & M4 & _ & Z4).
  split; [exact B4 |]. rewrite M4. cbn. now rewrite Z4.
Qed.

Lemma compare_button_after_new_result_witness :
  let btn :=
    {| Ui.comparing := false; Ui.disabled := false;
       Ui.textContent := "Compare with Previous"; Ui.active := false;
       Ui.comparisonStats := None |} in
  let s :=
    FloodVisualization.run
      [FloodVisualization.Init (Some (Sample.flatCanvas 0));
       FloodVisualization.SetFloodLevel 0.5 None true 100%Z;
       FloodVisualization.SetFloodLevel 1.2 None true 200%Z] in
  let result :=
    {| Simulation.tempIncrease := 3; Simulation.iterations := 1;
       Simulation.results := [2];
       Simulation.stats := Simulation.computeStats [2];
       Simulation.contributorStats := [] |} in
  exists btn2 s2,
    Ui.applySimulationResult "p95" result true 300%Z
      (fst (Ui.compareClick btn s)) (snd (Ui.compareClick btn s))
      = Some (btn2, s2, None)
    /\ Ui.comparing btn2 = true
    /\ Ui.textContent btn2 = "Compare with Previous"%string.
Proof.
  intros btn s result.
  destruct (@compare_button_after_new_result btn s
              (FloodVisualization.write_waterAlpha 0
                 (FloodVisualization.write_comparisonSLR 0.0
                    (FloodVisualization.write_seaLevelRise 1.2
                       (FloodVisualization.write_waterAlpha 0
                          (FloodVisualization.write_comparisonSLR 0.0
                             (FloodVisualization.write_seaLevelRise 0.5
                                (FloodVisualization.FloodGeoid
                                   {| FloodVisualization.GeoidUniforms.seaLevelRise := 0.0;
                                      FloodVisualization.GeoidUniforms.comparisonSLR := 0.0;
                                      FloodVisualization.GeoidUniforms.waterAlpha := 0.0;
                                      FloodVisualization.GeoidUniforms.geoidTexture :=
                                        Sample.flatCanvas 0;
                                      FloodVisualization.GeoidUniforms.geoidMin :=
                                        Geoid.GEOID_MIN;
                                      FloodVisualization.GeoidUniforms.geoidRange :=
                                        Geoid.GEOID_RANGE |})))))))
              {| FloodVisualization.seaLevelRise := 0.5;
                 FloodVisualization.simulationResult := None;
                 FloodVisualization.timestamp := 100 |}
              {| FloodVisualization.seaLevelRise := 1.2;
                 FloodVisualization.simulationResult := None;
                 FloodVisualization.timestamp := 200 |}
              "p95" result 2 300%Z
              eq_refl eq_refl eq_refl eq_refl eq_refl eq_refl eq_refl)
    as (btn2 & s2 & Happly & (_ & T2 & _ & B2) & _).
  exists btn2, s2. split; [exact Happly | split; [exact B2 | exact T2]].
Defined.

End UiFacts.
